(** * Restaurant data scraper: record model, aggregation, adapters, exporters

    A shallow embedding of the Python package [restaurant_scraper] and the
    properties its specification states about it.

    Conventions of the embedding.
    - A Python [str] is a Rocq [string] read as the sequence of its code
      points, for code points below 256.  [str.lower] and [str.strip] are
      modelled exactly on that range.
    - [Optional[float]] is [option float] over the primitive binary64 floats.
    - A Python exception is a constructor of [exn]; a computation that may
      raise has type [outcome A].
    - Calls into [requests], [bs4], [urllib.parse] and [csv] are library
      calls: their results are inputs of the model (a reply per request, the
      anchors of a parsed page, the [netloc] of a parsed URL).  [urlparse]
      and [urljoin] raise [ValueError] on some malformed URLs, so they are
      given as functions into [outcome].
    - An unbounded [while] loop takes a fuel argument and answers [None]
      when the fuel runs out before the loop ends.
    - Logging is left out.  [time.sleep] is an event of the bulk exporter,
      whose pauses the specification speaks of, and is left out of the
      Google Places search. *)

From Stdlib Require Import List String Ascii Bool Arith PeanoNat ZArith Lia.
From Stdlib Require Import Floats DecimalString.
Import ListNotations.

Local Open Scope string_scope.
Local Open Scope list_scope.
Local Open Scope nat_scope.

(* ================================================================== *)
(** ** Python built-ins used by the package *)
(* ================================================================== *)

Module Py.

(** Truthiness, Python's [bool(x)]. *)
Class Truthy (A : Type) := truthy : A -> bool.

#[export] Instance Truthy_str : Truthy string :=
  fun s => match s with EmptyString => false | String _ _ => true end.

#[export] Instance Truthy_float : Truthy float :=
  fun x => negb (PrimFloat.eqb x 0%float).

#[export] Instance Truthy_option {A} `{Truthy A} : Truthy (option A) :=
  fun o => match o with None => false | Some a => truthy a end.

#[export] Instance Truthy_list {A} : Truthy (list A) :=
  fun l => match l with [] => false | _ :: _ => true end.

(** Exceptions the package can meet. *)
Inductive exn : Type :=
| RequestException (msg : string)   (* requests: timeout, connection error *)
| HTTPError (status_code : Z)       (* requests: raise_for_status *)
| JSONDecodeError                   (* resp.json() on a non-JSON body *)
| KeyError (key : string)
| ValueError (msg : string)
| OtherException (msg : string).

(** [except requests.RequestException]: [requests.HTTPError] and, since
    requests 2.27, [requests.JSONDecodeError] are subclasses of it. *)
Definition is_RequestException (e : exn) : bool :=
  match e with
  | RequestException _ | HTTPError _ | JSONDecodeError => true
  | _ => false
  end.

(** [str(exc)].  A [RequestException] carries its text.  The text of a
    [JSONDecodeError] depends on where the decoder stops: the one below is
    the text for a body that does not begin as JSON, an empty body or an
    HTML page, and other bodies are not told apart.  The text of an
    [HTTPError] names the status, the reason and the URL, of which only
    the status is kept; the only handler that renders an exception, in
    [_create_batch], meets no [HTTPError]. *)
Definition str_of_exn (e : exn) : string :=
  match e with
  | RequestException msg => msg
  | HTTPError status_code =>
      (NilZero.string_of_int (Z.to_int status_code) ++ " Error")%string
  | JSONDecodeError => "Expecting value: line 1 column 1 (char 0)"
  | KeyError key => ("'" ++ key ++ "'")%string
  | ValueError msg => msg
  | OtherException msg => msg
  end.

Inductive outcome (A : Type) : Type :=
| Returned (a : A)
| Raised (e : exn).
Arguments Returned {A} a.
Arguments Raised {A} e.

Definition bind {A B} (c : outcome A) (k : A -> outcome B) : outcome B :=
  match c with
  | Returned a => k a
  | Raised e => Raised e
  end.

(** [try: body  except <caught> as exc: handler]. *)
Definition try_except {A} (body : outcome A) (caught : exn -> bool)
    (handler : exn -> outcome A) : outcome A :=
  match body with
  | Returned a => Returned a
  | Raised e => if caught e then handler e else Raised e
  end.

(** *** [str] methods *)

Definition code (c : ascii) : nat := nat_of_ascii c.

Definition between (lo hi n : nat) : bool := (lo <=? n) && (n <=? hi).

(** [c.isspace()] for a code point below 256. *)
Definition isspace (c : ascii) : bool :=
  let n := code c in
  between 9 13 n || between 28 32 n || (n =? 133) || (n =? 160).

(** [c.lower()] for a code point below 256. *)
Definition lower_char (c : ascii) : ascii :=
  let n := code c in
  if between 65 90 n || between 192 214 n || between 216 222 n
  then ascii_of_nat (n + 32) else c.

Fixpoint lower (s : string) : string :=
  match s with
  | EmptyString => EmptyString
  | String c s' => String (lower_char c) (lower s')
  end.

Fixpoint lstrip (s : string) : string :=
  match s with
  | EmptyString => EmptyString
  | String c s' => if isspace c then lstrip s' else s
  end.

Fixpoint rstrip (s : string) : string :=
  match s with
  | EmptyString => EmptyString
  | String c s' =>
      match rstrip s' with
      | EmptyString => if isspace c then EmptyString else String c EmptyString
      | t => String c t
      end
  end.

Definition strip (s : string) : string := rstrip (lstrip s).

Definition startswith (s p : string) : bool := String.prefix p s.

Definition endswith (s suffix : string) : bool :=
  let n := String.length s in
  let k := String.length suffix in
  (k <=? n) && String.eqb (String.substring (n - k) k s) suffix.

(** [sub in s]. *)
Fixpoint contains (sub s : string) : bool :=
  String.prefix sub s ||
  match s with
  | EmptyString => false
  | String _ s' => contains sub s'
  end.

(** [s.replace(old, new)] for a non-empty [old]: occurrences are replaced
    from left to right without overlap.  [skip] counts the characters of
    an occurrence still to be dropped. *)
Fixpoint replace_from (old new : string) (skip : nat) (s : string) : string :=
  match s with
  | EmptyString => EmptyString
  | String c s' =>
      match skip with
      | S k => replace_from old new k s'
      | O =>
          if String.prefix old s
          then (new ++ replace_from old new (String.length old - 1) s')%string
          else String c (replace_from old new 0 s')
      end
  end.

Definition replace (s old new : string) : string := replace_from old new 0 s.

(** [s.split(sep)[0]] for a non-empty [sep]: the text before the first
    occurrence of [sep], the whole of [s] when there is none. *)
Fixpoint split_head (s sep : string) : string :=
  if String.prefix sep s then EmptyString
  else match s with
       | EmptyString => EmptyString
       | String c s' => String c (split_head s' sep)
       end.

(** [sep.join(parts)]. *)
Fixpoint join (sep : string) (parts : list string) : string :=
  match parts with
  | [] => EmptyString
  | [p] => p
  | p :: rest => (p ++ sep ++ join sep rest)%string
  end.

(** [s[:n]] for [n >= 0]. *)
Definition slice_to (s : string) (n : nat) : string := String.substring 0 n s.

(** [str(n)] for an integer. *)
Definition str_of_int (n : Z) : string := NilZero.string_of_int (Z.to_int n).

(** [l[:m]] on a list, negative [m] counting from the end. *)
Definition list_slice_to {A} (l : list A) (m : Z) : list A :=
  if (0 <=? m)%Z then firstn (Z.to_nat m) l
  else firstn (List.length l - Z.to_nat (- m)) l.

End Py.
Export Py.

(* ================================================================== *)
(** ** models.py *)
(* ================================================================== *)

Module Models.

Record Restaurant : Type := mkRestaurant {
  venue_name : string;
  website : string;
  phone_number : string;
  email_address : string;
  venue_address : string;
  city : string;
  state : string;
  zip_code : string;
  country : string;
  venue_owner : string;
  cuisine_type : string;
  rating : option float;
  price_level : string;
  facebook : string;
  instagram : string;
  twitter : string;
  linkedin : string;
  tiktok : string;
  yelp_url : string;
  google_place_id : string;
  hours_of_operation : string;
  source : string
}.

(** [Restaurant()] with every default. *)
Definition empty_restaurant : Restaurant :=
  mkRestaurant "" "" "" "" "" "" "" "" "" "" "" None "" "" "" "" "" "" "" "" "" "".

(** The names in [__dataclass_fields__], in declaration order. *)
Inductive Field : Type :=
| F_venue_name | F_website | F_phone_number | F_email_address
| F_venue_address | F_city | F_state | F_zip_code | F_country
| F_venue_owner | F_cuisine_type | F_rating | F_price_level
| F_facebook | F_instagram | F_twitter | F_linkedin | F_tiktok
| F_yelp_url | F_google_place_id | F_hours_of_operation | F_source.

Definition dataclass_fields : list Field :=
  [ F_venue_name; F_website; F_phone_number; F_email_address;
    F_venue_address; F_city; F_state; F_zip_code; F_country;
    F_venue_owner; F_cuisine_type; F_rating; F_price_level;
    F_facebook; F_instagram; F_twitter; F_linkedin; F_tiktok;
    F_yelp_url; F_google_place_id; F_hours_of_operation; F_source ].

(** A value held by an attribute of a record. *)
Inductive Value : Type :=
| VNone
| VStr (s : string)
| VFloat (x : float).

#[export] Instance Truthy_Value : Truthy Value :=
  fun v => match v with
           | VNone => false
           | VStr s => truthy s
           | VFloat x => truthy x
           end.

Definition value_of_rating (o : option float) : Value :=
  match o with None => VNone | Some x => VFloat x end.

Definition getattr (r : Restaurant) (f : Field) : Value :=
  match f with
  | F_venue_name => VStr (venue_name r)
  | F_website => VStr (website r)
  | F_phone_number => VStr (phone_number r)
  | F_email_address => VStr (email_address r)
  | F_venue_address => VStr (venue_address r)
  | F_city => VStr (city r)
  | F_state => VStr (state r)
  | F_zip_code => VStr (zip_code r)
  | F_country => VStr (country r)
  | F_venue_owner => VStr (venue_owner r)
  | F_cuisine_type => VStr (cuisine_type r)
  | F_rating => value_of_rating (rating r)
  | F_price_level => VStr (price_level r)
  | F_facebook => VStr (facebook r)
  | F_instagram => VStr (instagram r)
  | F_twitter => VStr (twitter r)
  | F_linkedin => VStr (linkedin r)
  | F_tiktok => VStr (tiktok r)
  | F_yelp_url => VStr (yelp_url r)
  | F_google_place_id => VStr (google_place_id r)
  | F_hours_of_operation => VStr (hours_of_operation r)
  | F_source => VStr (source r)
  end.

(** Field updates, one per attribute the package assigns. *)
Definition set_venue_name (r : Restaurant) (v : string) : Restaurant :=
  mkRestaurant v (website r) (phone_number r) (email_address r)
    (venue_address r) (city r) (state r) (zip_code r) (country r)
    (venue_owner r) (cuisine_type r) (rating r) (price_level r) (facebook r)
    (instagram r) (twitter r) (linkedin r) (tiktok r) (yelp_url r)
    (google_place_id r) (hours_of_operation r) (source r).
Definition set_website (r : Restaurant) (v : string) : Restaurant :=
  mkRestaurant (venue_name r) v (phone_number r) (email_address r)
    (venue_address r) (city r) (state r) (zip_code r) (country r)
    (venue_owner r) (cuisine_type r) (rating r) (price_level r) (facebook r)
    (instagram r) (twitter r) (linkedin r) (tiktok r) (yelp_url r)
    (google_place_id r) (hours_of_operation r) (source r).
Definition set_phone_number (r : Restaurant) (v : string) : Restaurant :=
  mkRestaurant (venue_name r) (website r) v (email_address r)
    (venue_address r) (city r) (state r) (zip_code r) (country r)
    (venue_owner r) (cuisine_type r) (rating r) (price_level r) (facebook r)
    (instagram r) (twitter r) (linkedin r) (tiktok r) (yelp_url r)
    (google_place_id r) (hours_of_operation r) (source r).
Definition set_email_address (r : Restaurant) (v : string) : Restaurant :=
  mkRestaurant (venue_name r) (website r) (phone_number r) v
    (venue_address r) (city r) (state r) (zip_code r) (country r)
    (venue_owner r) (cuisine_type r) (rating r) (price_level r) (facebook r)
    (instagram r) (twitter r) (linkedin r) (tiktok r) (yelp_url r)
    (google_place_id r) (hours_of_operation r) (source r).
Definition set_venue_address (r : Restaurant) (v : string) : Restaurant :=
  mkRestaurant (venue_name r) (website r) (phone_number r) (email_address r)
    v (city r) (state r) (zip_code r) (country r)
    (venue_owner r) (cuisine_type r) (rating r) (price_level r) (facebook r)
    (instagram r) (twitter r) (linkedin r) (tiktok r) (yelp_url r)
    (google_place_id r) (hours_of_operation r) (source r).
Definition set_city (r : Restaurant) (v : string) : Restaurant :=
  mkRestaurant (venue_name r) (website r) (phone_number r) (email_address r)
    (venue_address r) v (state r) (zip_code r) (country r)
    (venue_owner r) (cuisine_type r) (rating r) (price_level r) (facebook r)
    (instagram r) (twitter r) (linkedin r) (tiktok r) (yelp_url r)
    (google_place_id r) (hours_of_operation r) (source r).
Definition set_state (r : Restaurant) (v : string) : Restaurant :=
  mkRestaurant (venue_name r) (website r) (phone_number r) (email_address r)
    (venue_address r) (city r) v (zip_code r) (country r)
    (venue_owner r) (cuisine_type r) (rating r) (price_level r) (facebook r)
    (instagram r) (twitter r) (linkedin r) (tiktok r) (yelp_url r)
    (google_place_id r) (hours_of_operation r) (source r).
Definition set_zip_code (r : Restaurant) (v : string) : Restaurant :=
  mkRestaurant (venue_name r) (website r) (phone_number r) (email_address r)
    (venue_address r) (city r) (state r) v (country r)
    (venue_owner r) (cuisine_type r) (rating r) (price_level r) (facebook r)
    (instagram r) (twitter r) (linkedin r) (tiktok r) (yelp_url r)
    (google_place_id r) (hours_of_operation r) (source r).
Definition set_country (r : Restaurant) (v : string) : Restaurant :=
  mkRestaurant (venue_name r) (website r) (phone_number r) (email_address r)
    (venue_address r) (city r) (state r) (zip_code r) v
    (venue_owner r) (cuisine_type r) (rating r) (price_level r) (facebook r)
    (instagram r) (twitter r) (linkedin r) (tiktok r) (yelp_url r)
    (google_place_id r) (hours_of_operation r) (source r).
Definition set_venue_owner (r : Restaurant) (v : string) : Restaurant :=
  mkRestaurant (venue_name r) (website r) (phone_number r) (email_address r)
    (venue_address r) (city r) (state r) (zip_code r) (country r)
    v (cuisine_type r) (rating r) (price_level r) (facebook r)
    (instagram r) (twitter r) (linkedin r) (tiktok r) (yelp_url r)
    (google_place_id r) (hours_of_operation r) (source r).
Definition set_cuisine_type (r : Restaurant) (v : string) : Restaurant :=
  mkRestaurant (venue_name r) (website r) (phone_number r) (email_address r)
    (venue_address r) (city r) (state r) (zip_code r) (country r)
    (venue_owner r) v (rating r) (price_level r) (facebook r)
    (instagram r) (twitter r) (linkedin r) (tiktok r) (yelp_url r)
    (google_place_id r) (hours_of_operation r) (source r).
Definition set_rating (r : Restaurant) (v : option float) : Restaurant :=
  mkRestaurant (venue_name r) (website r) (phone_number r) (email_address r)
    (venue_address r) (city r) (state r) (zip_code r) (country r)
    (venue_owner r) (cuisine_type r) v (price_level r) (facebook r)
    (instagram r) (twitter r) (linkedin r) (tiktok r) (yelp_url r)
    (google_place_id r) (hours_of_operation r) (source r).
Definition set_price_level (r : Restaurant) (v : string) : Restaurant :=
  mkRestaurant (venue_name r) (website r) (phone_number r) (email_address r)
    (venue_address r) (city r) (state r) (zip_code r) (country r)
    (venue_owner r) (cuisine_type r) (rating r) v (facebook r)
    (instagram r) (twitter r) (linkedin r) (tiktok r) (yelp_url r)
    (google_place_id r) (hours_of_operation r) (source r).
Definition set_facebook (r : Restaurant) (v : string) : Restaurant :=
  mkRestaurant (venue_name r) (website r) (phone_number r) (email_address r)
    (venue_address r) (city r) (state r) (zip_code r) (country r)
    (venue_owner r) (cuisine_type r) (rating r) (price_level r) v
    (instagram r) (twitter r) (linkedin r) (tiktok r) (yelp_url r)
    (google_place_id r) (hours_of_operation r) (source r).
Definition set_instagram (r : Restaurant) (v : string) : Restaurant :=
  mkRestaurant (venue_name r) (website r) (phone_number r) (email_address r)
    (venue_address r) (city r) (state r) (zip_code r) (country r)
    (venue_owner r) (cuisine_type r) (rating r) (price_level r) (facebook r)
    v (twitter r) (linkedin r) (tiktok r) (yelp_url r)
    (google_place_id r) (hours_of_operation r) (source r).
Definition set_twitter (r : Restaurant) (v : string) : Restaurant :=
  mkRestaurant (venue_name r) (website r) (phone_number r) (email_address r)
    (venue_address r) (city r) (state r) (zip_code r) (country r)
    (venue_owner r) (cuisine_type r) (rating r) (price_level r) (facebook r)
    (instagram r) v (linkedin r) (tiktok r) (yelp_url r)
    (google_place_id r) (hours_of_operation r) (source r).
Definition set_linkedin (r : Restaurant) (v : string) : Restaurant :=
  mkRestaurant (venue_name r) (website r) (phone_number r) (email_address r)
    (venue_address r) (city r) (state r) (zip_code r) (country r)
    (venue_owner r) (cuisine_type r) (rating r) (price_level r) (facebook r)
    (instagram r) (twitter r) v (tiktok r) (yelp_url r)
    (google_place_id r) (hours_of_operation r) (source r).
Definition set_tiktok (r : Restaurant) (v : string) : Restaurant :=
  mkRestaurant (venue_name r) (website r) (phone_number r) (email_address r)
    (venue_address r) (city r) (state r) (zip_code r) (country r)
    (venue_owner r) (cuisine_type r) (rating r) (price_level r) (facebook r)
    (instagram r) (twitter r) (linkedin r) v (yelp_url r)
    (google_place_id r) (hours_of_operation r) (source r).
Definition set_yelp_url (r : Restaurant) (v : string) : Restaurant :=
  mkRestaurant (venue_name r) (website r) (phone_number r) (email_address r)
    (venue_address r) (city r) (state r) (zip_code r) (country r)
    (venue_owner r) (cuisine_type r) (rating r) (price_level r) (facebook r)
    (instagram r) (twitter r) (linkedin r) (tiktok r) v
    (google_place_id r) (hours_of_operation r) (source r).
Definition set_google_place_id (r : Restaurant) (v : string) : Restaurant :=
  mkRestaurant (venue_name r) (website r) (phone_number r) (email_address r)
    (venue_address r) (city r) (state r) (zip_code r) (country r)
    (venue_owner r) (cuisine_type r) (rating r) (price_level r) (facebook r)
    (instagram r) (twitter r) (linkedin r) (tiktok r) (yelp_url r)
    v (hours_of_operation r) (source r).
Definition set_hours_of_operation (r : Restaurant) (v : string) : Restaurant :=
  mkRestaurant (venue_name r) (website r) (phone_number r) (email_address r)
    (venue_address r) (city r) (state r) (zip_code r) (country r)
    (venue_owner r) (cuisine_type r) (rating r) (price_level r) (facebook r)
    (instagram r) (twitter r) (linkedin r) (tiktok r) (yelp_url r)
    (google_place_id r) v (source r).
Definition set_source (r : Restaurant) (v : string) : Restaurant :=
  mkRestaurant (venue_name r) (website r) (phone_number r) (email_address r)
    (venue_address r) (city r) (state r) (zip_code r) (country r)
    (venue_owner r) (cuisine_type r) (rating r) (price_level r) (facebook r)
    (instagram r) (twitter r) (linkedin r) (tiktok r) (yelp_url r)
    (google_place_id r) (hours_of_operation r) v.

Definition set_str (setter : Restaurant -> string -> Restaurant)
    (r : Restaurant) (v : Value) : Restaurant :=
  match v with
  | VStr s => setter r s
  | _ => r
  end.

(** [setattr(r, f, v)].  The record is typed as the dataclass annotates
    it, so a value of the wrong kind for [f] has nowhere to go and leaves
    [r] as it is; [merge] only ever passes [getattr other f]. *)
Definition setattr (r : Restaurant) (f : Field) (v : Value) : Restaurant :=
  match f with
  | F_venue_name => set_str set_venue_name r v
  | F_website => set_str set_website r v
  | F_phone_number => set_str set_phone_number r v
  | F_email_address => set_str set_email_address r v
  | F_venue_address => set_str set_venue_address r v
  | F_city => set_str set_city r v
  | F_state => set_str set_state r v
  | F_zip_code => set_str set_zip_code r v
  | F_country => set_str set_country r v
  | F_venue_owner => set_str set_venue_owner r v
  | F_cuisine_type => set_str set_cuisine_type r v
  | F_rating =>
      match v with
      | VNone => set_rating r None
      | VFloat x => set_rating r (Some x)
      | VStr _ => r
      end
  | F_price_level => set_str set_price_level r v
  | F_facebook => set_str set_facebook r v
  | F_instagram => set_str set_instagram r v
  | F_twitter => set_str set_twitter r v
  | F_linkedin => set_str set_linkedin r v
  | F_tiktok => set_str set_tiktok r v
  | F_yelp_url => set_str set_yelp_url r v
  | F_google_place_id => set_str set_google_place_id r v
  | F_hours_of_operation => set_str set_hours_of_operation r v
  | F_source => set_str set_source r v
  end.

(** One turn of the loop of [merge]. *)
Definition merge_field (other self : Restaurant) (fld : Field) : Restaurant :=
  let other_val := getattr other fld in
  let current_val := getattr self fld in
  if truthy other_val && negb (truthy current_val)
  then setattr self fld other_val
  else self.

(** [self.merge(other)]: the record [self] has become. *)
Definition merge (self other : Restaurant) : Restaurant :=
  fold_left (merge_field other) dataclass_fields self.

Definition field_name (f : Field) : string :=
  match f with
  | F_venue_name => "venue_name"
  | F_website => "website"
  | F_phone_number => "phone_number"
  | F_email_address => "email_address"
  | F_venue_address => "venue_address"
  | F_city => "city"
  | F_state => "state"
  | F_zip_code => "zip_code"
  | F_country => "country"
  | F_venue_owner => "venue_owner"
  | F_cuisine_type => "cuisine_type"
  | F_rating => "rating"
  | F_price_level => "price_level"
  | F_facebook => "facebook"
  | F_instagram => "instagram"
  | F_twitter => "twitter"
  | F_linkedin => "linkedin"
  | F_tiktok => "tiktok"
  | F_yelp_url => "yelp_url"
  | F_google_place_id => "google_place_id"
  | F_hours_of_operation => "hours_of_operation"
  | F_source => "source"
  end.

(** [to_dict], that is [asdict(self)]: the attributes by name, in
    declaration order. *)
Definition to_dict (r : Restaurant) : list (string * Value) :=
  map (fun f => (field_name f, getattr r f)) dataclass_fields.

Definition Field_eq_dec (f g : Field) : {f = g} + {f <> g}.
Proof. decide equality. Defined.

End Models.
Export Models.

(* ================================================================== *)
(** ** cli.py *)
(* ================================================================== *)

Module Cli.

(** The dict [seen] of [_deduplicate].  A Python dict iterates in
    insertion order, and assigning to or mutating the value under a key
    that is present keeps the key's position. *)
Definition seen_dict : Type := list (string * Restaurant).

(** [key in seen]. *)
Fixpoint dict_contains (key : string) (seen : seen_dict) : bool :=
  match seen with
  | [] => false
  | (k, _) :: rest => String.eqb k key || dict_contains key rest
  end.

(** [seen[key].merge(r)]: the record stored under [key] is merged in place. *)
Fixpoint dict_merge_at (key : string) (r : Restaurant) (seen : seen_dict) : seen_dict :=
  match seen with
  | [] => []
  | (k, existing) :: rest =>
      if String.eqb k key then (k, merge existing r) :: rest
      else (k, existing) :: dict_merge_at key r rest
  end.

(** [r.venue_name.lower().strip()]. *)
Definition identity_key (r : Restaurant) : string :=
  strip (lower (venue_name r)).

(** The body of the [for r in restaurants] loop. *)
Definition dedup_step (seen : seen_dict) (r : Restaurant) : seen_dict :=
  let key := identity_key r in
  if dict_contains key seen
  then dict_merge_at key r seen
  else seen ++ [(key, r)].

Definition dedup_loop (restaurants : list Restaurant) : seen_dict :=
  fold_left dedup_step restaurants [].

(** [list(seen.values())]. *)
Definition _deduplicate (restaurants : list Restaurant) : list Restaurant :=
  map snd (dedup_loop restaurants).

(** *** The same loop over object references

    [Restaurant] objects are mutable and [restaurants] is a list of
    references: [seen[key] = r] stores a reference, and
    [seen[key].merge(r)] mutates the object it finds, which is also an
    element of the input list.  The [Store] maps an address to the state
    of the object there. *)
Definition Store : Type := list Restaurant.

Definition deref (store : Store) (p : nat) : Restaurant :=
  nth p store empty_restaurant.

Fixpoint store_update (store : Store) (p : nat) (v : Restaurant) : Store :=
  match store, p with
  | [], _ => []
  | _ :: rest, O => v :: rest
  | r :: rest, S p' => r :: store_update rest p' v
  end.

Definition seen_refs : Type := list (string * nat).

(** The reference [seen[key]], when [key in seen]. *)
Fixpoint refs_lookup (key : string) (seen : seen_refs) : option nat :=
  match seen with
  | [] => None
  | (k, q) :: rest => if String.eqb k key then Some q else refs_lookup key rest
  end.

Definition dedup_step_refs (st : Store * seen_refs) (p : nat) : Store * seen_refs :=
  let (store, seen) := st in
  let key := identity_key (deref store p) in
  match refs_lookup key seen with
  | Some q => (store_update store q (merge (deref store q) (deref store p)), seen)
  | None => (store, seen ++ [(key, p)])
  end.

(** The store after the call, and the references returned. *)
Definition _deduplicate_refs (store : Store) (restaurants : list nat)
    : Store * list nat :=
  let st := fold_left dedup_step_refs restaurants (store, []) in
  (fst st, map snd (snd st)).

End Cli.
Export Cli.

(* ================================================================== *)
(** ** The [requests] library, as the adapters see it *)
(* ================================================================== *)

Module Requests.

(** What one call of [session.get] or [session.post] does: it raises a
    [RequestException] (timeout, connection error), or it returns a
    response with a status code and a body.  [Body] is the body as the
    caller goes on to read it. *)
Inductive http_reply (Body : Type) : Type :=
| ConnectionFailed (msg : string)
| Responded (status_code : Z) (body : Body).
Arguments ConnectionFailed {Body} msg.
Arguments Responded {Body} status_code body.

Definition session_get {Body} (reply : http_reply Body) : outcome (Z * Body) :=
  match reply with
  | ConnectionFailed msg => Raised (RequestException msg)
  | Responded status_code body => Returned (status_code, body)
  end.

Definition session_post {Body} (reply : http_reply Body) : outcome (Z * Body) :=
  session_get reply.

(** [resp.raise_for_status()]: an [HTTPError] for a 4xx or 5xx status. *)
Definition raise_for_status (status_code : Z) : outcome unit :=
  if ((400 <=? status_code) && (status_code <? 600))%Z
  then Raised (HTTPError status_code)
  else Returned tt.

(** [resp.json()] on a body that is JSON ([Some]) or does not begin as
    JSON ([None]). *)
Definition json {Data} (body : option Data) : outcome Data :=
  match body with
  | Some data => Returned data
  | None => Raised JSONDecodeError
  end.

End Requests.
Export Requests.

(** [for x in new: if len(acc) >= max_results: break; acc.append(x)], the
    bounded append shared by the paginating adapters. *)
Fixpoint append_up_to {A} (max_results : Z) (acc new : list A) : list A :=
  match new with
  | [] => acc
  | x :: rest =>
      if (max_results <=? Z.of_nat (List.length acc))%Z then acc
      else append_up_to max_results (acc ++ [x]) rest
  end.

(** [d.get(key, default)] on an optional entry. *)
Definition get_default {A} (entry : option A) (default : A) : A :=
  match entry with
  | Some v => v
  | None => default
  end.

(** [d[key]]: a [KeyError] when the entry is missing. *)
Definition subscript {A} (entry : option A) (key : string) : outcome A :=
  match entry with
  | Some v => Returned v
  | None => Raised (KeyError key)
  end.

(** [x in l] for a list of texts. *)
Definition str_in (x : string) (l : list string) : bool :=
  existsb (String.eqb x) l.

(* ================================================================== *)
(** ** scrapers/google_places.py *)
(* ================================================================== *)

Module GooglePlaces.

Definition PRICE_MAP : list (Z * string) :=
  [ (0, "Free"); (1, "$"); (2, "$$"); (3, "$$$"); (4, "$$$$") ]%Z.

(** [PRICE_MAP.get(price, default)]; [None] is not a key of the map. *)
Definition PRICE_MAP_get (price : option Z) (default : string) : string :=
  match price with
  | None => default
  | Some p =>
      match find (fun entry => Z.eqb (fst entry) p) PRICE_MAP with
      | Some entry => snd entry
      | None => default
      end
  end.

(** One element of ["results"] in a search response; an absent key is
    [None]. *)
Record Place : Type := mkPlace {
  p_name : option string;
  p_vicinity : option string;
  p_formatted_address : option string;
  p_rating : option float;
  p_price_level : option Z;
  p_place_id : option string
}.

(** The JSON body of a search response. *)
Record SearchData : Type := mkSearchData {
  s_status : option string;
  s_results : option (list Place);
  s_next_page_token : option string
}.

Definition _parse_basic (place : Place) : Restaurant :=
  mkRestaurant
    (get_default (p_name place) "")
    "" "" ""
    (get_default (p_vicinity place)
       (get_default (p_formatted_address place) ""))
    "" "" "" "" "" ""
    (p_rating place)
    (PRICE_MAP_get (p_price_level place) "")
    "" "" "" "" "" ""
    (get_default (p_place_id place) "")
    ""
    "google_places".

(** [data.get("status") not in ("OK", "ZERO_RESULTS")]. *)
Definition status_not_in (status : option string) (allowed : list string) : bool :=
  match status with
  | Some s => negb (str_in s allowed)
  | None => true
  end.

(** [resp = self.session.get(...); resp.raise_for_status();
    data = resp.json()], outside any [try]. *)
Definition fetch_json {Data} (reply : http_reply (option Data)) : outcome Data :=
  bind (session_get reply) (fun resp =>
  bind (raise_for_status (fst resp)) (fun _ =>
  json (snd resp))).

(** The provider: the reply to the [n]-th request of a search, which may
    depend on the ["pagetoken"] parameter sent with it. *)
Definition search_provider : Type :=
  nat -> option string -> http_reply (option SearchData).

(** The [while] loop of [_paginate_search].  [n] counts the requests made
    so far and [pagetoken] is [params.get("pagetoken")]. *)
Fixpoint paginate_loop (fuel : nat) (provider : search_provider)
    (max_results : Z) (n : nat) (pagetoken : option string)
    (restaurants : list Restaurant) (next_page_token : option string)
    : option (outcome (list Restaurant)) :=
  if (Z.of_nat (List.length restaurants) <? max_results)%Z then
    match fuel with
    | O => None
    | S fuel' =>
        let pagetoken :=
          if truthy next_page_token then next_page_token else pagetoken in
        match fetch_json (provider n pagetoken) with
        | Raised e => Some (Raised e)
        | Returned data =>
            if status_not_in (s_status data) ["OK"; "ZERO_RESULTS"]
            then Some (Returned restaurants)
            else
              let restaurants :=
                append_up_to max_results restaurants
                  (map _parse_basic (get_default (s_results data) [])) in
              let next_page_token := s_next_page_token data in
              if negb (truthy next_page_token)
              then Some (Returned restaurants)
              else paginate_loop fuel' provider max_results (S n) pagetoken
                     restaurants next_page_token
        end
    end
  else Some (Returned restaurants).

Definition _paginate_search (fuel : nat) (provider : search_provider)
    (max_results : Z) : option (outcome (list Restaurant)) :=
  paginate_loop fuel provider max_results 0 None [] None.

(** One element of ["address_components"]. *)
Record AddressComponent : Type := mkAddressComponent {
  c_types : option (list string);
  c_long_name : option string;
  c_short_name : option string
}.

(** [data["result"]] of a details response. *)
Record PlaceDetails : Type := mkPlaceDetails {
  d_formatted_phone_number : option string;
  d_website : option string;
  d_formatted_address : option string;
  d_price_level : option Z;
  d_rating : option float;
  d_opening_hours : option (option (list string));   (* its "weekday_text" *)
  d_address_components : option (list AddressComponent)
}.

Record DetailsData : Type := mkDetailsData {
  dd_status : option string;
  dd_result : option PlaceDetails
}.

(** The body of the loop of [_parse_address_components]. *)
Definition parse_address_component (restaurant : Restaurant)
    (comp : AddressComponent) : outcome Restaurant :=
  let types := get_default (c_types comp) [] in
  if str_in "locality" types then
    bind (subscript (c_long_name comp) "long_name") (fun v =>
    Returned (set_city restaurant v))
  else if str_in "administrative_area_level_1" types then
    bind (subscript (c_short_name comp) "short_name") (fun v =>
    Returned (set_state restaurant v))
  else if str_in "postal_code" types then
    bind (subscript (c_long_name comp) "long_name") (fun v =>
    Returned (set_zip_code restaurant v))
  else if str_in "country" types then
    bind (subscript (c_long_name comp) "long_name") (fun v =>
    Returned (set_country restaurant v))
  else Returned restaurant.

Fixpoint _parse_address_components (components : list AddressComponent)
    (restaurant : Restaurant) : outcome Restaurant :=
  match components with
  | [] => Returned restaurant
  | comp :: rest =>
      bind (parse_address_component restaurant comp)
           (_parse_address_components rest)
  end.

(** [enrich_restaurant]; [details] is the provider's reply to the details
    request for a place id. *)
Definition enrich_restaurant
    (details : string -> http_reply (option DetailsData))
    (restaurant : Restaurant) : outcome Restaurant :=
  if negb (truthy (google_place_id restaurant)) then Returned restaurant
  else
    bind (fetch_json (details (google_place_id restaurant))) (fun data =>
    if negb (match dd_status data with
             | Some s => String.eqb s "OK"
             | None => false
             end)
    then Returned restaurant
    else
      bind (subscript (dd_result data) "result") (fun result =>
      let restaurant :=
        set_phone_number restaurant
          (get_default (d_formatted_phone_number result)
             (phone_number restaurant)) in
      let restaurant :=
        set_website restaurant
          (get_default (d_website result) (website restaurant)) in
      let restaurant :=
        set_venue_address restaurant
          (get_default (d_formatted_address result)
             (venue_address restaurant)) in
      let price := d_price_level result in
      let restaurant :=
        match price with
        | Some _ => set_price_level restaurant (PRICE_MAP_get price "")
        | None => restaurant
        end in
      let rating := d_rating result in
      let restaurant :=
        match rating with
        | Some _ => set_rating restaurant rating
        | None => restaurant
        end in
      let hours :=
        get_default (get_default (d_opening_hours result) None) [] in
      let restaurant :=
        if truthy hours
        then set_hours_of_operation restaurant (join " | " hours)
        else restaurant in
      _parse_address_components
        (get_default (d_address_components result) []) restaurant)).

End GooglePlaces.

(* ================================================================== *)
(** ** scrapers/yelp_scraper.py *)
(* ================================================================== *)

Module Yelp.

(** The provider: the reply to the search request with offset [start].
    The body is the page as [_parse_search_results] reads it, the records
    of its business links; [bs4] parses any markup without raising. *)
Definition search_provider : Type := Z -> http_reply (list Restaurant).

(** The [while] loop of [search_restaurants]. *)
Fixpoint search_loop (fuel : nat) (provider : search_provider)
    (max_results : Z) (restaurants : list Restaurant) (start : Z)
    : option (outcome (list Restaurant)) :=
  if (Z.of_nat (List.length restaurants) <? max_results)%Z then
    match fuel with
    | O => None
    | S fuel' =>
        match
          try_except
            (bind (session_get (provider start)) (fun resp =>
             bind (raise_for_status (fst resp)) (fun _ =>
             Returned (Some (snd resp)))))
            is_RequestException
            (fun exc => Returned None)                    (* break *)
        with
        | Raised e => Some (Raised e)
        | Returned None => Some (Returned restaurants)
        | Returned (Some results) =>
            if negb (truthy results) then Some (Returned restaurants)
            else search_loop fuel' provider max_results
                   (append_up_to max_results restaurants results)
                   (start + 10)%Z
        end
    end
  else Some (Returned restaurants).

Definition search_restaurants (fuel : nat) (provider : search_provider)
    (max_results : Z) : option (outcome (list Restaurant)) :=
  search_loop fuel provider max_results [] 0%Z.

End Yelp.

(* ================================================================== *)
(** ** scrapers/web_search.py *)
(* ================================================================== *)

Module WebSearch.

(** An [<a href=...>] element: its target and [get_text(strip=True)]. *)
Record Anchor : Type := mkAnchor {
  a_href : string;
  a_text : string
}.

(** A results page as [bs4] reads it: the text of the response, its
    anchors with a target, and for each [div.result] the title anchor
    [a.result__a] when it has one. *)
Record Page : Type := mkPage {
  page_text : string;
  page_links : list Anchor;
  page_results : list (option Anchor)
}.

(** [_fetch_url]. *)
Definition _fetch_url (reply : http_reply Page) : outcome (option Page) :=
  try_except
    (bind (session_get reply) (fun resp =>
     if (fst resp =? 200)%Z then Returned (Some (snd resp))
     else Returned None))
    is_RequestException
    (fun exc => Returned None).

(** [_clean_name].  The source also lists a separator written with an en
    dash; that character lies outside the code points of the string model,
    so no modelled text contains it and its turn of the loop changes
    nothing. *)
Definition separators : list string :=
  [" - TripAdvisor"; " - Michelin"; " | "; " - a MICHELIN"].

Definition _clean_name (text : string) : string :=
  strip (fold_left
           (fun text sep => if contains sep text then split_head text sep else text)
           separators text).

Definition from_source (name source_tag : string) : Restaurant :=
  set_source (set_venue_name empty_restaurant name) source_tag.

(** [if not resp: return restaurants]. *)
Definition page_missing (resp : option Page) : bool :=
  match resp with
  | None => true
  | Some page => negb (truthy (page_text page))
  end.

(** The [for link in soup.find_all("a", href=True)] loop of
    [_search_tripadvisor]. *)
Fixpoint tripadvisor_links (max_results : Z) (restaurants : list Restaurant)
    (links : list Anchor) : list Restaurant :=
  match links with
  | [] => restaurants
  | link :: rest =>
      let href := a_href link in
      let text := a_text link in
      let restaurants :=
        if contains "Restaurant_Review" href && truthy text
           && (3 <? String.length text)
        then restaurants ++ [from_source (_clean_name text) "tripadvisor"]
        else restaurants in
      if (max_results <=? Z.of_nat (List.length restaurants))%Z then restaurants
      else tripadvisor_links max_results restaurants rest
  end.

(** [except Exception]: every exception of the model is caught. *)
Definition any_exception (e : exn) : bool := true.

Definition _search_tripadvisor (reply : http_reply Page) (max_results : Z)
    : outcome (list Restaurant) :=
  try_except
    (bind (_fetch_url reply) (fun resp =>
     if page_missing resp then Returned []
     else Returned (tripadvisor_links max_results []
                      (match resp with Some page => page_links page | None => [] end))))
    any_exception
    (fun exc => Returned []).

Fixpoint michelin_links (max_results : Z) (restaurants : list Restaurant)
    (links : list Anchor) : list Restaurant :=
  match links with
  | [] => restaurants
  | link :: rest =>
      let href := a_href link in
      let text := a_text link in
      let restaurants :=
        if contains "/restaurant/" href && truthy text
           && (3 <? String.length text)
        then
          let name := _clean_name text in
          if negb (str_in (lower name) ["restaurant"; "restaurants"])
          then restaurants ++ [from_source name "michelin"]
          else restaurants
        else restaurants in
      if (max_results <=? Z.of_nat (List.length restaurants))%Z then restaurants
      else michelin_links max_results restaurants rest
  end.

Definition _search_michelin (reply : http_reply Page) (max_results : Z)
    : outcome (list Restaurant) :=
  try_except
    (bind (_fetch_url reply) (fun resp =>
     if page_missing resp then Returned []
     else Returned (michelin_links max_results []
                      (match resp with Some page => page_links page | None => [] end))))
    any_exception
    (fun exc => Returned []).

Definition skip_domains : list string :=
  [ "tripadvisor"; "yelp.com"; "facebook.com"; "instagram.com";
    "google.com"; "youtube.com"; "twitter.com"; "wikipedia.org" ].

(** The [for result in soup.find_all("div", class_="result")] loop of
    [_search_directories].  [netloc_of] is [urlparse(href).netloc], which
    raises [ValueError] on some malformed targets; the records appended
    before an exception are the ones the function returns. *)
Fixpoint directory_results (netloc_of : string -> outcome string)
    (max_results : Z) (restaurants : list Restaurant)
    (results : list (option Anchor)) : list Restaurant * option exn :=
  match results with
  | [] => (restaurants, None)
  | None :: rest =>                                         (* continue *)
      directory_results netloc_of max_results restaurants rest
  | Some title_el :: rest =>
      let title := a_text title_el in
      let href := a_href title_el in
      match (if startswith href "http" then netloc_of href else Returned "") with
      | Raised e => (restaurants, Some e)
      | Returned domain =>
          if existsb (fun skip => contains skip domain) skip_domains
          then directory_results netloc_of max_results restaurants rest
          else
            let restaurants :=
              if truthy title && (2 <? String.length title)
              then restaurants ++
                   [set_website (from_source (_clean_name title) "web_search")
                      (if startswith href "http" then href else "")]
              else restaurants in
            if (max_results <=? Z.of_nat (List.length restaurants))%Z
            then (restaurants, None)
            else directory_results netloc_of max_results restaurants rest
      end
  end.

Definition _search_directories (netloc_of : string -> outcome string)
    (reply : http_reply Page) (max_results : Z) : outcome (list Restaurant) :=
  match _fetch_url reply with
  | Raised e => if any_exception e then Returned [] else Raised e
  | Returned resp =>
      if page_missing resp then Returned []
      else
        let (restaurants, raised) :=
          directory_results netloc_of max_results []
            (match resp with Some page => page_results page | None => [] end) in
        match raised with
        | Some e => if any_exception e then Returned restaurants else Raised e
        | None => Returned restaurants
        end
  end.

(** The inner loop of [search_restaurants]: one source's records are added
    unless a record with the same normalized name is already there. *)
Fixpoint add_source (max_results : Z) (restaurants source_results : list Restaurant)
    : list Restaurant :=
  match source_results with
  | [] => restaurants
  | r :: rest =>
      if (max_results <=? Z.of_nat (List.length restaurants))%Z then restaurants
      else
        let restaurants :=
          if negb (existsb
                     (fun existing =>
                        String.eqb (strip (lower (venue_name r)))
                                   (strip (lower (venue_name existing))))
                     restaurants)
          then restaurants ++ [r]
          else restaurants in
        add_source max_results restaurants rest
  end.

(** [search_restaurants]; the three replies answer the three queries. *)
Definition search_restaurants (netloc_of : string -> outcome string)
    (tripadvisor michelin directories : http_reply Page) (max_results : Z)
    : outcome (list Restaurant) :=
  bind (_search_tripadvisor tripadvisor max_results) (fun from_tripadvisor =>
  bind (_search_michelin michelin max_results) (fun from_michelin =>
  bind (_search_directories netloc_of directories max_results) (fun from_directories =>
  let sources := [from_tripadvisor; from_michelin; from_directories] in
  let restaurants := fold_left (add_source max_results) sources [] in
  Returned (list_slice_to restaurants max_results)))).

End WebSearch.

(* ================================================================== *)
(** ** scrapers/website_scraper.py *)
(* ================================================================== *)

Module WebsiteScraper.

Definition is_alpha (c : ascii) : bool :=
  between 65 90 (code c) || between 97 122 (code c).

Definition is_digit (c : ascii) : bool := between 48 57 (code c).

Fixpoint char_in (c : ascii) (chars : string) : bool :=
  match chars with
  | EmptyString => false
  | String c' rest => Ascii.eqb c c' || char_in c rest
  end.

(** The classes [[a-zA-Z0-9._%+\-]] and [[a-zA-Z0-9.\-]] of [EMAIL_RE]. *)
Definition local_char (c : ascii) : bool :=
  is_alpha c || is_digit c || char_in c "._%+-".

Definition domain_char (c : ascii) : bool :=
  is_alpha c || is_digit c || char_in c ".-".

(** The length of the longest prefix of [s] whose characters satisfy [p]:
    what a greedy [[...]+] or [[...]{2,}] consumes. *)
Fixpoint run_length (p : ascii -> bool) (s : string) : nat :=
  match s with
  | EmptyString => 0
  | String c s' => if p c then S (run_length p s') else 0
  end.

Fixpoint drop (n : nat) (s : string) : string :=
  match n, s with
  | O, _ => s
  | S n', String _ s' => drop n' s'
  | S _, EmptyString => EmptyString
  end.

(** The part of [EMAIL_RE] after the at sign, [[a-zA-Z0-9.\-]+\.[a-zA-Z]{2,}],
    matched at the start of a text.  The greedy class takes as many
    characters as it can and gives them back one at a time until a dot and
    two letters or more follow; so the dot is the last one of the run that
    has a character before it and two letters after it.  [s] is the text
    from offset [k] of the run on; the answer is the length of the match. *)
Fixpoint domain_match (s : string) (k : nat) : option nat :=
  match s with
  | EmptyString => None
  | String c s' =>
      if domain_char c then
        match domain_match s' (S k) with
        | Some len => Some len
        | None =>
            if (1 <=? k) && Ascii.eqb c "." && (2 <=? run_length is_alpha s')
            then Some (k + 1 + run_length is_alpha s')
            else None
        end
      else None
  end.

(** [EMAIL_RE.match(s)]: the length of the match at the start of [s]. *)
Definition EMAIL_RE_match (s : string) : option nat :=
  let n := run_length local_char s in
  if n =? 0 then None
  else match drop n s with
       | String "@" rest =>
           match domain_match rest 0 with
           | Some len => Some (n + 1 + len)
           | None => None
           end
       | _ => None
       end.

(** [EMAIL_RE.findall(s)]: the matches from left to right, each search
    starting where the match before ended.  [skip] counts the characters
    of the last match still to be passed. *)
Fixpoint findall_from (skip : nat) (s : string) : list string :=
  match s with
  | EmptyString => []
  | String _ s' =>
      match skip with
      | S k => findall_from k s'
      | O =>
          match EMAIL_RE_match s with
          | Some len => String.substring 0 len s :: findall_from (len - 1) s'
          | None => findall_from 0 s'
          end
      end
  end.

Definition EMAIL_RE_findall (s : string) : list string := findall_from 0 s.

(** [href.replace("mailto:", "").split("?")[0].strip()]. *)
Definition mailto_target (href : string) : string :=
  strip (split_head (replace href "mailto:" "") "?").

(** The [for a_tag in soup.find_all("a", href=True)] loop of
    [_extract_email], over the targets of the anchors in document order. *)
Fixpoint first_mailto (hrefs : list string) : option string :=
  match hrefs with
  | [] => None
  | href :: rest =>
      if startswith href "mailto:" then
        let email := mailto_target href in
        match EMAIL_RE_match email with
        | Some _ => Some email
        | None => first_mailto rest
        end
      else first_mailto rest
  end.

Definition image_suffixes : list string :=
  [".png"; ".jpg"; ".gif"; ".svg"; ".webp"].

(** [_extract_email(text, html, base_url)].  [netloc] is
    [urlparse(base_url).netloc] and [hrefs] are the targets of the anchors
    [bs4] finds in [html]. *)
Definition _extract_email (text html netloc : string) (hrefs : list string)
    : string :=
  let domain := replace netloc "www." "" in
  match first_mailto hrefs with
  | Some email => email
  | None =>
      let all_emails := EMAIL_RE_findall (text ++ " " ++ html) in
      let filtered :=
        filter (fun e => negb (existsb (endswith e) image_suffixes)) all_emails in
      let domain_emails := filter (fun e => contains domain e) filtered in
      match domain_emails with
      | e :: _ => e
      | [] =>
          match filtered with
          | e :: _ => e
          | [] => ""
          end
      end
  end.

(** The email step of [enrich_restaurant]:
    [if not restaurant.email_address: restaurant.email_address = ...]. *)
Definition enrich_email (restaurant : Restaurant)
    (text html netloc : string) (hrefs : list string) : Restaurant :=
  if negb (truthy (email_address restaurant))
  then set_email_address restaurant (_extract_email text html netloc hrefs)
  else restaurant.

End WebsiteScraper.

(* ================================================================== *)
(** ** exporters/hubspot_api.py *)
(* ================================================================== *)

Module HubSpot.

(** The summary dict [{"created": ..., "failed": ..., "errors": [...]}]. *)
Record Summary : Type := mkSummary {
  created : Z;
  failed : Z;
  errors : list string
}.

(** One element of ["errors"] in a 207 body: its ["message"] when it has
    one, and [str(err)]. *)
Record BatchError : Type := mkBatchError {
  e_message : option string;
  e_str : string
}.

(** The JSON object of a batch response; an element of ["results"] is
    kept as its text. *)
Record BatchData : Type := mkBatchData {
  b_results : option (list string);
  b_errors : option (list BatchError)
}.

(** The body of a response: [resp.text] and what [resp.json()] reads. *)
Record Body : Type := mkBody {
  text : string;
  parsed : option BatchData
}.

(** The request: one properties dict per record. *)
Definition Payload : Type := list (list (string * string)).

(** The provider: the reply to the [n]-th batch request. *)
Definition crm_provider : Type := nat -> Payload -> http_reply Body.

(** [_extract_domain]; [netloc_of] is [urlparse(...).netloc], which
    raises [ValueError] on some malformed URLs. *)
Definition _extract_domain (netloc_of : string -> outcome string)
    (website : string) : outcome string :=
  if negb (truthy website) then Returned ""
  else
    bind (netloc_of (if startswith website "http" then website
                     else ("https://" ++ website)%string)) (fun netloc =>
    Returned (replace netloc "www." "")).

(** The [properties] dict [_create_batch] builds for one record, with the
    empty values taken out.  Of its entries only the domain can raise. *)
Definition properties (netloc_of : string -> outcome string) (r : Restaurant)
    : outcome (list (string * string)) :=
  bind (_extract_domain netloc_of (website r)) (fun domain =>
  Returned
    (filter (fun kv => truthy (snd kv))
       [ ("name", venue_name r);
         ("domain", domain);
         ("phone", phone_number r);
         ("address", venue_address r);
         ("city", city r);
         ("state", state r);
         ("zip", zip_code r);
         ("country", country r);
         ("website", website r);
         ("description",
          if truthy (cuisine_type r)
          then ("Cuisine: " ++ cuisine_type r)%string else "");
         ("industry", "RESTAURANT") ])).

(** The [for r in restaurants] loop of [_create_batch], which builds
    [inputs]; it runs before the [try]. *)
Fixpoint inputs_of (netloc_of : string -> outcome string)
    (restaurants : list Restaurant) : outcome (list (list (string * string))) :=
  match restaurants with
  | [] => Returned []
  | r :: rest =>
      bind (properties netloc_of r) (fun props =>
      bind (inputs_of netloc_of rest) (fun inputs =>
      Returned (props :: inputs)))
  end.

Definition len {A} (l : list A) : Z := Z.of_nat (List.length l).

(** [_create_batch]; [reply_to] answers the request.  An exception of
    the loop that builds [inputs] leaves the function: the [try] begins at
    the request. *)
Definition _create_batch (netloc_of : string -> outcome string)
    (reply_to : Payload -> http_reply Body) (restaurants : list Restaurant)
    : outcome Summary :=
  bind (inputs_of netloc_of restaurants) (fun inputs =>
  try_except
    (bind (session_post (reply_to inputs)) (fun resp =>
     let status_code := fst resp in
     if (status_code =? 201)%Z then
       bind (json (parsed (snd resp))) (fun data =>
       Returned (mkSummary (len (get_default (b_results data) [])) 0 []))
     else if (status_code =? 207)%Z then
       bind (json (parsed (snd resp))) (fun data =>
       Returned
         (mkSummary
            (len (get_default (b_results data) []))
            (len (get_default (b_errors data) []))
            (map (fun err => get_default (e_message err) (e_str err))
                 (get_default (b_errors data) []))))
     else
       let error_msg := slice_to (text (snd resp)) 200 in
       Returned
         (mkSummary 0 (len restaurants)
            [("HTTP " ++ str_of_int status_code ++ ": " ++ error_msg)%string])))
    is_RequestException
    (fun exc => Returned (mkSummary 0 (len restaurants) [str_of_exn exc]))).

(** What [push_restaurants] does to the outside world. *)
Inductive Event : Type :=
| Posted (payload : Payload)
| Slept (seconds : float).

(** [range(0, stop, step)] for a length [stop]. *)
Fixpoint range_up (fuel : nat) (i stop step : Z) : list Z :=
  match fuel with
  | O => []
  | S fuel' =>
      if (i <? stop)%Z then i :: range_up fuel' (i + step)%Z stop step else []
  end.

Definition range (stop step : Z) : outcome (list Z) :=
  if (step =? 0)%Z then Raised (ValueError "range() arg 3 must not be zero")
  else if (step <? 0)%Z then Returned []
  else Returned (range_up (Z.to_nat stop) 0 stop step).

(** [l[i : j]] for [0 <= i]. *)
Definition slice {A} (l : list A) (i j : Z) : list A :=
  firstn (Z.to_nat (j - i)) (skipn (Z.to_nat i) l).

(** The state the loop of [push_restaurants] carries: the running
    summary, the events so far, the number of requests made. *)
Record PushState : Type := mkPushState {
  results : Summary;
  trace : list Event;
  requests : nat
}.

(** The body of the [for i in range(...)] loop.  The payload of the
    request is the [inputs] that [_create_batch] has built, read here once
    more for the trace: building it has no effect. *)
Definition push_batch (netloc_of : string -> outcome string)
    (provider : crm_provider)
    (restaurants : list Restaurant) (batch_size : Z)
    (st : PushState) (i : Z) : outcome PushState :=
  let batch := slice restaurants i (i + batch_size) in
  bind (_create_batch netloc_of (provider (requests st)) batch) (fun batch_result =>
  bind (inputs_of netloc_of batch) (fun inputs =>
  let results :=
    mkSummary
      (created (results st) + created batch_result)
      (failed (results st) + failed batch_result)
      (errors (results st) ++ errors batch_result) in
  let trace := trace st ++ [Posted inputs] in
  let trace :=
    if (i + batch_size <? len restaurants)%Z
    then trace ++ [Slept 0.5%float] else trace in
  Returned (mkPushState results trace (S (requests st))))).

Fixpoint push_loop (netloc_of : string -> outcome string)
    (provider : crm_provider)
    (restaurants : list Restaurant) (batch_size : Z)
    (st : PushState) (indices : list Z) : outcome PushState :=
  match indices with
  | [] => Returned st
  | i :: rest =>
      bind (push_batch netloc_of provider restaurants batch_size st i) (fun st' =>
      push_loop netloc_of provider restaurants batch_size st' rest)
  end.

(** [push_restaurants]: the summary it returns, with the events it
    caused.  When the payload of a batch cannot be built the exception
    leaves the loop; the requests of the batches before it have been made
    by then, and of such a run only the exception is kept. *)
Definition push_restaurants (netloc_of : string -> outcome string)
    (provider : crm_provider) (restaurants : list Restaurant) (batch_size : Z)
    : outcome (Summary * list Event) :=
  let results := mkSummary 0 0 [] in
  bind (range (len restaurants) batch_size) (fun indices =>
  bind (push_loop netloc_of provider restaurants batch_size
          (mkPushState results [] 0) indices) (fun st =>
  Returned (HubSpot.results st, trace st))).

End HubSpot.

(* ================================================================== *)
(** ** exporters/csv_exporter.py *)
(* ================================================================== *)

Module CsvExporter.

Definition CSV_COLUMNS : list string :=
  [ "venue_name"; "website"; "phone_number"; "email_address";
    "venue_address"; "city"; "state"; "zip_code"; "country";
    "venue_owner"; "cuisine_type"; "rating"; "price_level";
    "facebook"; "instagram"; "twitter"; "linkedin"; "tiktok";
    "yelp_url"; "hours_of_operation" ].

Definition HUBSPOT_HEADER_MAP : list (string * string) :=
  [ ("venue_name", "Company name");
    ("website", "Company domain name");
    ("phone_number", "Phone number");
    ("email_address", "Email");
    ("venue_address", "Street address");
    ("city", "City");
    ("state", "State/Region");
    ("zip_code", "Postal code");
    ("country", "Country/Region");
    ("venue_owner", "Owner name");
    ("cuisine_type", "Industry");
    ("rating", "Rating");
    ("price_level", "Price level");
    ("facebook", "Facebook page");
    ("instagram", "Instagram");
    ("twitter", "Twitter handle");
    ("linkedin", "LinkedIn page");
    ("tiktok", "TikTok");
    ("yelp_url", "Yelp URL");
    ("hours_of_operation", "Hours of operation") ].

(** The entry of a dict under a key, if any. *)
Fixpoint lookup {V} (d : list (string * V)) (key : string) : option V :=
  match d with
  | [] => None
  | (k, v) :: rest => if String.eqb k key then Some v else lookup rest key
  end.

(** [[f(x) for x in l]] where [f] may raise. *)
Fixpoint comprehension {A B} (f : A -> outcome B) (l : list A) : outcome (list B) :=
  match l with
  | [] => Returned []
  | x :: rest =>
      bind (f x) (fun y =>
      bind (comprehension f rest) (fun ys =>
      Returned (y :: ys)))
  end.

Definition headers (hubspot_format : bool) : outcome (list string) :=
  if hubspot_format
  then comprehension (fun c => subscript (lookup HUBSPOT_HEADER_MAP c) c) CSV_COLUMNS
  else Returned CSV_COLUMNS.

(** The row written for the dict [data] of one record:
    [row = [data.get(col, "") for col in CSV_COLUMNS]], then
    [row = ["" if v is None else v for v in row]]. *)
Definition row_of_dict (data : list (string * Value)) : list Value :=
  let row := map (fun col => get_default (lookup data col) (VStr "")) CSV_COLUMNS in
  map (fun v => match v with VNone => VStr "" | _ => v end) row.

Definition row_of (r : Restaurant) : list Value := row_of_dict (to_dict r).

(** [export_to_csv]: the rows handed to [writer.writerow], in order. *)
Definition export_to_csv (restaurants : list Restaurant) (hubspot_format : bool)
    : outcome (list (list Value)) :=
  bind (headers hubspot_format) (fun headers =>
  Returned (map VStr headers :: map row_of restaurants)).

End CsvExporter.

(* ================================================================== *)
(** ** The [re] library, as the scrapers use it *)
(* ================================================================== *)

Module Re.

(** The constructs of the patterns of the package.  A pattern compiled
    with [re.IGNORECASE] is written with the flag applied: a literal letter
    as the class of its two cases, [[A-Z]] and [[a-z]] as the class of the
    ASCII letters. *)
Inductive regex : Type :=
| Chr (c : ascii)                        (* a literal character *)
| Cls (p : ascii -> bool)                (* a character class *)
| Cat (r1 r2 : regex)                    (* r1 r2 *)
| Alt (r1 r2 : regex)                    (* r1|r2 *)
| Opt (r : regex)                        (* r? *)
| Rep (p : ascii -> bool) (least : nat)  (* [class]{least,} *)
| Plus (r : regex).                      (* (?:r)+ *)

(** [[class]{least,}], greedy: the longest run first, then one character
    less at a time, down to [least]. *)
Fixpoint rep {A} (p : ascii -> bool) (least : nat) (s : string)
    (k : string -> option A) : option A :=
  let stop := if least =? 0 then k s else None in
  match s with
  | EmptyString => stop
  | String c s' =>
      if p c then
        match rep p (Nat.pred least) s' k with
        | Some a => Some a
        | None => stop
        end
      else stop
  end.

(** The backtracking matcher: [run r s k] matches [r] at the start of [s]
    and hands the rest of the text to [k]; when [k] fails, the next way of
    matching [r] is tried, in the order of the [re] module (greedy
    quantifiers, left alternative first).  Every turn of [(?:r)+] consumes
    a character, so its turns are at most the length of the text. *)
Fixpoint run {A} (r : regex) (s : string) (k : string -> option A) : option A :=
  match r with
  | Chr c =>
      match s with
      | String x s' => if Ascii.eqb x c then k s' else None
      | EmptyString => None
      end
  | Cls p =>
      match s with
      | String x s' => if p x then k s' else None
      | EmptyString => None
      end
  | Cat r1 r2 => run r1 s (fun s' => run r2 s' k)
  | Alt r1 r2 =>
      match run r1 s k with
      | Some a => Some a
      | None => run r2 s k
      end
  | Opt r' =>
      match run r' s k with
      | Some a => Some a
      | None => k s
      end
  | Rep p least => rep p least s k
  | Plus r' =>
      (fix turns (n : nat) (s : string) : option A :=
         match n with
         | O => None
         | S n' =>
             run r' s (fun s' =>
               match turns n' s' with
               | Some a => Some a
               | None => k s'
               end)
         end) (S (String.length s)) s
  end.

(** [pattern.match(s)]: the length of the match at the start of [s]. *)
Definition match_at (r : regex) (s : string) : option nat :=
  run r s (fun rest => Some (String.length s - String.length rest)).

(** [pattern.search(s)]: the start and the length of the leftmost match. *)
Fixpoint search_from (r : regex) (pos : nat) (s : string) : option (nat * nat) :=
  match match_at r s with
  | Some len => Some (pos, len)
  | None =>
      match s with
      | EmptyString => None
      | String _ s' => search_from r (S pos) s'
      end
  end.

Definition search (r : regex) (s : string) : option (nat * nat) :=
  search_from r 0 s.

(** [pattern.search(s).group(0)]. *)
Definition search_group0 (r : regex) (s : string) : option string :=
  match search r s with
  | Some (start, len) => Some (String.substring start len s)
  | None => None
  end.

(** A pattern [before(group)]: the match of [before] and then of [group],
    as the lengths of the two parts. *)
Definition match_group_at (before group : regex) (s : string) : option (nat * nat) :=
  run before s (fun s1 =>
  run group s1 (fun s2 =>
  Some (String.length s - String.length s1,
        String.length s1 - String.length s2))).

Fixpoint search_group_from (before group : regex) (pos : nat) (s : string)
    : option (nat * nat) :=
  match match_group_at before group s with
  | Some (skip, len) => Some (pos + skip, len)
  | None =>
      match s with
      | EmptyString => None
      | String _ s' => search_group_from before group (S pos) s'
      end
  end.

(** [pattern.search(s).group(1)] for a pattern [before(group)]. *)
Definition search_group1 (before group : regex) (s : string) : option string :=
  match search_group_from before group 0 s with
  | Some (start, len) => Some (String.substring start len s)
  | None => None
  end.

(** [pattern.findall(s)] for a pattern without group whose matches are
    not empty: the matches from left to right, each search starting where
    the match before ended. *)
Fixpoint findall_from (r : regex) (skip : nat) (s : string) : list string :=
  match s with
  | EmptyString => []
  | String _ s' =>
      match skip with
      | S k => findall_from r k s'
      | O =>
          match match_at r s with
          | Some len => String.substring 0 len s :: findall_from r (len - 1) s'
          | None => findall_from r 0 s'
          end
      end
  end.

Definition findall (r : regex) (s : string) : list string := findall_from r 0 s.

(** A literal text, and a literal text under [re.IGNORECASE]. *)
Fixpoint lit (text : string) : regex :=
  match text with
  | EmptyString => Opt (Cls (fun _ => false))
  | String c EmptyString => Chr c
  | String c rest => Cat (Chr c) (lit rest)
  end.

Definition ichr (c : ascii) : regex :=
  Cls (fun x => Ascii.eqb (lower_char x) (lower_char c)).

Fixpoint ilit (text : string) : regex :=
  match text with
  | EmptyString => Opt (Cls (fun _ => false))
  | String c EmptyString => ichr c
  | String c rest => Cat (ichr c) (ilit rest)
  end.

(** [\d], [\s] and the letters. *)
Definition digit : ascii -> bool := WebsiteScraper.is_digit.
Definition space : ascii -> bool := isspace.
Definition letter : ascii -> bool := WebsiteScraper.is_alpha.

(** [r{3}] and [r{4}] on a class. *)
Definition three (p : ascii -> bool) : regex := Cat (Cls p) (Cat (Cls p) (Cls p)).
Definition four (p : ascii -> bool) : regex := Cat (Cls p) (three p).

(** [s.rstrip(chars)]. *)
Fixpoint rstrip_chars (s chars : string) : string :=
  match s with
  | EmptyString => EmptyString
  | String c s' =>
      match rstrip_chars s' chars with
      | EmptyString =>
          if WebsiteScraper.char_in c chars then EmptyString
          else String c EmptyString
      | t => String c t
      end
  end.

End Re.

(* ================================================================== *)
(** ** scrapers/website_scraper.py, the rest of the crawler *)
(* ================================================================== *)

Module WebsiteCrawler.

Import Re.

(** [[-.\s]]. *)
Definition separator (c : ascii) : bool :=
  WebsiteScraper.char_in c "-." || space c.

(** [PHONE_RE],
    [(?:\+?1[-.\s]?)?\(?\d{3}\)?[-.\s]?\d{3}[-.\s]?\d{4}]. *)
Definition PHONE_RE : regex :=
  Cat (Opt (Cat (Opt (Chr "+")) (Cat (Chr "1") (Opt (Cls separator)))))
  (Cat (Opt (Chr "("))
  (Cat (three digit)
  (Cat (Opt (Chr ")"))
  (Cat (Opt (Cls separator))
  (Cat (three digit)
  (Cat (Opt (Cls separator))
       (four digit))))))).

(** The double quote. *)
Definition dquote : ascii := ascii_of_nat 34.

(** The class of [SOCIAL_PATTERNS]: any character but whitespace, the
    two quotes and the angle brackets. *)
Definition url_char (c : ascii) : bool :=
  negb (space c || WebsiteScraper.char_in c (String dquote "'<>")).

(** [https?://(?:www\.)?<site>[class]+] under [re.I]; [site] is the
    part of the pattern between the optional [www.] and the class. *)
Definition social_url (site : regex) : regex :=
  Cat (ilit "http")
  (Cat (Opt (ichr "s"))
  (Cat (lit "://")
  (Cat (Opt (ilit "www."))
  (Cat site
       (Rep url_char 1))))).

(** [SOCIAL_PATTERNS], in the order of the dict. *)
Definition SOCIAL_PATTERNS : list (Field * regex) :=
  [ (F_facebook, social_url (ilit "facebook.com/"));
    (F_instagram, social_url (ilit "instagram.com/"));
    (F_twitter, social_url (Cat (Alt (ilit "twitter") (ichr "x")) (ilit ".com/")));
    (F_linkedin, social_url (ilit "linkedin.com/"));
    (F_tiktok, social_url (ilit "tiktok.com/@"));
    (F_yelp_url, social_url (ilit "yelp.com/biz/")) ].

Definition OWNER_KEYWORDS : list string :=
  [ "owner"; "founder"; "proprietor"; "chef-owner"; "chef/owner";
    "managing partner"; "general manager" ].

(** The pattern of [_extract_owner] for one keyword, under
    [re.IGNORECASE]: [{keyword}\s*[:\-]?\s*] before the group
    [([A-Z][a-z]+(?:\s+[A-Z][a-z]+)+)].  The source also lists two dashes
    in the class that lie outside the code points of the string model. *)
Definition owner_before (keyword : string) : regex :=
  Cat (ilit keyword)
  (Cat (Rep space 0)
  (Cat (Opt (Cls (fun c => WebsiteScraper.char_in c ":-")))
       (Rep space 0))).

Definition owner_word : regex := Cat (Cls letter) (Rep letter 1).

Definition owner_name : regex :=
  Cat owner_word (Plus (Cat (Rep space 1) owner_word)).

(** [_extract_phone]. *)
Definition _extract_phone (text : string) : string :=
  match findall PHONE_RE text with
  | phone :: _ => strip phone
  | [] => ""
  end.

(** The characters [rstrip] takes off the end of a social URL: the two
    quotes, the closing angle bracket, the slash, the closing parenthesis,
    the comma and the period. *)
Definition trailing_noise : string := String dquote "'>/),.".

(** One turn of the loop of [_extract_socials]. *)
Definition extract_social (html : string) (restaurant : Restaurant)
    (entry : Field * regex) : Restaurant :=
  let (field_name, pattern) := entry in
  if truthy (getattr restaurant field_name) then restaurant      (* continue *)
  else
    match search_group0 pattern html with
    | Some url => setattr restaurant field_name (VStr (rstrip_chars url trailing_noise))
    | None => restaurant
    end.

Definition _extract_socials (html : string) (restaurant : Restaurant) : Restaurant :=
  fold_left (extract_social html) SOCIAL_PATTERNS restaurant.

(** The [for keyword in OWNER_KEYWORDS] loop of [_extract_owner]. *)
Fixpoint first_owner (text : string) (keywords : list string) : option string :=
  match keywords with
  | [] => None
  | keyword :: rest =>
      match search_group1 (owner_before keyword) owner_name text with
      | Some name => Some (strip name)
      | None => first_owner text rest
      end
  end.

Definition _extract_owner (text : string) (restaurant : Restaurant) : Restaurant :=
  if truthy (venue_owner restaurant) then restaurant
  else
    match first_owner text OWNER_KEYWORDS with
    | Some name => set_venue_owner restaurant name
    | None => restaurant
    end.

(** The body of a page reply: the [content-type] header when there is
    one, and [resp.text]. *)
Definition HtmlBody : Type := (option string * string)%type.

(** [_get]. *)
Definition _get (reply : http_reply HtmlBody) : outcome (option string) :=
  try_except
    (bind (session_get reply) (fun resp =>
     if (fst resp =? 200)%Z
        && contains "text/html" (get_default (fst (snd resp)) "")
     then Returned (Some (snd (snd resp)))
     else Returned None))
    is_RequestException
    (fun exc => Returned None).

Definition SUBPAGES : list string :=
  ["contact"; "about"; "about-us"; "contact-us"; "our-story"; "team"].

(** The [for slug in SUBPAGES] loop of [_fetch_pages].  [urljoin] is
    [urllib.parse.urljoin], which raises [ValueError] on some malformed
    base URLs and is called outside any [try]; [web] is the reply of the
    site to a URL. *)
Fixpoint fetch_subpages (urljoin : string -> string -> outcome string)
    (web : string -> http_reply HtmlBody) (base_url : string)
    (pages : list string) (slugs : list string) : outcome (list string) :=
  match slugs with
  | [] => Returned pages
  | slug :: rest =>
      bind (urljoin (rstrip_chars base_url "/" ++ "/")%string slug) (fun url =>
      bind (_get (web url)) (fun sub_html =>
      fetch_subpages urljoin web base_url
        (if truthy sub_html then pages ++ [get_default sub_html ""] else pages)
        rest))
  end.

Definition _fetch_pages (urljoin : string -> string -> outcome string)
    (web : string -> http_reply HtmlBody) (base_url : string)
    : outcome (list string) :=
  bind (_get (web base_url)) (fun html =>
  fetch_subpages urljoin web base_url
    (if truthy html then [get_default html ""] else [])
    SUBPAGES).

(** What [bs4] and [urllib.parse] read in markup and URLs: the visible
    text of a page, the targets of the anchors of a markup, the [netloc]
    of a URL, and [urljoin].  [bs4] reads any markup; [urlparse] and
    [urljoin] raise [ValueError] on some malformed URLs. *)
Record Parsers : Type := mkParsers {
  get_text : string -> string;
  anchor_hrefs : string -> list string;
  netloc_of : string -> outcome string;
  urljoin : string -> string -> outcome string
}.

(** The line feed. *)
Definition newline : string := String (ascii_of_nat 10) EmptyString.

(** The two accumulators of [enrich_restaurant]. *)
Definition accumulate (parsers : Parsers) (pages_html : list string)
    : string * string :=
  fold_left
    (fun (acc : string * string) (html : string) =>
       let (all_text, all_html) := acc in
       ((all_text ++ get_text parsers html ++ newline)%string,
        (all_html ++ html ++ newline)%string))
    pages_html ("", "").

(** [WebsiteScraper.enrich_restaurant]. *)
Definition enrich_restaurant (parsers : Parsers)
    (web : string -> http_reply HtmlBody) (restaurant : Restaurant)
    : outcome Restaurant :=
  if negb (truthy (website restaurant)) then Returned restaurant
  else
    let base_url := website restaurant in
    let base_url :=
      if negb (startswith base_url "http") then ("https://" ++ base_url)%string
      else base_url in
    bind (_fetch_pages (urljoin parsers) web base_url) (fun pages_html =>
    if negb (truthy pages_html) then Returned restaurant
    else
      let (all_text, all_html) := accumulate parsers pages_html in
      bind
        (if negb (truthy (email_address restaurant))
         then
           (* [_extract_email] begins with [urlparse(base_url)] *)
           bind (netloc_of parsers base_url) (fun netloc =>
           Returned
             (WebsiteScraper.enrich_email restaurant all_text all_html
                netloc (anchor_hrefs parsers all_html)))
         else Returned restaurant) (fun restaurant =>
      let restaurant :=
        if negb (truthy (phone_number restaurant))
        then set_phone_number restaurant (_extract_phone all_text)
        else restaurant in
      let restaurant := _extract_socials all_html restaurant in
      let restaurant := _extract_owner all_text restaurant in
      Returned restaurant)).

End WebsiteCrawler.

(* ================================================================== *)
(** ** models.py and scrapers/seed_data.py, the rest *)
(* ================================================================== *)

Module SeedData.

(** [Restaurant.full_address]. *)
Definition full_address (r : Restaurant) : string :=
  let parts := [venue_address r; city r; state r; zip_code r; country r] in
  join ", " (filter truthy parts).

(** A dict with text keys, as [json.load] returns one and a call with
    keyword arguments takes one; a Python dict holds a key once. *)
Definition Dict : Type := list (string * Value).

Definition field_names : list string := map field_name dataclass_fields.

(** [Restaurant] called with keyword arguments, the [__init__] the
    dataclass generates: a
    keyword that is not a field raises [TypeError], a field without a
    keyword takes its default.  A value of another kind than the field is
    annotated with is stored as it is by Python; it has no place in the
    typed record and is passed over here, so that what is proved of this
    function is stated for dicts of which every value is of the kind of
    its field. *)
Definition Restaurant_init (kwargs : Dict) : outcome Restaurant :=
  match find (fun kv => negb (str_in (fst kv) field_names)) kwargs with
  | Some (k, _) =>
      Raised (OtherException
                ("TypeError: unexpected keyword argument " ++ k)%string)
  | None =>
      Returned
        (fold_left
           (fun r f =>
              match CsvExporter.lookup kwargs (field_name f) with
              | Some v => setattr r f v
              | None => r
              end)
           dataclass_fields empty_restaurant)
  end.

(** [load_from_dicts]. *)
Definition load_from_dict (rec : Dict) : outcome Restaurant :=
  Restaurant_init (filter (fun kv => str_in (fst kv) field_names) rec).

Definition load_from_dicts (records : list Dict) : outcome (list Restaurant) :=
  CsvExporter.comprehension load_from_dict records.

(** The [records] that [save_to_json] writes. *)
Definition saved_records (restaurants : list Restaurant) : list Dict :=
  map to_dict restaurants.

End SeedData.

(* ================================================================== *)
(** ** scrapers/google_places.py, the entry points of the search *)
(* ================================================================== *)

Module GoogleSearch.

(** [s.split(sep)] for a separator of one character. *)
Fixpoint split (s : string) (sep : ascii) : list string :=
  match s with
  | EmptyString => [EmptyString]
  | String c s' =>
      if Ascii.eqb c sep then EmptyString :: split s' sep
      else match split s' sep with
           | part :: parts => String c part :: parts
           | [] => [String c EmptyString]
           end
  end.

(** [_is_coordinates].  [float_of] is [float]: [None] when it raises
    [ValueError]. *)
Definition _is_coordinates (float_of : string -> option float)
    (location : string) : bool :=
  let parts := split location "," in
  if negb (List.length parts =? 2) then false
  else
    match float_of (strip (nth 0 parts "")) with
    | None => false
    | Some _ =>
        match float_of (strip (nth 1 parts "")) with
        | None => false
        | Some _ => true
        end
    end.

Definition NEARBY_SEARCH_URL : string :=
  "https://maps.googleapis.com/maps/api/place/nearbysearch/json".
Definition TEXT_SEARCH_URL : string :=
  "https://maps.googleapis.com/maps/api/place/textsearch/json".

(** The query parameters of a request, without the page token that
    [_paginate_search] adds. *)
Definition Params : Type := list (string * string).

(** The Places API: the provider behind a URL and its parameters. *)
Definition places_api : Type := string -> Params -> GooglePlaces.search_provider.

(** The [search_query] of [_text_search]. *)
Definition search_query (query : string) : string :=
  if negb (contains "restaurant" (lower query))
  then ("restaurants in " ++ query)%string
  else query.

Definition _text_search (fuel : nat) (api : places_api) (api_key query : string)
    (max_results : Z) : option (outcome (list Restaurant)) :=
  let params :=
    [ ("query", search_query query); ("type", "restaurant"); ("key", api_key) ] in
  GooglePlaces._paginate_search fuel (api TEXT_SEARCH_URL params) max_results.

Definition _nearby_search (fuel : nat) (api : places_api) (api_key coords : string)
    (radius max_results : Z) : option (outcome (list Restaurant)) :=
  let params :=
    [ ("location", coords); ("radius", str_of_int radius);
      ("type", "restaurant"); ("key", api_key) ] in
  GooglePlaces._paginate_search fuel (api NEARBY_SEARCH_URL params) max_results.

(** [GooglePlacesScraper.search_restaurants]. *)
Definition search_restaurants (fuel : nat) (float_of : string -> option float)
    (api : places_api) (api_key location : string) (radius_meters max_results : Z)
    : option (outcome (list Restaurant)) :=
  if _is_coordinates float_of location
  then _nearby_search fuel api api_key location radius_meters max_results
  else _text_search fuel api api_key location max_results.

End GoogleSearch.

(* ================================================================== *)
(** ** scrapers/yelp_scraper.py, the pages *)
(* ================================================================== *)

Module YelpPages.

Import Re.

(** The pattern [^/biz/[^?]+] that selects the business links; a search
    for a pattern that begins with [^] is a match at the start. *)
Definition biz_href : regex :=
  Cat (lit "/biz/") (Rep (fun c => negb (Ascii.eqb c "?")) 1).

Definition is_biz_link (link : WebSearch.Anchor) : bool :=
  match match_at biz_href (WebSearch.a_href link) with
  | Some _ => true
  | None => false
  end.

(** The [for link in biz_links] loop of [_parse_search_results]. *)
Fixpoint parse_links (links : list WebSearch.Anchor) (seen_urls : list string)
    (restaurants : list Restaurant) : list Restaurant :=
  match links with
  | [] => restaurants
  | link :: rest =>
      let href := WebSearch.a_href link in
      let biz_path := split_head href "?" in
      if str_in biz_path seen_urls then parse_links rest seen_urls restaurants
      else
        let name := WebSearch.a_text link in
        if negb (truthy name) || (String.length name <? 2)
           || (100 <? String.length name)
        then parse_links rest seen_urls restaurants
        else
          let yelp_url := ("https://www.yelp.com" ++ biz_path)%string in
          parse_links rest (biz_path :: seen_urls)
            (restaurants ++
             [set_source
                (set_yelp_url (set_venue_name empty_restaurant name) yelp_url)
                "yelp"])
  end.

(** [_parse_search_results]; [anchors] are the anchors of the page that
    have a target, in document order. *)
Definition _parse_search_results (anchors : list WebSearch.Anchor)
    : list Restaurant :=
  parse_links (filter is_biz_link anchors) [] [].

(** What [_extract_details] finds in a business page: the text of the
    first paragraph whose string matches the phone pattern, the text of
    the address element, the first anchor whose target mentions
    [biz_redir], and the texts of the rating and of the price spans. *)
Record BusinessPage : Type := mkBusinessPage {
  phone_el : option string;
  address_el : option string;
  biz_website : option WebSearch.Anchor;
  rating_el : option string;
  price_el : option string
}.

(** [\(?\d{3}\)?[-.\s]?\d{3}[-.\s]?\d{4}]. *)
Definition phone_pattern : regex :=
  Cat (Opt (Chr "("))
  (Cat (three digit)
  (Cat (Opt (Chr ")"))
  (Cat (Opt (Cls WebsiteCrawler.separator))
  (Cat (three digit)
  (Cat (Opt (Cls WebsiteCrawler.separator))
       (four digit)))))).

(** [url=([^&]+)]: the text before the group, and the group. *)
Definition url_before : regex := lit "url=".
Definition url_group : regex := Rep (fun c => negb (Ascii.eqb c "&")) 1.

(** [_extract_details].  [unquote] is [urllib.parse.unquote] and
    [float_of] is [float], [None] when it raises [ValueError]. *)
Definition _extract_details (unquote : string -> string)
    (float_of : string -> option float) (soup : BusinessPage)
    (restaurant : Restaurant) : Restaurant :=
  (* Phone number *)
  let restaurant :=
    if negb (truthy (phone_number restaurant)) then
      match phone_el soup with
      | Some text =>
          match search_group0 phone_pattern text with
          | Some phone => set_phone_number restaurant phone
          | None => restaurant
          end
      | None => restaurant
      end
    else restaurant in
  (* Address *)
  let restaurant :=
    if negb (truthy (venue_address restaurant)) then
      match address_el soup with
      | Some text => set_venue_address restaurant text
      | None => restaurant
      end
    else restaurant in
  (* Website link *)
  let restaurant :=
    if negb (truthy (website restaurant)) then
      match biz_website soup with
      | Some link =>
          let redirect_url := WebSearch.a_href link in
          match search_group1 url_before url_group redirect_url with
          | Some url => set_website restaurant (unquote url)
          | None =>
              let link_text := WebSearch.a_text link in
              if contains "." link_text && negb (contains " " link_text)
              then set_website restaurant link_text
              else restaurant
          end
      | None => restaurant
      end
    else restaurant in
  (* Rating *)
  let restaurant :=
    match rating restaurant with
    | None =>
        match rating_el soup with
        | Some text =>
            match float_of text with
            | Some x => set_rating restaurant (Some x)
            | None => restaurant                           (* pass *)
            end
        | None => restaurant
        end
    | Some _ => restaurant
    end in
  (* Price level *)
  if negb (truthy (price_level restaurant)) then
    match price_el soup with
    | Some text => set_price_level restaurant text
    | None => restaurant
    end
  else restaurant.

(** [YelpScraper.enrich_restaurant]; [fetch] is the reply to the request
    for a business page. *)
Definition enrich_restaurant (unquote : string -> string)
    (float_of : string -> option float)
    (fetch : string -> http_reply BusinessPage) (restaurant : Restaurant)
    : outcome Restaurant :=
  if negb (truthy (yelp_url restaurant)) then Returned restaurant
  else
    match
      try_except
        (bind (session_get (fetch (yelp_url restaurant))) (fun resp =>
         bind (raise_for_status (fst resp)) (fun _ =>
         Returned (Some (snd resp)))))
        is_RequestException
        (fun exc => Returned None)
    with
    | Raised e => Raised e
    | Returned None => Returned restaurant
    | Returned (Some soup) =>
        Returned (_extract_details unquote float_of soup restaurant)
    end.

End YelpPages.

(* ================================================================== *)
(** ** cli.py, the results table *)
(* ================================================================== *)

Module Console.

(** [x or "-"]. *)
Definition or_dash (x : string) : string := if truthy x then x else "-".

(** The row [_display_results] adds for the [i]-th record; [str_of_float]
    is [str] on a float. *)
Definition display_row (str_of_float : float -> string) (i : Z) (r : Restaurant)
    : list string :=
  (* Truncate website for display *)
  let website := website r in
  let website :=
    if truthy website && (25 <? String.length website)
    then (slice_to website 22 ++ "...")%string
    else website in
  [ str_of_int i;
    venue_name r;
    or_dash (phone_number r);
    or_dash (email_address r);
    or_dash website;
    or_dash (venue_owner r);
    match rating r with
    | Some x => if truthy x then str_of_float x else "-"
    | None => "-"
    end ].

End Console.

(* ================================================================== *)
(** ** Specification-side vocabulary *)
(* ================================================================== *)

(** *** The record model *)

(** Emptiness as the record model words it: an attribute with no value, the
    empty text or an absent rating.  A rating of zero is a value. *)
Definition has_no_value (v : Value) : bool :=
  match v with
  | VNone => true
  | VStr s => String.eqb s ""
  | VFloat _ => false
  end.

(** What one field holds after [merge]. *)
Definition merged_value (self other : Restaurant) (f : Field) : Value :=
  if truthy (getattr other f) && negb (truthy (getattr self f))
  then getattr other f
  else getattr self f.

(** Every attribute that is filled in [r] is filled in [v]. *)
Definition covers (v r : Restaurant) : Prop :=
  forall f, truthy (getattr r f) = true -> truthy (getattr v f) = true.

(** A record with a name and nothing else. *)
Definition named (name : string) : Restaurant :=
  set_venue_name empty_restaurant name.

(** *** Aggregation *)

(** The distinct elements of a list of keys, in order of first appearance. *)
Fixpoint first_seen (keys : list string) : list string :=
  match keys with
  | [] => []
  | k :: rest => k :: filter (fun k' => negb (String.eqb k' k)) (first_seen rest)
  end.

(** The records of a list that carry the identity key [k], in input order. *)
Definition same_key (k : string) (rs : list Restaurant) : list Restaurant :=
  filter (fun r => String.eqb (identity_key r) k) rs.

(** The first record of a group, gap-fill-merged with each later record of
    the group in order. *)
Definition merged_group (group : list Restaurant) : Restaurant :=
  fold_left merge (tl group) (hd empty_restaurant group).

(** The dict the loop has built, in terms of the input alone. *)
Definition grouped (rs : list Restaurant) (keys : list string) : seen_dict :=
  map (fun k => (k, merged_group (same_key k rs))) keys.


(** The dict of records that a dict of references stands for. *)
Definition image (store : Store) (seen : seen_refs) : seen_dict :=
  map (fun kq => (fst kq, deref store (snd kq))) seen.

(** What the loop over references maintains.  [store0] is the store at
    the call. *)
Record refs_invariant (store0 store : Store) (seen : seen_refs) : Prop := {
  inv_length : List.length store = List.length store0;
  inv_keys : NoDup (map fst seen);
  inv_refs : NoDup (map snd seen);
  inv_unstored :
    forall p, ~ In p (map snd seen) -> deref store p = deref store0 p;
  inv_stored :
    forall k q, In (k, q) seen ->
      q < List.length store /\
      identity_key (deref store q) = k /\
      identity_key (deref store0 q) = k /\
      covers (deref store q) (deref store0 q)
}.

(** *** Google Places details *)

(** The price tier table of the specification. *)
Definition price_symbol (price : Z) : string :=
  if (price =? 0)%Z then "Free"
  else if (price =? 1)%Z then "$"
  else if (price =? 2)%Z then "$$"
  else if (price =? 3)%Z then "$$$"
  else if (price =? 4)%Z then "$$$$"
  else "".

(** The type taxonomy of address components: a component is decomposed
    into the city when it is a locality, else into the region when it is a
    level-1 administrative area, else into the postal code, else into the
    country. *)
Definition component_field (comp : GooglePlaces.AddressComponent) : option Field :=
  let types := get_default (GooglePlaces.c_types comp) [] in
  if str_in "locality" types then Some F_city
  else if str_in "administrative_area_level_1" types then Some F_state
  else if str_in "postal_code" types then Some F_zip_code
  else if str_in "country" types then Some F_country
  else None.

Definition decomposes_into (f : Field) (comp : GooglePlaces.AddressComponent) : bool :=
  match component_field comp with
  | Some g => if Field_eq_dec f g then true else false
  | None => false
  end.

(** The attributes that address components are decomposed into. *)
Definition is_address_field (f : Field) : bool :=
  match f with
  | F_city | F_state | F_zip_code | F_country => true
  | _ => false
  end.

(** The name a component gives to its attribute: the short name for the
    region, the long name for the others. *)
Definition component_name (f : Field) (comp : GooglePlaces.AddressComponent) : string :=
  match f with
  | F_state => get_default (GooglePlaces.c_short_name comp) ""
  | _ => get_default (GooglePlaces.c_long_name comp) ""
  end.

(** The last component of a response that is decomposed into [f]. *)
Definition last_component (f : Field) (components : list GooglePlaces.AddressComponent)
    : option GooglePlaces.AddressComponent :=
  find (decomposes_into f) (rev components).

(** The key a component lacks among those read from it: the short name
    for a region, the long name for a city, a postal code or a country; a
    component of another kind is not read. *)
Definition missing_key (comp : GooglePlaces.AddressComponent) : option string :=
  match component_field comp with
  | Some F_state =>
      match GooglePlaces.c_short_name comp with
      | Some _ => None
      | None => Some "short_name"
      end
  | Some _ =>
      match GooglePlaces.c_long_name comp with
      | Some _ => None
      | None => Some "long_name"
      end
  | None => None
  end.

(** The key the first component that lacks one lacks. *)
Fixpoint first_missing_key (components : list GooglePlaces.AddressComponent)
    : option string :=
  match components with
  | [] => None
  | comp :: rest =>
      match missing_key comp with
      | Some key => Some key
      | None => first_missing_key rest
      end
  end.

(** What each attribute holds after a details response [d] with status OK
    has been applied to [r]. *)
Definition detailed_value (r : Restaurant) (d : GooglePlaces.PlaceDetails)
    (f : Field) : Value :=
  let components := get_default (GooglePlaces.d_address_components d) [] in
  let address_part (f : Field) (old : string) : Value :=
    match last_component f components with
    | Some comp => VStr (component_name f comp)
    | None => VStr old
    end in
  match f with
  | F_phone_number =>
      VStr (get_default (GooglePlaces.d_formatted_phone_number d) (phone_number r))
  | F_website => VStr (get_default (GooglePlaces.d_website d) (website r))
  | F_venue_address =>
      VStr (get_default (GooglePlaces.d_formatted_address d) (venue_address r))
  | F_price_level =>
      match GooglePlaces.d_price_level d with
      | Some price => VStr (price_symbol price)
      | None => VStr (price_level r)
      end
  | F_rating =>
      match GooglePlaces.d_rating d with
      | Some x => VFloat x
      | None => value_of_rating (rating r)
      end
  | F_hours_of_operation =>
      match GooglePlaces.d_opening_hours d with
      | Some (Some (day :: days)) => VStr (join " | " (day :: days))
      | _ => VStr (hours_of_operation r)
      end
  | F_city => address_part F_city (city r)
  | F_state => address_part F_state (state r)
  | F_zip_code => address_part F_zip_code (zip_code r)
  | F_country => address_part F_country (country r)
  | _ => getattr r f
  end.

Definition sample_record : Restaurant :=
  set_phone_number
    (set_venue_address
       (set_google_place_id (named "Cafe A") "place-1") "12 Main St")
    "555-0000".

Definition sample_details : GooglePlaces.PlaceDetails :=
  GooglePlaces.mkPlaceDetails
    (Some "555-1234")
    (Some "https://cafe-a.example")
    (Some "12 Main St, Springfield, IL 62701, USA")
    (Some 2%Z)
    (Some 4.5%float)
    (Some (Some ["Monday: 9-5"; "Tuesday: 9-5"]))
    (Some [ GooglePlaces.mkAddressComponent
              (Some ["locality"; "political"]) (Some "Springfield") (Some "Springfield");
            GooglePlaces.mkAddressComponent
              (Some ["administrative_area_level_1"]) (Some "Illinois") (Some "IL");
            GooglePlaces.mkAddressComponent
              (Some ["postal_code"]) (Some "62701") (Some "62701");
            GooglePlaces.mkAddressComponent
              (Some ["country"]) (Some "United States") (Some "US") ]).

Definition sample_details_provider (place_id : string)
    : http_reply (option GooglePlaces.DetailsData) :=
  Responded 200 (Some (GooglePlaces.mkDetailsData (Some "OK") (Some sample_details))).

(** *** Adapters: searches and their providers *)

(** What one Yelp page request yields: its records, or nothing when the
    request failed in transport, came back with an error status, or the
    page had no business link. *)
Definition page_data (reply : http_reply (list Restaurant)) : option (list Restaurant) :=
  match reply with
  | ConnectionFailed _ => None
  | Responded status_code results =>
      if ((400 <=? status_code) && (status_code <? 600))%Z then None
      else match results with
           | [] => None
           | _ :: _ => Some results
           end
  end.

(** The pages, from offset [start] on and at most [limit] of them, that
    come before the first request that yields nothing. *)
Fixpoint pages_before_failure (provider : Yelp.search_provider) (start : Z)
    (limit : nat) : list (list Restaurant) :=
  match limit with
  | O => []
  | S limit' =>
      match page_data (provider start) with
      | Some page => page :: pages_before_failure provider (start + 10)%Z limit'
      | None => []
      end
  end.

(** The same replies through the Yelp adapter. *)
Definition yelp_failing_second_page : Yelp.search_provider :=
  fun start =>
    if (start =? 0)%Z then Responded 200 [named "Cafe A"; named "Cafe B"]
    else ConnectionFailed "Read timed out".

Definition sample_place : GooglePlaces.Place :=
  GooglePlaces.mkPlace (Some "Cafe A") (Some "12 Main St") None
    (Some 4.5%float) (Some 2%Z) (Some "place-1").

(** A Google provider that answers the first request with one place and a
    continuation token, and whose connection fails on every later one. *)
Definition failing_second_page : GooglePlaces.search_provider :=
  fun n pagetoken =>
    match n with
    | O => Responded 200
             (Some (GooglePlaces.mkSearchData (Some "OK") (Some [sample_place])
                      (Some "token")))
    | S _ => ConnectionFailed "Read timed out"
    end.

(** A Google provider whose every page is well formed, has status OK,
    lists no place and carries a continuation token. *)
Definition endless_empty_pages : GooglePlaces.search_provider :=
  fun n pagetoken =>
    Responded 200
      (Some (GooglePlaces.mkSearchData (Some "OK") (Some []) (Some "token"))).

(** A page that keeps the loop going has at least one place.  Google's
    own pages are of this kind; [endless_empty_pages] is not. *)
Definition continuing_pages_nonempty (provider : GooglePlaces.search_provider) : Prop :=
  forall n pagetoken data,
    GooglePlaces.fetch_json (provider n pagetoken) = Returned data ->
    GooglePlaces.status_not_in (GooglePlaces.s_status data) ["OK"; "ZERO_RESULTS"]
      = false ->
    truthy (GooglePlaces.s_next_page_token data) = true ->
    get_default (GooglePlaces.s_results data) [] <> [].

(** A results page with two titled results, and a URL parser that rejects
    the target of the second. *)
Definition two_results : WebSearch.Page :=
  WebSearch.mkPage "<html>...</html>" []
    [ Some (WebSearch.mkAnchor "https://cafe-a.example/" "Cafe A | Home");
      Some (WebSearch.mkAnchor "http://[cafe-b" "Cafe B") ].

Definition rejecting_brackets (href : string) : outcome string :=
  if contains "[" href then Raised (ValueError "Invalid IPv6 URL")
  else Returned (split_head (WebsiteScraper.drop 8 href) "/").

(** The page a request of the web search yields: the page of a reply
    with status 200 whose text is not empty; nothing on a transport
    failure, on any other status, or on an empty text. *)
Definition fetched (reply : http_reply WebSearch.Page) : option WebSearch.Page :=
  match reply with
  | ConnectionFailed _ => None
  | Responded status_code page =>
      if (status_code =? 200)%Z && truthy (WebSearch.page_text page)
      then Some page else None
  end.

(** *** Email extraction *)

(** A [mailto:] link whose target has the shape of an email address. *)
Definition valid_mailto (href : string) : bool :=
  startswith href "mailto:" &&
  match WebsiteScraper.EMAIL_RE_match (WebsiteScraper.mailto_target href) with
  | Some _ => true
  | None => false
  end.

(** [x] is the first element of [l] that satisfies [p]. *)
Definition first_such {A} (p : A -> bool) (l : list A) (x : A) : Prop :=
  exists before after,
    l = before ++ x :: after /\
    Forall (fun y => p y = false) before /\
    p x = true.

(** A match that ends in an image extension. *)
Definition image_name (e : string) : bool :=
  existsb (endswith e) WebsiteScraper.image_suffixes.

(** The email-shaped substrings of the text followed by the markup, without
    the image names. *)
Definition plain_text_candidates (text html : string) : list string :=
  filter (fun e => negb (image_name e))
         (WebsiteScraper.EMAIL_RE_findall (text ++ " " ++ html)).

(** The first candidate that contains [domain], else the first candidate,
    else the empty text. *)
Definition preferred (domain : string) (candidates : list string) : string :=
  match find (contains domain) candidates with
  | Some e => e
  | None => hd "" candidates
  end.

(** The host with a leading ["www."] stripped, as the specification words
    the site's own domain. *)
Definition strip_leading_www (netloc : string) : string :=
  if startswith netloc "www." then WebsiteScraper.drop 4 netloc else netloc.

(** *** Exports *)

(** How the CSV export renders the entry of an attribute: a missing entry
    and [None] as the empty text, any other value as it is. *)
Definition rendered (entry : option Value) : Value :=
  match entry with
  | None | Some VNone => VStr ""
  | Some v => v
  end.

Definition ten_records : list Restaurant :=
  map named ["R0"; "R1"; "R2"; "R3"; "R4"; "R5"; "R6"; "R7"; "R8"; "R9"].

(** A provider that accepts seven records of a batch and rejects three. *)
Definition partial_success : HubSpot.crm_provider :=
  fun n payload =>
    Responded 207
      (HubSpot.mkBody "{...}"
         (Some (HubSpot.mkBatchData
                  (Some ["c0"; "c1"; "c2"; "c3"; "c4"; "c5"; "c6"])
                  (Some [ HubSpot.mkBatchError (Some "duplicate name") "{...}";
                          HubSpot.mkBatchError (Some "invalid phone") "{...}";
                          HubSpot.mkBatchError None "{'status': 'error'}" ])))).

(** [urlparse(url).netloc] on the URLs of the samples: the text between
    the scheme and the first slash after it. *)
Definition sample_netloc_of (url : string) : string :=
  split_head (WebsiteScraper.drop 8 url) "/".

(** [urlparse] on the URLs of the samples: it raises [ValueError] on a
    host with a bracket, as it does on [http://[cafe-b/menu]]. *)
Definition sample_urlparse (url : string) : outcome string :=
  if contains "[" url then Raised (ValueError "Invalid IPv6 URL")
  else Returned (sample_netloc_of url).

(** A record whose website [urlparse] rejects. *)
Definition malformed_website : Restaurant :=
  set_website (named "Cafe B") "http://[cafe-b/menu]".

(** *** Vocabulary for the further properties *)

(** A value of the kind the dataclass annotates a field with: a text, and
    for the rating a float or [None]. *)
Definition kind_ok (f : Field) (v : Value) : bool :=
  match f, v with
  | F_rating, VStr _ => false
  | F_rating, _ => true
  | _, VStr _ => true
  | _, _ => false
  end.

(** The number of occurrences of a character in a text. *)
Fixpoint count_char (c : ascii) (s : string) : nat :=
  match s with
  | EmptyString => 0
  | String x s' => (if Ascii.eqb x c then 1 else 0) + count_char c s'
  end.

(** [r'] differs from [r] at most in fields among [allowed] that had no
    value in [r]. *)
Definition only_fills (allowed : Field -> bool) (r r' : Restaurant) : Prop :=
  forall f,
    getattr r' f = getattr r f \/
    (allowed f = true /\ has_no_value (getattr r f) = true).

(** The fields the Yelp business page can fill, and the fields the
    website crawler can fill. *)
Definition yelp_page_field (f : Field) : bool :=
  match f with
  | F_phone_number | F_venue_address | F_website | F_rating | F_price_level => true
  | _ => false
  end.

Definition crawler_field (f : Field) : bool :=
  match f with
  | F_email_address | F_phone_number | F_venue_owner
  | F_facebook | F_instagram | F_twitter | F_linkedin | F_tiktok | F_yelp_url => true
  | _ => false
  end.

(** A text [rstrip] has nothing to take off. *)
Definition trimmed (url : string) : Prop :=
  Re.rstrip_chars url WebsiteCrawler.trailing_noise = url.

(** The page a reply of the site contributes to the crawl: its text when
    the status is 200, the content type mentions [text/html] and the text
    is not empty; nothing otherwise. *)
Definition retrievable (reply : http_reply WebsiteCrawler.HtmlBody) : list string :=
  match reply with
  | ConnectionFailed _ => []
  | Responded status_code (content_type, text) =>
      if (status_code =? 200)%Z
         && contains "text/html" (get_default content_type "")
         && truthy text
      then [text] else []
  end.

(** The URLs [_fetch_pages] asks for: the homepage, then the subpages,
    unless [urljoin] raises on one of them. *)
Fixpoint subpage_urls (urljoin : string -> string -> outcome string)
    (base_url : string) (slugs : list string) : outcome (list string) :=
  match slugs with
  | [] => Returned []
  | slug :: rest =>
      bind (urljoin (Re.rstrip_chars base_url "/" ++ "/")%string slug) (fun url =>
      bind (subpage_urls urljoin base_url rest) (fun urls =>
      Returned (url :: urls)))
  end.

Definition crawl_urls (urljoin : string -> string -> outcome string)
    (base_url : string) : outcome (list string) :=
  bind (subpage_urls urljoin base_url WebsiteCrawler.SUBPAGES) (fun urls =>
  Returned (base_url :: urls)).

(** The payloads of the requests in a trace, in order. *)
Definition posted (trace : list HubSpot.Event) : list HubSpot.Payload :=
  flat_map (fun e => match e with
                     | HubSpot.Posted payload => [payload]
                     | HubSpot.Slept _ => []
                     end) trace.

(** One request per payload, and a pause of half a second between two
    requests. *)
Fixpoint alternating (payloads : list HubSpot.Payload) : list HubSpot.Event :=
  match payloads with
  | [] => []
  | [payload] => [HubSpot.Posted payload]
  | payload :: rest =>
      HubSpot.Posted payload :: HubSpot.Slept 0.5%float :: alternating rest
  end.

(** A reply that is neither a full nor a partial success. *)
Definition rejected (reply : http_reply HubSpot.Body) : Prop :=
  match reply with
  | ConnectionFailed _ => True
  | Responded status_code _ => status_code <> 201%Z /\ status_code <> 207%Z
  end.

(** [float] on the texts the examples pass to it: the three numbers
    among them, and [ValueError] on the others, none of which is a
    number. *)
Definition sample_float_of (s : string) : option float :=
  if String.eqb s "40.5" then Some 40.5%float
  else if String.eqb s "-74.25" then Some (-74.25)%float
  else if String.eqb s "4.5" then Some 4.5%float
  else None.

(** A Places API that answers every search as [failing_second_page]. *)
Definition sample_places_api : GoogleSearch.places_api :=
  fun url params => failing_second_page.

(** What [_parse_search_results] says of a record it returns for a page
    with the given anchors. *)
Definition yelp_listing (anchors : list WebSearch.Anchor) (r : Restaurant) : Prop :=
  source r = "yelp" /\
  startswith (yelp_url r) "https://www.yelp.com/biz/" = true /\
  contains "?" (yelp_url r) = false /\
  2 <= String.length (venue_name r) <= 100 /\
  exists link,
    In link anchors /\
    venue_name r = WebSearch.a_text link /\
    yelp_url r
    = ("https://www.yelp.com" ++ split_head (WebSearch.a_href link) "?")%string.

(** What one turn of the loop of [push_restaurants] does for the batch
    that starts at index [i], when [all_inputs] holds the properties of
    the records of the list: the request, and the pause when a batch
    follows. *)
Definition batch_payload (all_inputs : HubSpot.Payload) (batch_size i : Z)
    : HubSpot.Payload :=
  HubSpot.slice all_inputs i (i + batch_size).

Definition batch_events (all_inputs : HubSpot.Payload) (batch_size i : Z)
    : list HubSpot.Event :=
  HubSpot.Posted (batch_payload all_inputs batch_size i) ::
  (if (i + batch_size <? HubSpot.len all_inputs)%Z
   then [HubSpot.Slept 0.5%float] else []).

(** A provider that refuses every batch with a 400. *)
Definition refusing_provider : HubSpot.crm_provider :=
  fun n payload => Responded 400 (HubSpot.mkBody "Bad Request" None).

(** Twenty-five records. *)
Definition twenty_five_records : list Restaurant :=
  ten_records ++ ten_records ++ firstn 5 ten_records.

(** What a source of the web search says of a record it lists: the tag
    of the source, and a name [_clean_name] has been through. *)
Definition web_listing (source_tag : string) (r : Restaurant) : Prop :=
  source r = source_tag /\ WebSearch._clean_name (venue_name r) = venue_name r.

(** A site that cannot be reached, and the parsers of the samples. *)
Definition unreachable_site : string -> http_reply WebsiteCrawler.HtmlBody :=
  fun url => ConnectionFailed "Name or service not known".

Definition sample_parsers : WebsiteCrawler.Parsers :=
  WebsiteCrawler.mkParsers
    (fun html => html)
    (fun html => [])
    sample_urlparse
    (fun base slug =>
       bind (sample_urlparse base) (fun _ => Returned (base ++ slug)%string)).

(** A Yelp business page with a phone paragraph, and a record that has a
    phone number already. *)
Definition sample_business_page : YelpPages.BusinessPage :=
  YelpPages.mkBusinessPage (Some "Call (512) 555-0100") (Some "12 Main St")
    None (Some "4.5") (Some "$$").

Definition sample_yelp_record : Restaurant :=
  set_phone_number
    (set_yelp_url (named "Cafe A") "https://www.yelp.com/biz/cafe-a")
    "555-0000".

(* ================================================================== *)
(** ** Properties of the record model *)
(* ================================================================== *)

Lemma getattr_setattr_same (r other : Restaurant) (f : Field) :
  getattr (setattr r f (getattr other f)) f = getattr other f.
Proof.
  destruct f; try reflexivity.
  simpl. destruct (rating other); reflexivity.
Qed.

Lemma getattr_setattr_other (r : Restaurant) (f g : Field) (v : Value) :
  f <> g -> getattr (setattr r f v) g = getattr r g.
Proof.
  intros Hfg.
  destruct f, g; try congruence; destruct v; reflexivity.
Qed.

Lemma getattr_merge_field_same (self other : Restaurant) (f : Field) :
  getattr (merge_field other self f) f = merged_value self other f.
Proof.
  unfold merge_field, merged_value.
  destruct (truthy (getattr other f) && negb (truthy (getattr self f))).
  - apply getattr_setattr_same.
  - reflexivity.
Qed.

Lemma getattr_merge_field_other (self other : Restaurant) (f g : Field) :
  f <> g -> getattr (merge_field other self f) g = getattr self g.
Proof.
  intros Hfg. unfold merge_field.
  destruct (truthy (getattr other f) && negb (truthy (getattr self f))).
  - now apply getattr_setattr_other.
  - reflexivity.
Qed.

Lemma getattr_merge_loop (other : Restaurant) (f : Field) (l : list Field) :
  NoDup l ->
  forall self,
    getattr (fold_left (merge_field other) l self) f =
    if in_dec Field_eq_dec f l then merged_value self other f
    else getattr self f.
Proof.
  induction 1 as [| g l Hnotin Hnodup IH]; intros self.
  - reflexivity.
  - cbn [fold_left]. rewrite IH.
    destruct (Field_eq_dec g f) as [-> | Hgf].
    + destruct (in_dec Field_eq_dec f l) as [Hin | _]; [contradiction |].
      destruct (in_dec Field_eq_dec f (f :: l)) as [_ | Hout];
        [| exfalso; apply Hout; now left].
      apply getattr_merge_field_same.
    + destruct (in_dec Field_eq_dec f l) as [Hin | Hout];
        destruct (in_dec Field_eq_dec f (g :: l)) as [Hin' | Hout'].
      * unfold merged_value.
        now rewrite (getattr_merge_field_other self other g f Hgf).
      * exfalso. apply Hout'. now right.
      * destruct Hin' as [? | ?]; congruence.
      * now apply getattr_merge_field_other.
Qed.

Lemma dataclass_fields_NoDup : NoDup dataclass_fields.
Proof.
  unfold dataclass_fields.
  repeat (constructor; [simpl; intuition discriminate |]).
  constructor.
Qed.

Lemma dataclass_fields_complete (f : Field) : In f dataclass_fields.
Proof. destruct f; simpl; tauto. Qed.

Lemma getattr_merge (self other : Restaurant) (f : Field) :
  getattr (merge self other) f = merged_value self other f.
Proof.
  unfold merge.
  rewrite (getattr_merge_loop other f dataclass_fields dataclass_fields_NoDup).
  destruct (in_dec Field_eq_dec f dataclass_fields) as [_ | Hout];
    [reflexivity | exfalso; apply Hout, dataclass_fields_complete].
Qed.

(** C1, as amended.  After [existing.merge(incoming)] every field holds
    incoming's value exactly when incoming's value is truthy and existing's
    value is falsy, and existing's original value otherwise.  Falsy is the
    empty text, an absent rating, or a rating equal to zero. *)
Theorem merge_gap_fill (existing incoming : Restaurant) (f : Field) :
  getattr (merge existing incoming) f =
  if truthy (getattr incoming f) && negb (truthy (getattr existing f))
  then getattr incoming f
  else getattr existing f.
Proof.
  unfold merge.
  rewrite (getattr_merge_loop incoming f dataclass_fields dataclass_fields_NoDup).
  destruct (in_dec Field_eq_dec f dataclass_fields) as [_ | Hout].
  - reflexivity.
  - exfalso. apply Hout, dataclass_fields_complete.
Qed.

(** C1, as stated, fails on the rating: a record whose rating is the value
    0.0 has it replaced by the incoming rating, and an incoming rating of
    0.0 is not adopted by a record without a rating. *)
Lemma merge_replaces_zero_rating :
  let existing := set_rating (set_venue_name empty_restaurant "Cafe A") (Some 0%float) in
  let incoming := set_rating (set_venue_name empty_restaurant "Cafe A") (Some 4.5%float) in
  let bare := set_venue_name empty_restaurant "Cafe A" in
  (has_no_value (getattr existing F_rating) = false /\
   getattr (merge existing incoming) F_rating = VFloat 4.5%float /\
   getattr (merge existing incoming) F_rating <> getattr existing F_rating) /\
  (has_no_value (getattr bare F_rating) = true /\
   has_no_value (getattr existing F_rating) = false /\
   getattr (merge bare existing) F_rating = VNone).
Proof.
  cbv zeta. repeat split.
  intros H.
  apply (f_equal (fun v => match v with
                           | VFloat x => PrimFloat.eqb x 0%float
                           | _ => false
                           end)) in H.
  vm_compute in H. discriminate H.
Qed.

Lemma merge_field_self (r : Restaurant) (f : Field) : merge_field r r f = r.
Proof.
  unfold merge_field. now rewrite andb_negb_r.
Qed.

(** C8.  Merge is idempotent: [r.merge(r)] leaves [r] as it was, field for
    field; an equal copy of [r] is the same value. *)
Theorem merge_idempotent (r : Restaurant) : merge r r = r.
Proof.
  unfold merge.
  induction dataclass_fields as [| f l IH].
  - reflexivity.
  - cbn [fold_left]. now rewrite merge_field_self.
Qed.

(* ================================================================== *)
(** ** Aggregation: [_deduplicate] *)
(* ================================================================== *)

Lemma first_seen_In (k : string) (keys : list string) :
  In k (first_seen keys) <-> In k keys.
Proof.
  induction keys as [| a keys IH]; simpl.
  - tauto.
  - rewrite filter_In, IH, negb_true_iff, String.eqb_neq.
    destruct (String.eqb_spec a k) as [-> | Hne].
    + tauto.
    + split.
      * intros [? | [? ?]]; auto.
      * intros [? | ?]; [now left | right; split; congruence].
Qed.

Lemma first_seen_NoDup (keys : list string) : NoDup (first_seen keys).
Proof.
  induction keys as [| a keys IH]; simpl.
  - constructor.
  - constructor.
    + rewrite filter_In, negb_true_iff, String.eqb_neq. tauto.
    + now apply NoDup_filter.
Qed.

Lemma first_seen_snoc (keys : list string) (k : string) :
  first_seen (keys ++ [k]) =
  if in_dec string_dec k keys then first_seen keys else first_seen keys ++ [k].
Proof.
  induction keys as [| a keys IH].
  - reflexivity.
  - cbn [app first_seen]. rewrite IH.
    destruct (in_dec string_dec k keys) as [Hin | Hout];
      destruct (in_dec string_dec k (a :: keys)) as [Hin' | Hout'];
      try reflexivity.
    + exfalso. apply Hout'. now right.
    + destruct Hin' as [-> | ?]; [| contradiction].
      rewrite filter_app. cbn [filter].
      rewrite String.eqb_refl. cbn [negb]. now rewrite app_nil_r.
    + rewrite filter_app. cbn [filter].
      destruct (String.eqb_spec k a) as [-> | _].
      * exfalso. apply Hout'. now left.
      * reflexivity.
Qed.

Lemma same_key_snoc (k : string) (rs : list Restaurant) (r : Restaurant) :
  same_key k (rs ++ [r]) =
  if String.eqb (identity_key r) k then same_key k rs ++ [r] else same_key k rs.
Proof.
  unfold same_key. rewrite filter_app. cbn [filter].
  destruct (String.eqb (identity_key r) k); [reflexivity | apply app_nil_r].
Qed.

Lemma same_key_nil_iff (k : string) (rs : list Restaurant) :
  same_key k rs = [] <-> ~ In k (map identity_key rs).
Proof.
  unfold same_key. induction rs as [| r rs IH]; simpl.
  - tauto.
  - destruct (String.eqb_spec (identity_key r) k) as [E | E].
    + split; [discriminate | intros H; exfalso; apply H; now left].
    + rewrite IH. tauto.
Qed.

Lemma merged_group_snoc (group : list Restaurant) (r : Restaurant) :
  group <> [] -> merged_group (group ++ [r]) = merge (merged_group group) r.
Proof.
  destruct group as [| first later]; [congruence | intros _].
  unfold merged_group. cbn [app hd tl].
  now rewrite fold_left_app.
Qed.

Lemma dict_contains_grouped (rs : list Restaurant) (key : string) (keys : list string) :
  dict_contains key (grouped rs keys) = true <-> In key keys.
Proof.
  induction keys as [| k keys IH]; simpl.
  - split; [discriminate | tauto].
  - rewrite orb_true_iff, IH.
    destruct (String.eqb_spec k key); intuition congruence.
Qed.

Lemma grouped_snoc_other (rs : list Restaurant) (r : Restaurant) (keys : list string) :
  ~ In (identity_key r) keys -> grouped (rs ++ [r]) keys = grouped rs keys.
Proof.
  intros Hout. unfold grouped. apply map_ext_in. intros k Hk.
  rewrite same_key_snoc.
  destruct (String.eqb_spec (identity_key r) k) as [E | _]; [| reflexivity].
  subst k. contradiction.
Qed.

Lemma dict_merge_at_grouped (rs : list Restaurant) (r : Restaurant) (keys : list string) :
  NoDup keys ->
  (forall k, In k keys -> same_key k rs <> []) ->
  dict_merge_at (identity_key r) r (grouped rs keys) = grouped (rs ++ [r]) keys.
Proof.
  induction 1 as [| k keys Hnotin Hnodup IH]; intros Hgroups.
  - reflexivity.
  - cbn [grouped map dict_merge_at]. fold (grouped rs keys).
    fold (grouped (rs ++ [r]) keys).
    rewrite same_key_snoc, (String.eqb_sym k).
    destruct (String.eqb_spec (identity_key r) k) as [E | E].
    + rewrite merged_group_snoc by (apply Hgroups; now left).
      f_equal. symmetry. apply grouped_snoc_other. now rewrite E.
    + f_equal. apply IH. intros k' Hk'. apply Hgroups. now right.
Qed.

Lemma dedup_loop_grouped (rs : list Restaurant) :
  dedup_loop rs = grouped rs (first_seen (map identity_key rs)).
Proof.
  unfold dedup_loop.
  induction rs as [| r rs IH] using rev_ind.
  - reflexivity.
  - rewrite fold_left_app. cbn [fold_left]. rewrite IH.
    rewrite map_app. cbn [map]. rewrite first_seen_snoc.
    unfold dedup_step.
    destruct (in_dec string_dec (identity_key r) (map identity_key rs)) as [Hin | Hout].
    + assert (Hc : dict_contains (identity_key r)
                     (grouped rs (first_seen (map identity_key rs))) = true)
        by (apply dict_contains_grouped; now apply first_seen_In).
      rewrite Hc. apply dict_merge_at_grouped.
      * apply first_seen_NoDup.
      * intros k Hk E. apply same_key_nil_iff in E.
        apply E. now apply first_seen_In.
    + assert (Hc : dict_contains (identity_key r)
                     (grouped rs (first_seen (map identity_key rs))) = false).
      { apply not_true_is_false. rewrite dict_contains_grouped, first_seen_In.
        exact Hout. }
      rewrite Hc. unfold grouped at 2. rewrite map_app. cbn [map].
      fold (grouped (rs ++ [r]) (first_seen (map identity_key rs))).
      rewrite grouped_snoc_other by (now rewrite first_seen_In).
      f_equal. rewrite same_key_snoc, String.eqb_refl.
      apply same_key_nil_iff in Hout. rewrite Hout. reflexivity.
Qed.

(** Merging a record that has the same identity key keeps the key. *)
Lemma identity_key_merge (existing incoming : Restaurant) :
  identity_key incoming = identity_key existing ->
  identity_key (merge existing incoming) = identity_key existing.
Proof.
  intros Hkey. unfold identity_key in *.
  pose proof (getattr_merge existing incoming F_venue_name) as H.
  unfold merged_value in H. cbn [getattr] in H.
  destruct (truthy (VStr (venue_name incoming)) &&
            negb (truthy (VStr (venue_name existing))));
    injection H as ->; congruence.
Qed.

Lemma fold_left_invariant {A B : Type} (f : A -> B -> A)
    (P : A -> Prop) (Q : B -> Prop) :
  (forall a b, P a -> Q b -> P (f a b)) ->
  forall l a, P a -> Forall Q l -> P (fold_left f l a).
Proof.
  intros Hstep. induction l as [| b l IH]; intros a Ha Hl.
  - exact Ha.
  - apply Forall_cons_iff in Hl. destruct Hl as [Hb Hl].
    cbn [fold_left]. apply IH; [now apply Hstep | exact Hl].
Qed.

Lemma identity_key_merged_group (k : string) (rs : list Restaurant) :
  same_key k rs <> [] -> identity_key (merged_group (same_key k rs)) = k.
Proof.
  assert (Hall : Forall (fun r => identity_key r = k) (same_key k rs)).
  { apply Forall_forall. intros r Hr. unfold same_key in Hr.
    apply filter_In in Hr. now apply String.eqb_eq. }
  destruct (same_key k rs) as [| first later]; [congruence | intros _].
  apply Forall_cons_iff in Hall. destruct Hall as [Hfirst Hlater].
  apply (fold_left_invariant merge (fun r => identity_key r = k)
           (fun r => identity_key r = k)); try assumption.
  intros a b Ha Hb. rewrite identity_key_merge; congruence.
Qed.

(** *** The identity key ignores case and surrounding whitespace *)


Lemma lower_app (a b : string) : lower (a ++ b) = (lower a ++ lower b)%string.
Proof.
  induction a as [| c a IH]; simpl; [reflexivity | now rewrite IH].
Qed.









Example deduplicate_tonys_pizza :
  _deduplicate [named "Tonys Pizza"; named "tonys pizza"; named " Tonys Pizza "]
  = [named "Tonys Pizza"].
Proof. vm_compute. reflexivity. Qed.

Example deduplicate_cafe_scenario :
  let adapter1 := [named "Cafe A"] in
  let adapter2 := [set_phone_number (named "cafe a") "555-1234"] in
  let adapter3 := [named "Cafe B"] in
  _deduplicate (adapter1 ++ adapter2 ++ adapter3)
  = [set_phone_number (named "Cafe A") "555-1234"; named "Cafe B"].
Proof. vm_compute. reflexivity. Qed.




(* ================================================================== *)
(** ** Aggregation over object references *)
(* ================================================================== *)

Lemma VStr_inj (a b : string) : VStr a = VStr b -> a = b.
Proof. intros H. now injection H. Qed.

Lemma value_of_rating_inj (a b : option float) :
  value_of_rating a = value_of_rating b -> a = b.
Proof.
  destruct a as [x |], b as [y |]; cbn; intros H;
    try discriminate H; try reflexivity.
  exact (f_equal (fun v => match v with VFloat z => Some z | _ => None end) H).
Qed.

Lemma Restaurant_ext (a b : Restaurant) :
  (forall f, getattr a f = getattr b f) -> a = b.
Proof.
  intros H. destruct a, b.
  pose proof (VStr_inj _ _ (H F_venue_name)) as E_venue_name.
  pose proof (VStr_inj _ _ (H F_website)) as E_website.
  pose proof (VStr_inj _ _ (H F_phone_number)) as E_phone_number.
  pose proof (VStr_inj _ _ (H F_email_address)) as E_email_address.
  pose proof (VStr_inj _ _ (H F_venue_address)) as E_venue_address.
  pose proof (VStr_inj _ _ (H F_city)) as E_city.
  pose proof (VStr_inj _ _ (H F_state)) as E_state.
  pose proof (VStr_inj _ _ (H F_zip_code)) as E_zip_code.
  pose proof (VStr_inj _ _ (H F_country)) as E_country.
  pose proof (VStr_inj _ _ (H F_venue_owner)) as E_venue_owner.
  pose proof (VStr_inj _ _ (H F_cuisine_type)) as E_cuisine_type.
  pose proof (value_of_rating_inj _ _ (H F_rating)) as E_rating.
  pose proof (VStr_inj _ _ (H F_price_level)) as E_price_level.
  pose proof (VStr_inj _ _ (H F_facebook)) as E_facebook.
  pose proof (VStr_inj _ _ (H F_instagram)) as E_instagram.
  pose proof (VStr_inj _ _ (H F_twitter)) as E_twitter.
  pose proof (VStr_inj _ _ (H F_linkedin)) as E_linkedin.
  pose proof (VStr_inj _ _ (H F_tiktok)) as E_tiktok.
  pose proof (VStr_inj _ _ (H F_yelp_url)) as E_yelp_url.
  pose proof (VStr_inj _ _ (H F_google_place_id)) as E_google_place_id.
  pose proof (VStr_inj _ _ (H F_hours_of_operation)) as E_hours_of_operation.
  pose proof (VStr_inj _ _ (H F_source)) as E_source.
  clear H. cbn in *. subst. reflexivity.
Qed.

Lemma covers_refl (v : Restaurant) : covers v v.
Proof. intros f H. exact H. Qed.

Lemma covers_merge (v x r : Restaurant) : covers v r -> covers (merge v x) r.
Proof.
  intros Hcov f Hr. rewrite getattr_merge. unfold merged_value.
  destruct (truthy (getattr x f)) eqn:Ex; cbn [andb].
  - destruct (truthy (getattr v f)) eqn:Ev; cbn [negb]; assumption.
  - now apply Hcov.
Qed.

(** Merging in a record that is covered changes nothing. *)
Lemma merge_covered (v r : Restaurant) : covers v r -> merge v r = v.
Proof.
  intros Hcov. apply Restaurant_ext. intros f.
  rewrite getattr_merge. unfold merged_value.
  destruct (truthy (getattr r f)) eqn:Er; cbn [andb]; [| reflexivity].
  now rewrite (Hcov f Er).
Qed.

Lemma store_update_length (store : Store) (p : nat) (v : Restaurant) :
  List.length (store_update store p v) = List.length store.
Proof.
  revert p. induction store as [| r store IH]; intros [| p]; cbn; congruence.
Qed.

Lemma deref_update_same (store : Store) (p : nat) (v : Restaurant) :
  p < List.length store -> deref (store_update store p v) p = v.
Proof.
  unfold deref. revert p.
  induction store as [| r store IH]; intros [| p] Hp; cbn in *; try lia.
  - reflexivity.
  - apply IH. lia.
Qed.

Lemma deref_update_other (store : Store) (p q : nat) (v : Restaurant) :
  p <> q -> deref (store_update store q v) p = deref store p.
Proof.
  unfold deref. revert p q.
  induction store as [| r store IH]; intros [| p] [| q] Hpq; cbn;
    try reflexivity; try congruence.
  apply IH. congruence.
Qed.

Lemma refs_lookup_In (key : string) (seen : seen_refs) (q : nat) :
  refs_lookup key seen = Some q -> In (key, q) seen.
Proof.
  induction seen as [| [k q'] seen IH]; cbn; [discriminate |].
  destruct (String.eqb_spec k key) as [-> | _].
  - intros H. injection H as ->. now left.
  - intros H. right. now apply IH.
Qed.

Lemma refs_lookup_None (key : string) (seen : seen_refs) :
  refs_lookup key seen = None -> ~ In key (map fst seen).
Proof.
  induction seen as [| [k q'] seen IH]; cbn; [tauto |].
  destruct (String.eqb_spec k key) as [-> | Hne]; [discriminate |].
  intros H [E | Hin]; [congruence | now apply IH].
Qed.

Lemma seen_key_unique (seen : seen_refs) (k : string) (p q : nat) :
  NoDup (map fst seen) -> In (k, p) seen -> In (k, q) seen -> p = q.
Proof.
  induction seen as [| [k' q'] seen IH]; cbn; [tauto |].
  intros Hnd. apply NoDup_cons_iff in Hnd. destruct Hnd as [Hout Hnd].
  intros [E1 | H1] [E2 | H2].
  - congruence.
  - exfalso. apply Hout. injection E1 as -> _.
    change k with (fst (k, q)). now apply in_map.
  - exfalso. apply Hout. injection E2 as -> _.
    change k with (fst (k, p)). now apply in_map.
  - now apply IH.
Qed.

Lemma seen_ref_unique (seen : seen_refs) (k1 k2 : string) (q : nat) :
  NoDup (map snd seen) -> In (k1, q) seen -> In (k2, q) seen -> k1 = k2.
Proof.
  induction seen as [| [k' q'] seen IH]; cbn; [tauto |].
  intros Hnd. apply NoDup_cons_iff in Hnd. destruct Hnd as [Hout Hnd].
  intros [E1 | H1] [E2 | H2].
  - congruence.
  - exfalso. apply Hout. injection E1 as _ ->.
    change q with (snd (k2, q)). now apply in_map.
  - exfalso. apply Hout. injection E2 as _ ->.
    change q with (snd (k1, q)). now apply in_map.
  - now apply IH.
Qed.

Lemma dict_contains_image (store : Store) (seen : seen_refs) (key : string) :
  dict_contains key (image store seen) =
  match refs_lookup key seen with Some _ => true | None => false end.
Proof.
  induction seen as [| [k q] seen IH]; cbn; [reflexivity |].
  destruct (String.eqb k key); [reflexivity | exact IH].
Qed.

Lemma image_update_unrelated (store : Store) (seen : seen_refs) (q : nat)
    (w : Restaurant) :
  ~ In q (map snd seen) -> image (store_update store q w) seen = image store seen.
Proof.
  intros Hout. unfold image. apply map_ext_in. intros [k q'] Hin. cbn.
  rewrite deref_update_other; [reflexivity |].
  intros ->. apply Hout. change q with (snd (k, q)). now apply in_map.
Qed.

Lemma dict_merge_at_image (store : Store) (seen : seen_refs) (key : string)
    (q : nat) (r : Restaurant) :
  NoDup (map snd seen) ->
  refs_lookup key seen = Some q ->
  q < List.length store ->
  dict_merge_at key r (image store seen) =
  image (store_update store q (merge (deref store q) r)) seen.
Proof.
  intros Hnd Hlookup Hq.
  induction seen as [| [k q'] seen IH]; [discriminate Hlookup |].
  cbn in Hnd. apply NoDup_cons_iff in Hnd. destruct Hnd as [Hout Hnd].
  cbn [image map dict_merge_at fst snd refs_lookup] in *.
  fold (image store seen).
  fold (image (store_update store q (merge (deref store q) r)) seen).
  destruct (String.eqb k key).
  - injection Hlookup as ->.
    rewrite deref_update_same by exact Hq.
    now rewrite image_update_unrelated.
  - assert (Hne : q' <> q).
    { intros ->. apply Hout. apply refs_lookup_In in Hlookup.
      change q with (snd (key, q)). now apply in_map. }
    rewrite deref_update_other by exact Hne.
    f_equal. now apply IH.
Qed.

Lemma NoDup_snoc {A} (l : list A) (a : A) :
  NoDup l -> ~ In a l -> NoDup (l ++ [a]).
Proof.
  intros Hl Ha. apply NoDup_app; [exact Hl | repeat constructor; tauto |].
  intros x Hx [<- | []]. contradiction.
Qed.

Lemma refs_invariant_init (store : Store) : refs_invariant store store [].
Proof.
  constructor; cbn; try constructor; try tauto; reflexivity.
Qed.

(** One turn of the loop over references does to the records what one
    turn of the loop over values does. *)
Lemma dedup_step_refs_simulates (store0 store : Store) (seen : seen_refs) (p : nat) :
  refs_invariant store0 store seen ->
  p < List.length store0 ->
  refs_invariant store0 (fst (dedup_step_refs (store, seen) p))
                        (snd (dedup_step_refs (store, seen) p)) /\
  image (fst (dedup_step_refs (store, seen) p))
        (snd (dedup_step_refs (store, seen) p))
  = dedup_step (image store seen) (deref store0 p).
Proof.
  intros [Hlen Hkeys Hrefs Hunstored Hstored] Hp.
  assert (Hkey : identity_key (deref store p) = identity_key (deref store0 p)).
  { destruct (in_dec Nat.eq_dec p (map snd seen)) as [Hin | Hout].
    - apply in_map_iff in Hin. destruct Hin as ([k p'] & E & Hin).
      cbn in E. subst p'. destruct (Hstored k p Hin) as (_ & -> & -> & _).
      reflexivity.
    - now rewrite (Hunstored p Hout). }
  unfold dedup_step_refs, dedup_step.
  rewrite dict_contains_image, <- Hkey.
  destruct (refs_lookup (identity_key (deref store p)) seen) as [q |] eqn:Hlookup;
    cbn [fst snd].
  - pose proof (refs_lookup_In _ _ _ Hlookup) as Hq.
    destruct (Hstored _ _ Hq) as (Hqlen & Hqkey & Hq0key & Hqcov).
    assert (Hw : merge (deref store q) (deref store p)
                 = merge (deref store q) (deref store0 p)).
    { destruct (in_dec Nat.eq_dec p (map snd seen)) as [Hin | Hout].
      - apply in_map_iff in Hin. destruct Hin as ([k p'] & E & Hin).
        cbn in E. subst p'.
        destruct (Hstored k p Hin) as (_ & Hk & _ & _).
        rewrite Hk in Hlookup, Hq.
        assert (p = q) by exact (seen_key_unique seen k p q Hkeys Hin Hq).
        subst q. rewrite (merge_covered _ _ Hqcov).
        apply merge_covered, covers_refl.
      - now rewrite (Hunstored p Hout). }
    rewrite Hw. split.
    + constructor.
      * now rewrite store_update_length.
      * exact Hkeys.
      * exact Hrefs.
      * intros p' Hout. rewrite deref_update_other; [now apply Hunstored |].
        intros ->. apply Hout. change q with (snd (identity_key (deref store p), q)).
        now apply in_map.
      * intros k2 q2 Hin2. rewrite store_update_length.
        destruct (Hstored _ _ Hin2) as (Hlen2 & Hkey2 & Hkey02 & Hcov2).
        destruct (Nat.eq_dec q2 q) as [-> | Hne].
        -- assert (k2 = identity_key (deref store p))
             by exact (seen_ref_unique seen _ _ q Hrefs Hin2 Hq).
           subst k2. rewrite deref_update_same by exact Hqlen.
           repeat split; try assumption.
           ++ rewrite identity_key_merge; congruence.
           ++ now apply covers_merge.
        -- rewrite deref_update_other by exact Hne. repeat split; assumption.
    + symmetry. now apply dict_merge_at_image.
  - pose proof (refs_lookup_None _ _ Hlookup) as Hnokey.
    assert (Hout : ~ In p (map snd seen)).
    { intros Hin. apply in_map_iff in Hin. destruct Hin as ([k p'] & E & Hin).
      cbn in E. subst p'. destruct (Hstored k p Hin) as (_ & Hk & _ & _).
      apply Hnokey. rewrite Hk. change k with (fst (k, p)). now apply in_map. }
    split.
    + constructor.
      * exact Hlen.
      * rewrite map_app. now apply NoDup_snoc.
      * rewrite map_app. now apply NoDup_snoc.
      * intros p' Hout'. apply Hunstored. intros Hin. apply Hout'.
        rewrite map_app. apply in_or_app. now left.
      * intros k2 q2 Hin2. apply in_app_or in Hin2.
        destruct Hin2 as [Hin2 | [E | []]]; [now apply Hstored |].
        injection E as <- <-. rewrite (Hunstored p Hout).
        repeat split; try congruence; try lia.
    + unfold image. rewrite map_app. cbn [map fst snd].
      now rewrite (Hunstored p Hout).
Qed.

Lemma dedup_loop_refs_simulates (store0 : Store) (restaurants : list nat) :
  Forall (fun p => p < List.length store0) restaurants ->
  forall store seen,
    refs_invariant store0 store seen ->
    image (fst (fold_left dedup_step_refs restaurants (store, seen)))
          (snd (fold_left dedup_step_refs restaurants (store, seen)))
    = fold_left dedup_step (map (deref store0) restaurants) (image store seen).
Proof.
  induction 1 as [| p restaurants Hp Hrest IH]; intros store seen Hinv.
  - reflexivity.
  - cbn [fold_left map].
    destruct (dedup_step_refs_simulates store0 store seen p Hinv Hp) as [Hinv' Himage].
    destruct (dedup_step_refs (store, seen) p) as [store' seen'].
    cbn [fst snd] in *. rewrite (IH _ _ Hinv'). now rewrite Himage.
Qed.

(** Read in the store the call leaves, the references [_deduplicate]
    returns are the records the loop over values returns for the records
    the input references held at the call.  Listing an object twice, or
    mutating listed objects along the way, makes no difference. *)
Lemma deduplicate_refs_refines (store : Store) (restaurants : list nat) :
  Forall (fun p => p < List.length store) restaurants ->
  map (deref (fst (_deduplicate_refs store restaurants)))
      (snd (_deduplicate_refs store restaurants))
  = _deduplicate (map (deref store) restaurants).
Proof.
  intros Hvalid. unfold _deduplicate_refs, _deduplicate, dedup_loop.
  pose proof (dedup_loop_refs_simulates store restaurants Hvalid store []
                (refs_invariant_init store)) as H.
  change (image store []) with (@nil (string * Restaurant)) in H.
  cbv zeta. cbn [fst snd]. rewrite <- H.
  unfold image. rewrite !map_map. reflexivity.
Qed.

Example deduplicate_refs_repeated_object :
  let store := [named "Cafe A"; set_phone_number (named "cafe a") "555-1234"] in
  map (deref (fst (_deduplicate_refs store [0; 1; 0])))
      (snd (_deduplicate_refs store [0; 1; 0]))
  = [set_phone_number (named "Cafe A") "555-1234"].
Proof. vm_compute. reflexivity. Qed.

(* ================================================================== *)
(** ** Google Places: [enrich_restaurant] *)
(* ================================================================== *)

Lemma PRICE_MAP_get_symbol (price : Z) :
  GooglePlaces.PRICE_MAP_get (Some price) "" = price_symbol price.
Proof.
  unfold GooglePlaces.PRICE_MAP_get, price_symbol. cbn [find GooglePlaces.PRICE_MAP fst snd].
  repeat (match goal with
          | |- context [(?a =? price)%Z] => rewrite (Z.eqb_sym a price)
          end).
  repeat (destruct (_ =? _)%Z; [reflexivity |]). reflexivity.
Qed.

Lemma find_snoc {A} (p : A -> bool) (l : list A) (x : A) :
  find p (l ++ [x]) =
  match find p l with
  | Some y => Some y
  | None => if p x then Some x else None
  end.
Proof.
  induction l as [| a l IH]; simpl.
  - reflexivity.
  - destruct (p a); [reflexivity | exact IH].
Qed.

(** One component changes the attribute it is decomposed into, if any,
    and raises when it lacks the name read from it. *)
Lemma parse_address_component_spec (r : Restaurant)
    (comp : GooglePlaces.AddressComponent) :
  match missing_key comp with
  | Some key =>
      GooglePlaces.parse_address_component r comp = Raised (KeyError key)
  | None =>
      exists r',
        GooglePlaces.parse_address_component r comp = Returned r' /\
        forall f, getattr r' f =
                  if decomposes_into f comp then VStr (component_name f comp)
                  else getattr r f
  end.
Proof.
  unfold GooglePlaces.parse_address_component, missing_key, decomposes_into,
    component_field.
  destruct (str_in "locality" _);
    [| destruct (str_in "administrative_area_level_1" _);
       [| destruct (str_in "postal_code" _);
          [| destruct (str_in "country" _)]]];
    try (destruct (GooglePlaces.c_long_name comp) as [long |] eqn:El);
    try (destruct (GooglePlaces.c_short_name comp) as [short |] eqn:Es);
    cbn [subscript bind]; try reflexivity;
    eexists; (split; [reflexivity |]); intros f;
    destruct f; cbn; rewrite ?El, ?Es; reflexivity.
Qed.

Lemma parse_address_components_spec
    (components : list GooglePlaces.AddressComponent) :
  forall r,
    match first_missing_key components with
    | Some key =>
        GooglePlaces._parse_address_components components r
        = Raised (KeyError key)
    | None =>
        exists r',
          GooglePlaces._parse_address_components components r = Returned r' /\
          forall f, getattr r' f =
                    match last_component f components with
                    | Some comp => VStr (component_name f comp)
                    | None => getattr r f
                    end
    end.
Proof.
  induction components as [| comp components IH]; intros r.
  - exists r. split; reflexivity.
  - cbn [first_missing_key GooglePlaces._parse_address_components].
    pose proof (parse_address_component_spec r comp) as Hcomp.
    destruct (missing_key comp) as [key |].
    + rewrite Hcomp. reflexivity.
    + destruct Hcomp as (r1 & E1 & H1). rewrite E1. cbn [bind].
      specialize (IH r1).
      destruct (first_missing_key components) as [key |]; [exact IH |].
      destruct IH as (r' & E' & H').
      exists r'. split; [exact E' |].
      intros f. rewrite H'. unfold last_component. cbn [rev].
      rewrite find_snoc.
      destruct (find (decomposes_into f) (rev components)); [reflexivity |].
      rewrite H1. destruct (decomposes_into f comp); reflexivity.
Qed.

Lemma decomposes_into_address_field (f : Field)
    (comp : GooglePlaces.AddressComponent) :
  is_address_field f = false -> decomposes_into f comp = false.
Proof.
  unfold decomposes_into, component_field. intros Hf.
  repeat (destruct (str_in _ _);
          [destruct (Field_eq_dec f _) as [-> | _]; [discriminate Hf | reflexivity] |]).
  reflexivity.
Qed.

Lemma last_component_other (f : Field)
    (components : list GooglePlaces.AddressComponent) :
  is_address_field f = false -> last_component f components = None.
Proof.
  intros Hf. unfold last_component.
  induction (rev components) as [| comp l IH]; simpl.
  - reflexivity.
  - now rewrite (decomposes_into_address_field f comp Hf).
Qed.

(** C3, as amended.  For a record with a place id and a details response
    with status OK, [enrich_restaurant] takes the phone, the website and the
    formatted address from the response whenever the response has them, the
    price tier through the table 0 -> Free, 1 -> $, 2 -> $$, 3 -> $$$,
    4 -> $$$$ whenever the response has a price level, the rating whenever
    the response has one, the weekday hours joined by " | " whenever the
    response lists some, and city, region, postal code and country from the
    last address component of each kind.  An attribute keeps its former
    value only where the response has nothing for it; every other attribute
    of the record is unchanged.  A response that has no [result], or that
    lists a component of one of the four kinds without the name read from
    it, raises [KeyError] with the missing key. *)
Theorem google_enrich_applies_details
    (details : string -> http_reply (option GooglePlaces.DetailsData))
    (r : Restaurant) (status_code : Z)
    (data : GooglePlaces.DetailsData) :
  truthy (google_place_id r) = true ->
  details (google_place_id r) = Responded status_code (Some data) ->
  raise_for_status status_code = Returned tt ->
  GooglePlaces.dd_status data = Some "OK" ->
  match GooglePlaces.dd_result data with
  | None =>
      GooglePlaces.enrich_restaurant details r = Raised (KeyError "result")
  | Some d =>
      match first_missing_key
              (get_default (GooglePlaces.d_address_components d) []) with
      | Some key =>
          GooglePlaces.enrich_restaurant details r = Raised (KeyError key)
      | None =>
          exists r',
            GooglePlaces.enrich_restaurant details r = Returned r' /\
            forall f, getattr r' f = detailed_value r d f
      end
  end.
Proof.
  intros Hid Hreply Hstatus Hok.
  unfold GooglePlaces.enrich_restaurant.
  rewrite Hid, Hreply. unfold GooglePlaces.fetch_json.
  cbn [negb session_get bind fst snd].
  rewrite Hstatus. cbn [bind json]. rewrite Hok. cbn [String.eqb negb].
  change (String.eqb "OK" "OK") with true. cbn [negb].
  destruct (GooglePlaces.dd_result data) as [d |]; [| reflexivity].
  cbn [subscript bind]. cbv zeta.
  match goal with
  | |- context [GooglePlaces._parse_address_components ?components ?r4] =>
      pose proof (parse_address_components_spec components r4) as Hparse
  end.
  destruct (first_missing_key _) as [key |]; [exact Hparse |].
  destruct Hparse as (r' & E & H).
  exists r'. split; [exact E |].
  intros f. rewrite H. clear E H.
  destruct (is_address_field f) eqn:Hf.
  - destruct f; try discriminate Hf; cbn [detailed_value];
      (destruct (last_component _ _); [reflexivity |]);
      destruct (GooglePlaces.d_price_level d), (GooglePlaces.d_rating d),
        (GooglePlaces.d_opening_hours d) as [[[| day days] |] |];
      reflexivity.
  - rewrite (last_component_other f _ Hf).
    destruct f; try discriminate Hf; cbn [detailed_value];
      destruct (GooglePlaces.d_price_level d) as [price |],
        (GooglePlaces.d_rating d),
        (GooglePlaces.d_opening_hours d) as [[[| day days] |] |];
      try reflexivity;
      rewrite PRICE_MAP_get_symbol; reflexivity.
Qed.

Lemma google_enrich_applies_details_witness :
  (exists r',
     GooglePlaces.enrich_restaurant sample_details_provider sample_record
       = Returned r' /\
     forall f, getattr r' f = detailed_value sample_record sample_details f) /\
  GooglePlaces.enrich_restaurant
    (fun place_id =>
       Responded 200
         (Some (GooglePlaces.mkDetailsData (Some "OK")
                  (Some (GooglePlaces.mkPlaceDetails None None None None None None
                           (Some [GooglePlaces.mkAddressComponent
                                    (Some ["locality"]) None
                                    (Some "Springfield")]))))))
    sample_record
  = Raised (KeyError "long_name").
Proof.
  split.
  - apply (google_enrich_applies_details sample_details_provider sample_record 200
             (GooglePlaces.mkDetailsData (Some "OK") (Some sample_details)));
      reflexivity.
  - apply (google_enrich_applies_details
             (fun place_id =>
                Responded 200
                  (Some (GooglePlaces.mkDetailsData (Some "OK")
                           (Some (GooglePlaces.mkPlaceDetails None None None None
                                    None None
                                    (Some [GooglePlaces.mkAddressComponent
                                             (Some ["locality"]) None
                                             (Some "Springfield")]))))))
             sample_record 200
             (GooglePlaces.mkDetailsData (Some "OK")
                (Some (GooglePlaces.mkPlaceDetails None None None None None None
                         (Some [GooglePlaces.mkAddressComponent
                                  (Some ["locality"]) None
                                  (Some "Springfield")])))));
      reflexivity.
Defined.

(** C3, as stated, fails: a phone number and a street address the record
    already had are replaced by the ones of the details response. *)
Lemma google_enrich_overwrites_filled_fields :
  truthy (phone_number sample_record) = true /\
  truthy (venue_address sample_record) = true /\
  exists r',
    GooglePlaces.enrich_restaurant sample_details_provider sample_record = Returned r' /\
    phone_number sample_record = "555-0000" /\
    phone_number r' = "555-1234" /\
    venue_address sample_record = "12 Main St" /\
    venue_address r' = "12 Main St, Springfield, IL 62701, USA".
Proof.
  split; [reflexivity |]. split; [reflexivity |].
  eexists. split; [vm_compute; reflexivity |].
  repeat split.
Qed.

(* ================================================================== *)
(** ** Adapters: failures and pagination *)
(* ================================================================== *)

Section BoundedAppend.

Context {A : Type}.

Lemma append_up_to_firstn (max_results : Z) (acc new : list A) :
  List.length acc <= Z.to_nat max_results ->
  append_up_to max_results acc new = firstn (Z.to_nat max_results) (acc ++ new).
Proof.
  revert acc. induction new as [| x new IH]; intros acc Hacc; cbn [append_up_to].
  - rewrite app_nil_r. symmetry. now apply firstn_all2.
  - destruct (Z.leb_spec max_results (Z.of_nat (List.length acc))) as [Hfull | Hroom].
    + assert (E : List.length acc = Z.to_nat max_results) by lia.
      rewrite <- E, firstn_app, firstn_all, Nat.sub_diag. cbn [firstn].
      now rewrite app_nil_r.
    + rewrite IH.
      * now rewrite <- app_assoc.
      * rewrite length_app. cbn [List.length]. lia.
Qed.

Lemma append_up_to_length (max_results : Z) (acc new : list A) :
  List.length acc <= List.length (append_up_to max_results acc new) /\
  (Z.of_nat (List.length (append_up_to max_results acc new))
   <= Z.max max_results (Z.of_nat (List.length acc)))%Z.
Proof.
  revert acc. induction new as [| x new IH]; intros acc; cbn [append_up_to].
  - lia.
  - destruct (Z.leb_spec max_results (Z.of_nat (List.length acc))) as [Hfull | Hroom].
    + lia.
    + specialize (IH (acc ++ [x])). rewrite length_app in IH.
      cbn [List.length] in IH. lia.
Qed.

Lemma append_up_to_grows (max_results : Z) (acc new : list A) :
  (Z.of_nat (List.length acc) < max_results)%Z ->
  new <> [] ->
  List.length acc < List.length (append_up_to max_results acc new).
Proof.
  intros Hroom Hnew. destruct new as [| x new]; [congruence |].
  cbn [append_up_to].
  destruct (Z.leb_spec max_results (Z.of_nat (List.length acc))); [lia |].
  pose proof (append_up_to_length max_results (acc ++ [x]) new) as [Hmono _].
  rewrite length_app in Hmono. cbn [List.length] in Hmono. lia.
Qed.

Lemma firstn_firstn_app (m : nat) (xs ys : list A) :
  firstn m (firstn m xs ++ ys) = firstn m (xs ++ ys).
Proof.
  destruct (Nat.le_gt_cases m (List.length xs)) as [Hlong | Hshort].
  - rewrite !firstn_app, firstn_firstn, Nat.min_id.
    rewrite length_firstn, (Nat.min_l _ _ Hlong), Nat.sub_diag.
    replace (m - List.length xs) with 0 by lia. reflexivity.
  - rewrite (firstn_all2 xs) by lia. reflexivity.
Qed.

End BoundedAppend.

(** *** Yelp *)

Lemma yelp_search_loop_spec (provider : Yelp.search_provider) (max_results : Z)
    (fuel : nat) :
  forall (restaurants : list Restaurant) (start : Z),
    List.length restaurants <= Z.to_nat max_results ->
    Z.to_nat max_results - List.length restaurants <= fuel ->
    Yelp.search_loop fuel provider max_results restaurants start =
    Some (Returned
            (firstn (Z.to_nat max_results)
               (restaurants ++
                List.concat (pages_before_failure provider start fuel)))).
Proof.
  induction fuel as [| fuel IH]; intros restaurants start Hlen Hfuel.
  - cbn [Yelp.search_loop pages_before_failure List.concat].
    destruct (Z.ltb_spec (Z.of_nat (List.length restaurants)) max_results); [lia |].
    rewrite app_nil_r, firstn_all2 by lia. reflexivity.
  - cbn [Yelp.search_loop pages_before_failure].
    destruct (Z.ltb_spec (Z.of_nat (List.length restaurants)) max_results)
      as [Hroom | Hfull].
    + unfold page_data.
      destruct (provider start) as [msg | status_code results];
        cbn [session_get bind try_except is_RequestException fst snd List.concat].
      * rewrite app_nil_r, firstn_all2 by lia. reflexivity.
      * unfold raise_for_status.
        destruct ((400 <=? status_code) && (status_code <? 600))%Z;
          cbn [bind try_except is_RequestException List.concat].
        -- rewrite app_nil_r, firstn_all2 by lia. reflexivity.
        -- destruct results as [| r results]; cbn [truthy Truthy_list negb List.concat].
           ++ rewrite app_nil_r, firstn_all2 by lia. reflexivity.
           ++ rewrite IH.
              ** rewrite append_up_to_firstn by lia.
                 rewrite firstn_firstn_app, <- app_assoc. reflexivity.
              ** rewrite append_up_to_firstn by lia. rewrite length_firstn. lia.
              ** pose proof (append_up_to_grows max_results restaurants
                               (r :: results) Hroom) as Hgrow.
                 assert (Hnew : r :: results <> []) by discriminate.
                 specialize (Hgrow Hnew). lia.
    + rewrite firstn_app, firstn_all2 by lia.
      replace (Z.to_nat max_results - List.length restaurants) with 0 by lia.
      cbn [firstn]. now rewrite app_nil_r.
Qed.

Lemma page_data_nonempty (reply : http_reply (list Restaurant))
    (page : list Restaurant) :
  page_data reply = Some page -> page <> [].
Proof.
  unfold page_data. destruct reply as [msg | status_code results]; [discriminate |].
  destruct ((400 <=? status_code) && (status_code <? 600))%Z; [discriminate |].
  destruct results; [discriminate |]. intros H. injection H as <-. discriminate.
Qed.

(** Every page that counts has a record, so the first [m] records lie in
    the first [m] pages. *)
Lemma pages_before_failure_enough (provider : Yelp.search_provider) (limit1 : nat) :
  forall (m limit2 : nat) (start : Z),
    m <= limit1 -> m <= limit2 ->
    firstn m (List.concat (pages_before_failure provider start limit1))
    = firstn m (List.concat (pages_before_failure provider start limit2)).
Proof.
  induction limit1 as [| limit1 IH]; intros m limit2 start H1 H2.
  - replace m with 0 by lia. reflexivity.
  - destruct m as [| m]; [reflexivity |].
    destruct limit2 as [| limit2]; [lia |].
    cbn [pages_before_failure].
    destruct (page_data (provider start)) as [page |] eqn:E; [| reflexivity].
    apply page_data_nonempty in E.
    destruct page as [| r page]; [congruence |].
    cbn [List.concat]. rewrite !firstn_app. f_equal.
    apply IH; cbn [List.length]; lia.
Qed.

(** *** Web search *)

Lemma web_fetch_url_returns (reply : http_reply WebSearch.Page) :
  exists resp, WebSearch._fetch_url reply = Returned resp.
Proof.
  unfold WebSearch._fetch_url.
  destruct reply as [msg | status_code page];
    cbn [session_get bind try_except is_RequestException fst snd].
  - eexists. reflexivity.
  - destruct (status_code =? 200)%Z; eexists; reflexivity.
Qed.

Lemma web_search_tripadvisor_returns (reply : http_reply WebSearch.Page)
    (max_results : Z) :
  exists l, WebSearch._search_tripadvisor reply max_results = Returned l.
Proof.
  unfold WebSearch._search_tripadvisor.
  destruct (web_fetch_url_returns reply) as [resp ->]. cbn [bind].
  destruct (WebSearch.page_missing resp); eexists; reflexivity.
Qed.

Lemma web_search_michelin_returns (reply : http_reply WebSearch.Page)
    (max_results : Z) :
  exists l, WebSearch._search_michelin reply max_results = Returned l.
Proof.
  unfold WebSearch._search_michelin.
  destruct (web_fetch_url_returns reply) as [resp ->]. cbn [bind].
  destruct (WebSearch.page_missing resp); eexists; reflexivity.
Qed.

Lemma web_search_directories_returns (netloc_of : string -> outcome string)
    (reply : http_reply WebSearch.Page) (max_results : Z) :
  exists l, WebSearch._search_directories netloc_of reply max_results = Returned l.
Proof.
  unfold WebSearch._search_directories.
  destruct (web_fetch_url_returns reply) as [resp ->].
  destruct (WebSearch.page_missing resp); [eexists; reflexivity |].
  destruct (WebSearch.directory_results _ _ _ _) as [restaurants [e |]];
    eexists; reflexivity.
Qed.

Lemma web_search_no_data_on_failure (netloc_of : string -> outcome string)
    (msg : string) (max_results : Z) :
  WebSearch._search_tripadvisor (ConnectionFailed msg) max_results = Returned [] /\
  WebSearch._search_michelin (ConnectionFailed msg) max_results = Returned [] /\
  WebSearch._search_directories netloc_of (ConnectionFailed msg) max_results
    = Returned [].
Proof. repeat split. Qed.

Lemma web_fetch_url_fetched (reply : http_reply WebSearch.Page) :
  exists resp,
    WebSearch._fetch_url reply = Returned resp /\
    (WebSearch.page_missing resp = true -> fetched reply = None) /\
    (WebSearch.page_missing resp = false ->
     exists page, resp = Some page /\ fetched reply = Some page).
Proof.
  unfold WebSearch._fetch_url, fetched.
  destruct reply as [msg | status_code page];
    cbn [session_get bind try_except is_RequestException fst snd].
  - eexists. split; [reflexivity |]. split; [reflexivity | discriminate].
  - destruct (status_code =? 200)%Z; cbn [andb]; eexists;
      (split; [reflexivity |]); cbn [WebSearch.page_missing].
    + destruct (truthy (WebSearch.page_text page)); cbn [negb];
        split; try discriminate; try reflexivity.
      intros _. eexists. split; reflexivity.
    + split; [reflexivity | discriminate].
Qed.

Lemma web_search_sources_spec (netloc_of : string -> outcome string)
    (reply : http_reply WebSearch.Page) (max_results : Z) :
  WebSearch._search_tripadvisor reply max_results
  = Returned
      match fetched reply with
      | Some page =>
          WebSearch.tripadvisor_links max_results [] (WebSearch.page_links page)
      | None => []
      end /\
  WebSearch._search_michelin reply max_results
  = Returned
      match fetched reply with
      | Some page =>
          WebSearch.michelin_links max_results [] (WebSearch.page_links page)
      | None => []
      end /\
  WebSearch._search_directories netloc_of reply max_results
  = Returned
      match fetched reply with
      | Some page =>
          fst (WebSearch.directory_results netloc_of max_results []
                 (WebSearch.page_results page))
      | None => []
      end.
Proof.
  unfold WebSearch._search_tripadvisor, WebSearch._search_michelin,
    WebSearch._search_directories.
  destruct (web_fetch_url_fetched reply) as (resp & -> & Hmissing & Hpage).
  cbn [bind try_except].
  destruct (WebSearch.page_missing resp).
  - rewrite (Hmissing eq_refl). repeat split.
  - destruct (Hpage eq_refl) as (page & -> & ->). cbn [bind try_except].
    repeat split.
    destruct (WebSearch.directory_results _ _ _ _) as [restaurants [e |]];
      reflexivity.
Qed.

Example web_directories_keeps_records_before_exception :
  WebSearch._search_directories rejecting_brackets (Responded 200 two_results) 30
  = Returned [set_website (WebSearch.from_source "Cafe A" "web_search")
                "https://cafe-a.example/"].
Proof. vm_compute. reflexivity. Qed.

(** *** Google Places *)

Lemma google_paginate_raises (fuel : nat) (provider : GooglePlaces.search_provider)
    (max_results : Z) (n : nat) (pagetoken : option string)
    (restaurants : list Restaurant) (next_page_token : option string) (e : exn) :
  (Z.of_nat (List.length restaurants) < max_results)%Z ->
  GooglePlaces.fetch_json
    (provider n (if truthy next_page_token then next_page_token else pagetoken))
    = Raised e ->
  GooglePlaces.paginate_loop (S fuel) provider max_results n pagetoken
    restaurants next_page_token = Some (Raised e).
Proof.
  intros Hroom Hfetch. cbn [GooglePlaces.paginate_loop].
  destruct (Z.ltb_spec (Z.of_nat (List.length restaurants)) max_results); [| lia].
  now rewrite Hfetch.
Qed.

Lemma google_fetch_json_failures {Data} :
  (forall msg, GooglePlaces.fetch_json (@ConnectionFailed (option Data) msg)
               = Raised (RequestException msg)) /\
  (forall status_code body,
     (400 <= status_code < 600)%Z ->
     GooglePlaces.fetch_json (@Responded (option Data) status_code body)
     = Raised (HTTPError status_code)) /\
  (forall status_code,
     (status_code < 400 \/ 600 <= status_code)%Z ->
     GooglePlaces.fetch_json (@Responded (option Data) status_code None)
     = Raised JSONDecodeError).
Proof.
  unfold GooglePlaces.fetch_json, raise_for_status. repeat split.
  - intros status_code body H. cbn [session_get bind fst].
    destruct (Z.leb_spec 400 status_code); [| lia].
    destruct (Z.ltb_spec status_code 600); [| lia]. reflexivity.
  - intros status_code H. cbn [session_get bind fst snd].
    destruct (Z.leb_spec 400 status_code);
      destruct (Z.ltb_spec status_code 600); try lia; reflexivity.
Qed.

(** C4, where it holds and where it fails.  The Yelp and web-search
    adapters catch a transport failure or an error status on a page
    request and treat it as no data from that step.  The Yelp search never
    raises and returns the records of the pages before the failure, cut at
    [max_results].  In the web search, a request that fails in transport,
    comes back with a status other than 200 or with an empty text yields no
    record from its source, a URL that cannot be parsed ends the directory
    source with the records it had, and the search never raises: it returns
    what the three sources yield, put together.  The Google Places adapter
    does not catch: when a page request fails in transport, comes back with
    an HTTP error status or with a body that is not JSON, the exception
    leaves [_paginate_search], whatever it had accumulated. *)
Theorem adapters_failure_semantics
    (yelp : Yelp.search_provider) (max_results : Z) (fuel : nat)
    (netloc_of : string -> outcome string)
    (tripadvisor michelin directories : http_reply WebSearch.Page) :
  Z.to_nat max_results <= fuel ->
  (* Yelp *)
  Yelp.search_restaurants fuel yelp max_results =
    Some (Returned
            (firstn (Z.to_nat max_results)
               (List.concat
                  (pages_before_failure yelp 0 (Z.to_nat max_results))))) /\
  (* web search *)
  (exists from_tripadvisor from_michelin from_directories,
     WebSearch._search_tripadvisor tripadvisor max_results
       = Returned from_tripadvisor /\
     WebSearch._search_michelin michelin max_results = Returned from_michelin /\
     WebSearch._search_directories netloc_of directories max_results
       = Returned from_directories /\
     (fetched tripadvisor = None -> from_tripadvisor = []) /\
     (fetched michelin = None -> from_michelin = []) /\
     (fetched directories = None -> from_directories = []) /\
     (forall page,
        fetched directories = Some page ->
        from_directories
        = fst (WebSearch.directory_results netloc_of max_results []
                 (WebSearch.page_results page))) /\
     WebSearch.search_restaurants netloc_of tripadvisor michelin directories
       max_results
     = Returned
         (list_slice_to
            (fold_left (WebSearch.add_source max_results)
               [from_tripadvisor; from_michelin; from_directories] [])
            max_results)) /\
  (forall msg, fetched (ConnectionFailed msg) = None) /\
  (forall status_code page,
     status_code <> 200%Z -> fetched (Responded status_code page) = None) /\
  (* Google Places *)
  (forall google_fuel google n pagetoken restaurants next_page_token e,
     (Z.of_nat (List.length restaurants) < max_results)%Z ->
     GooglePlaces.fetch_json
       (google n (if truthy next_page_token then next_page_token else pagetoken))
       = Raised e ->
     GooglePlaces.paginate_loop (S google_fuel) google max_results n pagetoken
       restaurants next_page_token = Some (Raised e)) /\
  (forall msg,
     GooglePlaces.fetch_json (@ConnectionFailed (option GooglePlaces.SearchData) msg)
     = Raised (RequestException msg)) /\
  (forall status_code body,
     (400 <= status_code < 600)%Z ->
     GooglePlaces.fetch_json
       (@Responded (option GooglePlaces.SearchData) status_code body)
     = Raised (HTTPError status_code)) /\
  (forall status_code,
     (status_code < 400 \/ 600 <= status_code)%Z ->
     GooglePlaces.fetch_json
       (@Responded (option GooglePlaces.SearchData) status_code None)
     = Raised JSONDecodeError).
Proof.
  intros Hfuel. split; [| split; [| split; [| split; [| split]]]].
  - unfold Yelp.search_restaurants.
    rewrite yelp_search_loop_spec; cbn [List.length app]; [| lia | lia].
    do 2 f_equal. apply pages_before_failure_enough; lia.
  - unfold WebSearch.search_restaurants.
    destruct (web_search_sources_spec netloc_of tripadvisor max_results)
      as (E1 & _ & _).
    destruct (web_search_sources_spec netloc_of michelin max_results)
      as (_ & E2 & _).
    destruct (web_search_sources_spec netloc_of directories max_results)
      as (_ & _ & E3).
    rewrite E1, E2, E3. cbn [bind].
    do 3 eexists. repeat split.
    + intros ->. reflexivity.
    + intros ->. reflexivity.
    + intros ->. reflexivity.
    + intros page ->. reflexivity.
  - reflexivity.
  - intros status_code page Hstatus. cbn [fetched].
    destruct (Z.eqb_spec status_code 200); [contradiction | reflexivity].
  - intros google_fuel google n pagetoken restaurants next_page_token e.
    apply google_paginate_raises.
  - apply google_fetch_json_failures.
Qed.

Lemma adapters_failure_semantics_witness :
  Yelp.search_restaurants 20 yelp_failing_second_page 20 =
    Some (Returned [named "Cafe A"; named "Cafe B"]) /\
  WebSearch.search_restaurants sample_urlparse
    (Responded 503 two_results) (ConnectionFailed "timed out")
    (Responded 200 two_results) 20
  = Returned
      [set_website (WebSearch.from_source "Cafe A" "web_search")
         "https://cafe-a.example/"] /\
  GooglePlaces._paginate_search 2 failing_second_page 20 =
    Some (Raised (RequestException "Read timed out")).
Proof.
  pose proof (adapters_failure_semantics yelp_failing_second_page 20 20
                sample_urlparse
                (Responded 503 two_results) (ConnectionFailed "timed out")
                (Responded 200 two_results)) as H.
  assert (Hfuel : Z.to_nat 20 <= 20) by (vm_compute; lia).
  destruct (H Hfuel)
    as (Hyelp & Hweb & _ & _ & Hgoogle & Hfail & _).
  split; [| split].
  - rewrite Hyelp. vm_compute. reflexivity.
  - destruct Hweb as (l1 & l2 & l3 & _ & _ & _ & H1 & H2 & _ & H3 & ->).
    rewrite (H1 eq_refl), (H2 eq_refl), (H3 two_results eq_refl).
    vm_compute. reflexivity.
  - unfold GooglePlaces._paginate_search.
    cbn [GooglePlaces.paginate_loop List.length Z.of_nat Z.ltb Z.compare].
    cbv beta iota zeta.
    apply (Hgoogle 0 failing_second_page 1 None
             (append_up_to 20
                [] (map GooglePlaces._parse_basic [sample_place]))
             (Some "token") (RequestException "Read timed out")).
    + vm_compute. reflexivity.
    + apply Hfail.
Defined.

(** C4, as stated, fails for the Google Places adapter: the connection
    fails on the second page request and the search raises instead of
    returning the record of the first page. *)
Lemma google_search_raises_on_second_page :
  GooglePlaces._paginate_search 2 failing_second_page 20 =
    Some (Raised (RequestException "Read timed out")) /\
  (forall fuel l,
     GooglePlaces._paginate_search fuel failing_second_page 20 <> Some (Returned l)).
Proof.
  split.
  - vm_compute. reflexivity.
  - intros [| [| fuel]] l; vm_compute; discriminate.
Qed.

(** *** Pagination of the Google Places search *)

Lemma google_paginate_loop_endless (max_results : Z) (fuel : nat) :
  (0 < max_results)%Z ->
  forall n pagetoken next_page_token,
    GooglePlaces.paginate_loop fuel endless_empty_pages max_results n pagetoken
      [] next_page_token = None.
Proof.
  intros Hmax. induction fuel as [| fuel IH]; intros n pagetoken next_page_token;
    cbn [GooglePlaces.paginate_loop List.length Z.of_nat];
    destruct (Z.ltb_spec 0 max_results); try lia.
  - reflexivity.
  - cbn. apply IH.
Qed.

(** C5, on the failing input.  Against a provider whose every page has
    status OK, no result and a continuation token, [_paginate_search] with
    a positive [max_results] does not return, whatever the fuel. *)
Theorem google_paginate_endless_on_empty_pages (p : positive) (fuel : nat) :
  GooglePlaces._paginate_search fuel endless_empty_pages (Z.pos p) = None.
Proof.
  unfold GooglePlaces._paginate_search.
  apply google_paginate_loop_endless. lia.
Qed.

(** What the loop does get right: the bound, and the two ways out. *)
Lemma google_paginate_loop_bound (provider : GooglePlaces.search_provider)
    (max_results : Z) (fuel : nat) :
  forall n pagetoken restaurants next_page_token l,
    GooglePlaces.paginate_loop fuel provider max_results n pagetoken
      restaurants next_page_token = Some (Returned l) ->
    (Z.of_nat (List.length l)
     <= Z.max max_results (Z.of_nat (List.length restaurants)))%Z.
Proof.
  induction fuel as [| fuel IH];
    intros n pagetoken restaurants next_page_token l;
    cbn [GooglePlaces.paginate_loop];
    destruct (Z.ltb_spec (Z.of_nat (List.length restaurants)) max_results)
      as [Hroom | Hfull];
    try discriminate;
    try (intros H; injection H as <-; lia).
  destruct (GooglePlaces.fetch_json _) as [data | e]; [| discriminate].
  pose proof (append_up_to_length max_results restaurants
                (map GooglePlaces._parse_basic
                   (get_default (GooglePlaces.s_results data) []))) as [_ Hb].
  destruct (GooglePlaces.status_not_in _ _).
  - intros H; injection H as <-; lia.
  - destruct (negb _).
    + intros H; injection H as <-; lia.
    + intros H. apply IH in H. lia.
Qed.

Lemma google_paginate_at_most_max (provider : GooglePlaces.search_provider)
    (max_results : Z) (fuel : nat) (l : list Restaurant) :
  GooglePlaces._paginate_search fuel provider max_results = Some (Returned l) ->
  (Z.of_nat (List.length l) <= Z.max 0 max_results)%Z.
Proof.
  intros H. apply google_paginate_loop_bound in H. cbn [List.length Z.of_nat] in H.
  lia.
Qed.

Lemma google_paginate_stops_on_status (provider : GooglePlaces.search_provider)
    (max_results : Z) (fuel n : nat) (pagetoken next_page_token : option string)
    (restaurants : list Restaurant) (data : GooglePlaces.SearchData) :
  (Z.of_nat (List.length restaurants) < max_results)%Z ->
  GooglePlaces.fetch_json
    (provider n (if truthy next_page_token then next_page_token else pagetoken))
    = Returned data ->
  GooglePlaces.status_not_in (GooglePlaces.s_status data) ["OK"; "ZERO_RESULTS"]
    = true ->
  GooglePlaces.paginate_loop (S fuel) provider max_results n pagetoken
    restaurants next_page_token = Some (Returned restaurants).
Proof.
  intros Hroom Hfetch Hstatus. cbn [GooglePlaces.paginate_loop].
  destruct (Z.ltb_spec (Z.of_nat (List.length restaurants)) max_results); [| lia].
  now rewrite Hfetch, Hstatus.
Qed.

Lemma google_paginate_stops_without_token (provider : GooglePlaces.search_provider)
    (max_results : Z) (fuel n : nat) (pagetoken next_page_token : option string)
    (restaurants : list Restaurant) (data : GooglePlaces.SearchData) :
  (Z.of_nat (List.length restaurants) < max_results)%Z ->
  GooglePlaces.fetch_json
    (provider n (if truthy next_page_token then next_page_token else pagetoken))
    = Returned data ->
  GooglePlaces.status_not_in (GooglePlaces.s_status data) ["OK"; "ZERO_RESULTS"]
    = false ->
  truthy (GooglePlaces.s_next_page_token data) = false ->
  GooglePlaces.paginate_loop (S fuel) provider max_results n pagetoken
    restaurants next_page_token =
  Some (Returned
          (append_up_to max_results restaurants
             (map GooglePlaces._parse_basic
                (get_default (GooglePlaces.s_results data) [])))).
Proof.
  intros Hroom Hfetch Hstatus Htoken. cbn [GooglePlaces.paginate_loop].
  destruct (Z.ltb_spec (Z.of_nat (List.length restaurants)) max_results); [| lia].
  now rewrite Hfetch, Hstatus, Htoken.
Qed.

Lemma google_paginate_loop_terminates (provider : GooglePlaces.search_provider)
    (max_results : Z) (fuel : nat) :
  continuing_pages_nonempty provider ->
  forall n pagetoken restaurants next_page_token,
    Z.to_nat max_results - List.length restaurants <= fuel ->
    GooglePlaces.paginate_loop fuel provider max_results n pagetoken
      restaurants next_page_token <> None.
Proof.
  intros Hpages. induction fuel as [| fuel IH];
    intros n pagetoken restaurants next_page_token Hfuel;
    cbn [GooglePlaces.paginate_loop];
    destruct (Z.ltb_spec (Z.of_nat (List.length restaurants)) max_results)
      as [Hroom | Hfull];
    try discriminate; try lia.
  destruct (GooglePlaces.fetch_json _) as [data | e] eqn:Hfetch; [| discriminate].
  destruct (GooglePlaces.status_not_in _ _) eqn:Hstatus; [discriminate |].
  destruct (truthy (GooglePlaces.s_next_page_token data)) eqn:Htoken;
    cbn [negb]; [| discriminate].
  apply IH.
  pose proof (Hpages _ _ _ Hfetch Hstatus Htoken) as Hnonempty.
  assert (Hmap : map GooglePlaces._parse_basic
                   (get_default (GooglePlaces.s_results data) []) <> []).
  { destruct (get_default (GooglePlaces.s_results data) []);
      [congruence | discriminate]. }
  pose proof (append_up_to_grows max_results restaurants _ Hroom Hmap). lia.
Qed.

(** With such a provider the search returns, and returns at most
    [max_results] records, even if every page carries a token. *)
Lemma google_paginate_terminates (provider : GooglePlaces.search_provider)
    (max_results : Z) (fuel : nat) :
  continuing_pages_nonempty provider ->
  Z.to_nat max_results <= fuel ->
  exists result,
    GooglePlaces._paginate_search fuel provider max_results = Some result /\
    forall l, result = Returned l ->
              (Z.of_nat (List.length l) <= Z.max 0 max_results)%Z.
Proof.
  intros Hpages Hfuel.
  destruct (GooglePlaces._paginate_search fuel provider max_results)
    as [result |] eqn:E.
  - exists result. split; [reflexivity |]. intros l ->.
    now apply (google_paginate_at_most_max provider max_results fuel).
  - exfalso. revert E. apply google_paginate_loop_terminates; [assumption |].
    cbn [List.length]. lia.
Qed.

(* ================================================================== *)
(** ** Enrichment: email extraction *)
(* ================================================================== *)

Lemma first_mailto_find (hrefs : list string) :
  WebsiteScraper.first_mailto hrefs =
  option_map WebsiteScraper.mailto_target (find valid_mailto hrefs).
Proof.
  induction hrefs as [| href hrefs IH]; cbn [WebsiteScraper.first_mailto find].
  - reflexivity.
  - unfold valid_mailto at 1.
    destruct (startswith href "mailto:"); cbn [andb]; [| exact IH].
    destruct (WebsiteScraper.EMAIL_RE_match (WebsiteScraper.mailto_target href));
      [reflexivity | exact IH].
Qed.

Lemma head_filter_find {A} (p : A -> bool) (l : list A) :
  match filter p l with
  | x :: _ => Some x
  | [] => None
  end = find p l.
Proof.
  induction l as [| a l IH]; cbn [filter find].
  - reflexivity.
  - destruct (p a); [reflexivity | exact IH].
Qed.

(** Where "www." occurs in the host at its start only, or not at all,
    removing every occurrence is stripping the leading one. *)
Lemma replace_absent (old new s : string) :
  contains old s = false -> replace s old new = s.
Proof.
  unfold replace. induction s as [| c s IH]; intros H.
  - reflexivity.
  - cbn [contains] in H. apply orb_false_iff in H. destruct H as [Hp Hc].
    cbn [replace_from]. rewrite Hp, IH by exact Hc. reflexivity.
Qed.

Lemma replace_from_skip (old new : string) (s : string) :
  forall k, replace_from old new k s
            = replace_from old new 0 (WebsiteScraper.drop k s).
Proof.
  induction s as [| c s IH]; intros [| k]; try reflexivity.
  cbn [replace_from WebsiteScraper.drop]. apply IH.
Qed.

Lemma replace_www_leading_only (netloc : string) :
  contains "www." (strip_leading_www netloc) = false ->
  replace netloc "www." "" = strip_leading_www netloc.
Proof.
  unfold strip_leading_www, startswith.
  destruct (String.prefix "www." netloc) eqn:Hp; intros H.
  - destruct netloc as [| c s]; [discriminate Hp |].
    unfold replace. cbn [replace_from]. rewrite Hp.
    cbn [String.length Nat.sub String.append].
    rewrite replace_from_skip. apply (replace_absent "www." ""). exact H.
  - now apply replace_absent.
Qed.

Lemma first_such_find {A} (p : A -> bool) (l : list A) (x : A) :
  first_such p l x -> find p l = Some x.
Proof.
  intros (before & after & -> & Hbefore & Hx).
  induction Hbefore as [| y before Hy _ IH]; cbn [app find].
  - now rewrite Hx.
  - now rewrite Hy.
Qed.

Lemma find_none_Forall {A} (p : A -> bool) (l : list A) :
  Forall (fun y => p y = false) l -> find p l = None.
Proof.
  induction 1 as [| y l Hy _ IH]; cbn [find]; [reflexivity |]. now rewrite Hy.
Qed.

Lemma extract_email_find (text html netloc : string) (hrefs : list string) :
  WebsiteScraper._extract_email text html netloc hrefs =
    match find valid_mailto hrefs with
    | Some href => WebsiteScraper.mailto_target href
    | None => preferred (replace netloc "www." "")
                        (plain_text_candidates text html)
    end.
Proof.
  unfold WebsiteScraper._extract_email. rewrite first_mailto_find.
  destruct (find valid_mailto hrefs) as [href |]; cbn [option_map];
    [reflexivity |].
  unfold preferred. fold (plain_text_candidates text html).
  change (fun e => negb (existsb (endswith e) WebsiteScraper.image_suffixes))
    with (fun e => negb (image_name e)).
  fold (plain_text_candidates text html).
  rewrite <- head_filter_find.
  destruct (filter _ (plain_text_candidates text html)); [| reflexivity].
  destruct (plain_text_candidates text html); reflexivity.
Qed.

(** C6, where it holds.  The target of the first valid [mailto:] link
    wins, whatever text and markup hold.  Without a valid link, the
    candidates are the email-shaped substrings of text and markup that do
    not end in an image extension; the first candidate that contains the
    domain the code looks for is returned, the first candidate when none
    contains it, and the empty text when there is no candidate.  The domain
    the code looks for is the host without its leading "www." whenever
    "www." does not occur in the host after that.  The email step of the
    enrichment assigns the result when the record has no email address and
    leaves the record alone otherwise. *)
Theorem extract_email_precedence
    (text html netloc : string) (hrefs : list string) (r : Restaurant) :
  let result := WebsiteScraper._extract_email text html netloc hrefs in
  let candidates := plain_text_candidates text html in
  let domain := replace netloc "www." "" in
  (forall href,
     first_such valid_mailto hrefs href ->
     result = WebsiteScraper.mailto_target href) /\
  (Forall (fun href => valid_mailto href = false) hrefs ->
   (forall e, first_such (contains domain) candidates e -> result = e) /\
   (Forall (fun e => contains domain e = false) candidates ->
    result = hd "" candidates) /\
   (candidates = [] -> result = "")) /\
  (forall e,
     In e candidates <->
     In e (WebsiteScraper.EMAIL_RE_findall (text ++ " " ++ html)) /\
     image_name e = false) /\
  (contains "www." (strip_leading_www netloc) = false ->
   domain = strip_leading_www netloc) /\
  (email_address r = "" ->
   email_address (WebsiteScraper.enrich_email r text html netloc hrefs)
   = result) /\
  (email_address r <> "" ->
   WebsiteScraper.enrich_email r text html netloc hrefs = r).
Proof.
  cbv zeta. rewrite extract_email_find.
  split; [| split; [| split; [| split; [| split]]]].
  - intros href Hfirst. now rewrite (first_such_find _ _ _ Hfirst).
  - intros Hnone. rewrite (find_none_Forall _ _ Hnone). unfold preferred.
    split; [| split].
    + intros e Hfirst. now rewrite (first_such_find _ _ _ Hfirst).
    + intros Hall. now rewrite (find_none_Forall _ _ Hall).
    + intros ->. reflexivity.
  - intros e. unfold plain_text_candidates. rewrite filter_In.
    rewrite negb_true_iff. reflexivity.
  - apply replace_www_leading_only.
  - intros Hempty. unfold WebsiteScraper.enrich_email. rewrite Hempty.
    cbn [truthy Truthy_str negb set_email_address email_address].
    apply extract_email_find.
  - intros Hfilled. unfold WebsiteScraper.enrich_email.
    destruct (email_address r); [congruence | reflexivity].
Qed.

Lemma extract_email_precedence_witness :
  WebsiteScraper._extract_email
    "Contact us: info@other.com"
    "<a href='mailto:jane@site.com'>mail</a> info@other.com"
    "www.site.com"
    ["/menu"; "mailto:jane@site.com"]
  = "jane@site.com" /\
  WebsiteScraper._extract_email
    "Press: pr@agency.com  Bookings: table@site.com"
    "<img src='logo@2x.png'>"
    "www.site.com"
    []
  = "table@site.com".
Proof.
  split.
  - apply (proj1 (extract_email_precedence
                    "Contact us: info@other.com"
                    "<a href='mailto:jane@site.com'>mail</a> info@other.com"
                    "www.site.com"
                    ["/menu"; "mailto:jane@site.com"] empty_restaurant)
             "mailto:jane@site.com").
    exists ["/menu"], []. repeat split. repeat constructor.
  - destruct (extract_email_precedence
                "Press: pr@agency.com  Bookings: table@site.com"
                "<img src='logo@2x.png'>"
                "www.site.com"
                [] empty_restaurant)
      as (_ & Hplain & _).
    destruct (Hplain (Forall_nil _)) as (Hfirst & _).
    apply Hfirst.
    exists ["pr@agency.com"], []. repeat split. repeat constructor.
Defined.

(** The two examples of the specification. *)
Example extract_email_prefers_mailto :
  WebsiteScraper._extract_email
    "Contact us: info@other.com"
    "<a href='mailto:jane@site.com'>mail</a> info@other.com"
    "www.site.com"
    ["/menu"; "mailto:jane@site.com"]
  = "jane@site.com".
Proof. vm_compute. reflexivity. Qed.

Example extract_email_prefers_site_domain :
  WebsiteScraper._extract_email
    "Press: pr@agency.com  Bookings: table@site.com"
    "<img src='logo@2x.png'>"
    "www.site.com"
    []
  = "table@site.com".
Proof. vm_compute. reflexivity. Qed.

(** C6, as stated, fails on a host that has "www." after its start: the
    code removes every occurrence, looks for the domain "bestcom", and
    returns the first address although a later one contains the site's
    domain "bestwww.com". *)
Lemma extract_email_inner_www :
  let netloc := "www.bestwww.com" in
  let text := "Press: pr@agency.com  Bookings: table@bestwww.com" in
  strip_leading_www netloc = "bestwww.com" /\
  plain_text_candidates text "" = ["pr@agency.com"; "table@bestwww.com"] /\
  preferred (strip_leading_www netloc) (plain_text_candidates text "")
    = "table@bestwww.com" /\
  WebsiteScraper._extract_email text "" netloc [] = "pr@agency.com" /\
  WebsiteScraper._extract_email text "" netloc []
    <> preferred (strip_leading_www netloc) (plain_text_candidates text "").
Proof.
  cbv zeta. repeat split; try (vm_compute; reflexivity).
  vm_compute. discriminate.
Qed.

(* ================================================================== *)
(** ** Bulk export: [push_restaurants] *)
(* ================================================================== *)

Lemma create_batch_returns (netloc_of : string -> outcome string)
    (reply_to : HubSpot.Payload -> http_reply HubSpot.Body)
    (batch : list Restaurant) (inputs : HubSpot.Payload) :
  HubSpot.inputs_of netloc_of batch = Returned inputs ->
  exists batch_result,
    HubSpot._create_batch netloc_of reply_to batch = Returned batch_result.
Proof.
  intros Hinputs. unfold HubSpot._create_batch. rewrite Hinputs. cbn [bind].
  destruct (reply_to _) as [msg | status_code body];
    cbn [session_post session_get bind try_except is_RequestException fst snd].
  - eexists. reflexivity.
  - destruct (status_code =? 201)%Z;
      [| destruct (status_code =? 207)%Z];
      try destruct (HubSpot.parsed body);
      eexists; reflexivity.
Qed.

(** C7.  For each batch [push_restaurants] sends, the running summary
    grows by the summary of the batch, and that summary is: on HTTP 201,
    the number of returned results as created; on HTTP 207, the number of
    results as created, the number of errors as failed and one message per
    returned error; on any other status, and on a transport exception, the
    size of the batch as failed with exactly one message.  A batch is sent
    when its payload could be built; when [urlparse] raises on the website
    of one of its records no request is made and the exception leaves
    [_create_batch] and the loop.  A 207 response with 7 results and 3
    errors to a batch of 10 gives created 7, failed 3 and 3 messages. *)
Theorem push_batch_accounting (netloc_of : string -> outcome string)
    (provider : HubSpot.crm_provider) (restaurants : list Restaurant)
    (batch_size : Z) (st : HubSpot.PushState) (i : Z) :
  let batch := HubSpot.slice restaurants i (i + batch_size) in
  match HubSpot.inputs_of netloc_of batch with
  | Raised e =>
      HubSpot._create_batch netloc_of (provider (HubSpot.requests st)) batch
        = Raised e /\
      HubSpot.push_batch netloc_of provider restaurants batch_size st i
        = Raised e
  | Returned inputs =>
      let reply := provider (HubSpot.requests st) inputs in
      (exists batch_result st',
         HubSpot._create_batch netloc_of (provider (HubSpot.requests st)) batch
           = Returned batch_result /\
         HubSpot.push_batch netloc_of provider restaurants batch_size st i
           = Returned st' /\
         HubSpot.created (HubSpot.results st')
           = (HubSpot.created (HubSpot.results st)
              + HubSpot.created batch_result)%Z /\
         HubSpot.failed (HubSpot.results st')
           = (HubSpot.failed (HubSpot.results st)
              + HubSpot.failed batch_result)%Z /\
         HubSpot.errors (HubSpot.results st')
           = HubSpot.errors (HubSpot.results st) ++ HubSpot.errors batch_result) /\
      (forall body data,
         reply = Responded 201 body -> HubSpot.parsed body = Some data ->
         HubSpot._create_batch netloc_of (provider (HubSpot.requests st)) batch
         = Returned (HubSpot.mkSummary
                       (HubSpot.len (get_default (HubSpot.b_results data) []))
                       0 [])) /\
      (forall body data,
         reply = Responded 207 body -> HubSpot.parsed body = Some data ->
         exists messages,
           HubSpot._create_batch netloc_of (provider (HubSpot.requests st)) batch
           = Returned (HubSpot.mkSummary
                         (HubSpot.len (get_default (HubSpot.b_results data) []))
                         (HubSpot.len (get_default (HubSpot.b_errors data) []))
                         messages) /\
           messages
           = map (fun err =>
                    get_default (HubSpot.e_message err) (HubSpot.e_str err))
                 (get_default (HubSpot.b_errors data) []) /\
           List.length messages
           = List.length (get_default (HubSpot.b_errors data) [])) /\
      (forall status_code body,
         reply = Responded status_code body ->
         status_code <> 201%Z -> status_code <> 207%Z ->
         exists message,
           HubSpot._create_batch netloc_of (provider (HubSpot.requests st)) batch
           = Returned (HubSpot.mkSummary 0 (HubSpot.len batch) [message])) /\
      (forall msg,
         reply = ConnectionFailed msg ->
         HubSpot._create_batch netloc_of (provider (HubSpot.requests st)) batch
         = Returned (HubSpot.mkSummary 0 (HubSpot.len batch) [msg]))
  end /\
  (exists events,
     HubSpot.push_restaurants sample_urlparse partial_success ten_records 10
     = Returned (HubSpot.mkSummary 7 3
                   ["duplicate name"; "invalid phone"; "{'status': 'error'}"],
                 events)).
Proof.
  intros batch. split; [| eexists; vm_compute; reflexivity].
  destruct (HubSpot.inputs_of netloc_of batch) as [inputs | e] eqn:Hinputs.
  2: { split.
       - unfold HubSpot._create_batch. rewrite Hinputs. reflexivity.
       - unfold HubSpot.push_batch, HubSpot._create_batch. fold batch.
         rewrite Hinputs. reflexivity. }
  intros reply.
  split; [| split; [| split; [| split]]].
  - destruct (create_batch_returns netloc_of (provider (HubSpot.requests st))
                batch inputs Hinputs)
      as [batch_result E].
    exists batch_result. unfold HubSpot.push_batch. fold batch.
    rewrite E, Hinputs. cbn [bind]. eexists. repeat split.
  - intros body data Hreply Hparsed. unfold HubSpot._create_batch.
    rewrite Hinputs. cbn [bind]. fold reply. rewrite Hreply.
    cbn [session_post session_get bind try_except fst snd Z.eqb Pos.eqb].
    rewrite Hparsed. reflexivity.
  - intros body data Hreply Hparsed. eexists.
    split; [| split; [reflexivity |]].
    + unfold HubSpot._create_batch. rewrite Hinputs. cbn [bind].
      fold reply. rewrite Hreply.
      cbn [session_post session_get bind try_except fst snd Z.eqb Pos.eqb].
      rewrite Hparsed. reflexivity.
    + apply length_map.
  - intros status_code body Hreply H201 H207. eexists.
    unfold HubSpot._create_batch. rewrite Hinputs. cbn [bind].
    fold reply. rewrite Hreply.
    cbn [session_post session_get bind try_except fst snd].
    destruct (Z.eqb_spec status_code 201); [contradiction |].
    destruct (Z.eqb_spec status_code 207); [contradiction |].
    reflexivity.
  - intros msg Hreply. unfold HubSpot._create_batch. rewrite Hinputs.
    cbn [bind]. fold reply. rewrite Hreply. reflexivity.
Qed.

Lemma push_batch_accounting_witness :
  HubSpot._create_batch sample_urlparse (partial_success 0) ten_records
  = Returned (HubSpot.mkSummary 7 3
                ["duplicate name"; "invalid phone"; "{'status': 'error'}"]) /\
  HubSpot.push_batch sample_urlparse partial_success [malformed_website] 10
    (HubSpot.mkPushState (HubSpot.mkSummary 0 0 []) [] 0) 0
  = Raised (ValueError "Invalid IPv6 URL").
Proof.
  split.
  - pose proof (proj1 (push_batch_accounting sample_urlparse partial_success
                         ten_records 10
                         (HubSpot.mkPushState (HubSpot.mkSummary 0 0 []) [] 0) 0))
      as H.
    cbv zeta in H.
    destruct (HubSpot.inputs_of sample_urlparse
                (HubSpot.slice ten_records 0 (0 + 10)))
      as [inputs | e] eqn:Hinputs; [| vm_compute in Hinputs; discriminate].
    destruct H as (_ & _ & H207 & _).
    destruct (H207 (HubSpot.mkBody "{...}"
                      (Some (HubSpot.mkBatchData
                               (Some ["c0"; "c1"; "c2"; "c3"; "c4"; "c5"; "c6"])
                               (Some [ HubSpot.mkBatchError (Some "duplicate name") "{...}";
                                       HubSpot.mkBatchError (Some "invalid phone") "{...}";
                                       HubSpot.mkBatchError None "{'status': 'error'}" ]))))
                   (HubSpot.mkBatchData
                      (Some ["c0"; "c1"; "c2"; "c3"; "c4"; "c5"; "c6"])
                      (Some [ HubSpot.mkBatchError (Some "duplicate name") "{...}";
                              HubSpot.mkBatchError (Some "invalid phone") "{...}";
                              HubSpot.mkBatchError None "{'status': 'error'}" ]))
                   eq_refl eq_refl) as (messages & E & -> & _).
    exact E.
  - exact (proj2 (proj1 (push_batch_accounting sample_urlparse partial_success
                           [malformed_website] 10
                           (HubSpot.mkPushState (HubSpot.mkSummary 0 0 []) [] 0)
                           0))).
Defined.

(** C10.  [push_restaurants] on an empty list returns created 0, failed 0
    and no error, and causes no event: no request and no sleep.  This holds
    for the default batch size and for every batch size but zero, on which
    [range] raises before the loop. *)
Theorem push_nothing (netloc_of : string -> outcome string)
    (provider : HubSpot.crm_provider) :
  HubSpot.push_restaurants netloc_of provider [] 10
    = Returned (HubSpot.mkSummary 0 0 [], []) /\
  (forall batch_size, batch_size <> 0%Z ->
     HubSpot.push_restaurants netloc_of provider [] batch_size
     = Returned (HubSpot.mkSummary 0 0 [], [])).
Proof.
  split; [reflexivity |].
  intros batch_size Hnonzero. unfold HubSpot.push_restaurants, HubSpot.range.
  destruct (Z.eqb_spec batch_size 0); [contradiction |].
  destruct (batch_size <? 0)%Z; reflexivity.
Qed.

Lemma push_nothing_witness :
  HubSpot.push_restaurants sample_urlparse partial_success [] 25
  = Returned (HubSpot.mkSummary 0 0 [], []).
Proof.
  apply (proj2 (push_nothing sample_urlparse partial_success)). lia.
Defined.

(* ================================================================== *)
(** ** CSV export *)
(* ================================================================== *)

(** C9.  [export_to_csv] writes one header row and then one row per
    record, in input order.  The header and every row have the 20 columns
    name, website, phone, email, street address, city, region, postal code,
    country, owner, category, rating, price tier, facebook, instagram,
    twitter, linkedin, tiktok, review-site URL, hours, in that order; with
    [hubspot_format] the header carries the alternate names.  An absent
    rating is written as the empty text, and no cell is [None]. *)
Theorem export_to_csv_rows (restaurants : list Restaurant) :
  CsvExporter.export_to_csv restaurants false =
    Returned
      (map VStr
         [ "venue_name"; "website"; "phone_number"; "email_address";
           "venue_address"; "city"; "state"; "zip_code"; "country";
           "venue_owner"; "cuisine_type"; "rating"; "price_level";
           "facebook"; "instagram"; "twitter"; "linkedin"; "tiktok";
           "yelp_url"; "hours_of_operation" ]
       :: map CsvExporter.row_of restaurants) /\
  CsvExporter.export_to_csv restaurants true =
    Returned
      (map VStr
         [ "Company name"; "Company domain name"; "Phone number"; "Email";
           "Street address"; "City"; "State/Region"; "Postal code";
           "Country/Region"; "Owner name"; "Industry"; "Rating"; "Price level";
           "Facebook page"; "Instagram"; "Twitter handle"; "LinkedIn page";
           "TikTok"; "Yelp URL"; "Hours of operation" ]
       :: map CsvExporter.row_of restaurants) /\
  (forall hubspot_format rows,
     CsvExporter.export_to_csv restaurants hubspot_format = Returned rows ->
     List.length rows = 1 + List.length restaurants /\
     Forall (fun row => List.length row = 20) rows) /\
  (forall r,
     CsvExporter.row_of r =
       [ VStr (venue_name r); VStr (website r); VStr (phone_number r);
         VStr (email_address r); VStr (venue_address r); VStr (city r);
         VStr (state r); VStr (zip_code r); VStr (country r);
         VStr (venue_owner r); VStr (cuisine_type r);
         match rating r with Some x => VFloat x | None => VStr "" end;
         VStr (price_level r); VStr (facebook r); VStr (instagram r);
         VStr (twitter r); VStr (linkedin r); VStr (tiktok r);
         VStr (yelp_url r); VStr (hours_of_operation r) ] /\
     Forall (fun cell => cell <> VNone) (CsvExporter.row_of r)) /\
  (forall data,
     CsvExporter.row_of_dict data
     = map (fun col => rendered (CsvExporter.lookup data col))
           CsvExporter.CSV_COLUMNS /\
     Forall (fun cell => cell <> VNone) (CsvExporter.row_of_dict data)).
Proof.
  assert (Hrow : forall r,
     CsvExporter.row_of r =
       [ VStr (venue_name r); VStr (website r); VStr (phone_number r);
         VStr (email_address r); VStr (venue_address r); VStr (city r);
         VStr (state r); VStr (zip_code r); VStr (country r);
         VStr (venue_owner r); VStr (cuisine_type r);
         match rating r with Some x => VFloat x | None => VStr "" end;
         VStr (price_level r); VStr (facebook r); VStr (instagram r);
         VStr (twitter r); VStr (linkedin r); VStr (tiktok r);
         VStr (yelp_url r); VStr (hours_of_operation r) ]).
  { intros r. unfold CsvExporter.row_of, to_dict. cbn.
    destruct (rating r); reflexivity. }
  split; [reflexivity |]. split; [reflexivity |]. split.
  - intros hubspot_format rows H.
    destruct hubspot_format; cbn in H; injection H as <-;
      (split; [cbn [List.length]; now rewrite length_map |]);
      (constructor; [reflexivity |]);
      apply Forall_forall; intros row Hin;
      apply in_map_iff in Hin; destruct Hin as (r & <- & _);
      now rewrite Hrow.
  - split.
    + intros r. split; [apply Hrow |].
      rewrite Hrow. repeat constructor; try discriminate.
      destruct (rating r); discriminate.
    + intros data.
      assert (Hdict : CsvExporter.row_of_dict data
                      = map (fun col => rendered (CsvExporter.lookup data col))
                            CsvExporter.CSV_COLUMNS).
      { unfold CsvExporter.row_of_dict. rewrite map_map.
        apply map_ext. intros col. unfold rendered.
        destruct (CsvExporter.lookup data col) as [[] |]; reflexivity. }
      split; [exact Hdict |].
      rewrite Hdict. apply Forall_forall. intros cell Hin.
      apply in_map_iff in Hin. destruct Hin as (col & <- & _).
      unfold rendered.
      destruct (CsvExporter.lookup data col) as [[] |]; discriminate.
Qed.

Lemma export_to_csv_rows_witness :
  List.length
    (match CsvExporter.export_to_csv [named "Cafe A"; named "Cafe B"] true with
     | Returned rows => rows
     | Raised _ => []
     end) = 3.
Proof.
  destruct (export_to_csv_rows [named "Cafe A"; named "Cafe B"])
    as (_ & Htrue & Hshape & _ & _).
  rewrite Htrue.
  exact (proj1 (Hshape true _ Htrue)).
Defined.

(* ================================================================== *)
(** * Further properties of the package *)
(* ================================================================== *)

(** ** Texts: prefixes, occurrences and [split] *)

Lemma prefix_nil (s : string) : String.prefix "" s = true.
Proof. destruct s; reflexivity. Qed.

Lemma prefix_cons (a b : ascii) (p t : string) :
  String.prefix (String a p) (String b t) = true <->
  a = b /\ String.prefix p t = true.
Proof.
  cbn. destruct (Ascii.ascii_dec a b) as [-> | Hne].
  - tauto.
  - split; [discriminate | intros [E _]; contradiction].
Qed.

Lemma prefix_refl (s : string) : String.prefix s s = true.
Proof.
  induction s as [| c s IH]; [reflexivity |]. apply prefix_cons. tauto.
Qed.

Lemma prefix_trans (a b c : string) :
  String.prefix a b = true -> String.prefix b c = true ->
  String.prefix a c = true.
Proof.
  revert b c. induction a as [| x a IH]; intros b c Hab Hbc; [apply prefix_nil |].
  destruct b as [| y b]; [discriminate |].
  destruct c as [| z c]; [discriminate |].
  apply prefix_cons in Hab as [-> Hab]. apply prefix_cons in Hbc as [-> Hbc].
  apply prefix_cons. split; [reflexivity | exact (IH b c Hab Hbc)].
Qed.

Lemma prefix_app (a b : string) : String.prefix a (a ++ b) = true.
Proof.
  induction a as [| c a IH]; [apply prefix_nil |]. apply prefix_cons. tauto.
Qed.

Lemma contains_cons (sub : string) (c : ascii) (s : string) :
  contains sub s = true -> contains sub (String c s) = true.
Proof. intros H. cbn [contains]. rewrite H. apply orb_true_r. Qed.

Lemma contains_prefix (sub p t : string) :
  String.prefix p t = true -> contains sub p = true -> contains sub t = true.
Proof.
  revert t. induction p as [| c p IH]; intros t Hpt Hsub.
  - cbn [contains] in Hsub. rewrite orb_false_r in Hsub.
    destruct sub; [| discriminate]. destruct t; reflexivity.
  - destruct t as [| d t]; [discriminate |].
    apply prefix_cons in Hpt as [<- Hpt].
    cbn [contains] in Hsub. apply orb_true_iff in Hsub as [Hsub | Hsub].
    + cbn [contains].
      rewrite (prefix_trans sub (String c p) (String c t) Hsub);
        [reflexivity | apply prefix_cons; tauto].
    + apply contains_cons. exact (IH t Hpt Hsub).
Qed.

Lemma split_head_prefix (t sep : string) :
  String.prefix (split_head t sep) t = true.
Proof.
  induction t as [| c t IH]; cbn [split_head].
  - destruct (String.prefix sep ""); reflexivity.
  - destruct (String.prefix sep (String c t)); [apply prefix_nil |].
    apply prefix_cons. tauto.
Qed.

Lemma contains_split_head (t sep : string) :
  sep <> "" -> contains sep (split_head t sep) = false.
Proof.
  intros Hsep. destruct sep as [| a sep]; [congruence |]. clear Hsep.
  induction t as [| c t IH]; cbn [split_head].
  - destruct (String.prefix (String a sep) ""); reflexivity.
  - destruct (String.prefix (String a sep) (String c t)) eqn:Hp; [reflexivity |].
    cbn [contains]. rewrite IH, orb_false_r.
    destruct (String.prefix (String a sep) (String c (split_head t (String a sep))))
      eqn:Hq; [| reflexivity].
    rewrite <- Hp. symmetry.
    apply (prefix_trans _ _ _ Hq). apply prefix_cons. split; [reflexivity |].
    apply split_head_prefix.
Qed.

Lemma prefix_char (a c : ascii) (t : string) :
  String.prefix (String a "") (String c t) = Ascii.eqb a c.
Proof.
  destruct (Ascii.eqb_spec a c) as [-> | Hne].
  - apply prefix_cons. split; [reflexivity | apply prefix_nil].
  - destruct (String.prefix (String a "") (String c t)) eqn:E; [| reflexivity].
    apply prefix_cons in E. tauto.
Qed.

Lemma split_head_char (a c : ascii) (t : string) :
  split_head (String c t) (String a "")
  = if Ascii.eqb a c then "" else String c (split_head t (String a "")).
Proof. cbn [split_head]. rewrite prefix_char. reflexivity. Qed.

Lemma contains_char_app (a : ascii) (p t : string) :
  contains (String a "") (p ++ t)
  = contains (String a "") p || contains (String a "") t.
Proof.
  induction p as [| c p IH].
  - cbn [append contains]. destruct t; reflexivity.
  - cbn [append contains]. rewrite !prefix_char, IH. apply orb_assoc.
Qed.

Lemma split_head_absent (t sep : string) :
  contains sep t = false -> split_head t sep = t.
Proof.
  induction t as [| c t IH]; cbn [contains split_head]; intros H.
  - destruct (String.prefix sep ""); reflexivity.
  - apply orb_false_iff in H as [-> H]. rewrite (IH H). reflexivity.
Qed.

Lemma str_in_In (x : string) (l : list string) : str_in x l = true <-> In x l.
Proof.
  unfold str_in. rewrite existsb_exists. split.
  - intros (y & Hy & E). apply String.eqb_eq in E. now subst.
  - intros H. exists x. split; [exact H | apply String.eqb_refl].
Qed.

Lemma string_app_inv_head (p a b : string) :
  (p ++ a)%string = (p ++ b)%string -> a = b.
Proof.
  induction p as [| c p IH]; cbn; [tauto |]. intros H. injection H as H. auto.
Qed.

(** ** The record model and the seed files *)

(** X1.  [full_address] is the empty text exactly when the street address,
    the city, the state, the postal code and the country are all empty:
    a record with any address part has a full address, and empty parts
    leave no separator behind. *)
Theorem full_address_empty_iff (r : Restaurant) :
  SeedData.full_address r = "" <->
  venue_address r = "" /\ city r = "" /\ state r = "" /\ zip_code r = "" /\
  country r = "".
Proof.
  unfold SeedData.full_address.
  destruct (venue_address r), (city r), (state r), (zip_code r), (country r);
    cbn; split; intros H; repeat split;
    try discriminate; try reflexivity;
    try (destruct H as (H1 & H2 & H3 & H4 & H5); discriminate).
Qed.

Lemma lookup_filter_known (rec : SeedData.Dict) (key : string) :
  str_in key SeedData.field_names = true ->
  CsvExporter.lookup
    (filter (fun kv => str_in (fst kv) SeedData.field_names) rec) key
  = CsvExporter.lookup rec key.
Proof.
  intros Hkey. induction rec as [| [k v] rec IH]; [reflexivity |].
  cbn [filter fst]. destruct (str_in k SeedData.field_names) eqn:Hk.
  - cbn [CsvExporter.lookup]. rewrite IH. reflexivity.
  - cbn [CsvExporter.lookup]. rewrite IH.
    destruct (String.eqb_spec k key) as [-> |]; [congruence | reflexivity].
Qed.

Lemma find_filter_none {A} (p : A -> bool) (l : list A) :
  find (fun x => negb (p x)) (filter p l) = None.
Proof.
  induction l as [| x l IH]; [reflexivity |].
  cbn [filter]. destruct (p x) eqn:Hp; [| exact IH].
  cbn [find]. rewrite Hp. exact IH.
Qed.

Lemma field_name_known (f : Field) :
  str_in (field_name f) SeedData.field_names = true.
Proof. destruct f; reflexivity. Qed.

Lemma field_name_inj (f g : Field) : field_name f = field_name g -> f = g.
Proof. destruct f, g; cbn; intros H; try reflexivity; discriminate. Qed.

Lemma getattr_setattr_kind (r : Restaurant) (f : Field) (v : Value) :
  kind_ok f v = true -> getattr (setattr r f v) f = v.
Proof. destruct f, v; cbn; intros H; try discriminate; reflexivity. Qed.

Lemma getattr_init_loop (kwargs : SeedData.Dict) (f : Field) (l : list Field)
    (r : Restaurant) :
  NoDup l ->
  (forall v, CsvExporter.lookup kwargs (field_name f) = Some v ->
             kind_ok f v = true) ->
  getattr
    (fold_left
       (fun r f => match CsvExporter.lookup kwargs (field_name f) with
                   | Some v => setattr r f v
                   | None => r
                   end) l r) f
  = if in_dec Field_eq_dec f l
    then get_default (CsvExporter.lookup kwargs (field_name f)) (getattr r f)
    else getattr r f.
Proof.
  intros Hnd Hkind. revert r.
  induction l as [| g l IH]; intros r; [reflexivity |].
  inversion Hnd as [| ? ? Hnotin Hnd']; subst.
  cbn [fold_left]. rewrite (IH Hnd').
  destruct (in_dec Field_eq_dec f (g :: l)) as [Hin | Hout];
    destruct (in_dec Field_eq_dec f l) as [Hin' | Hout'].
  - destruct (Field_eq_dec g f) as [-> | Hne]; [contradiction |].
    destruct (CsvExporter.lookup kwargs (field_name f)); [reflexivity |].
    cbn [get_default].
    destruct (CsvExporter.lookup kwargs (field_name g));
      [apply getattr_setattr_other; exact Hne | reflexivity].
  - destruct Hin as [-> | Hin]; [| contradiction].
    destruct (CsvExporter.lookup kwargs (field_name f)) as [v |] eqn:E;
      [| reflexivity].
    cbn [get_default]. apply getattr_setattr_kind, Hkind. reflexivity.
  - exfalso. apply Hout. right. exact Hin'.
  - destruct (Field_eq_dec g f) as [-> | Hne];
      [exfalso; apply Hout; left; reflexivity |].
    destruct (CsvExporter.lookup kwargs (field_name g));
      [apply getattr_setattr_other; exact Hne | reflexivity].
Qed.

Lemma Returned_inj {A} (a b : A) : Returned a = Returned b -> a = b.
Proof. intros H. injection H. auto. Qed.

Lemma load_from_dict_returns (rec : SeedData.Dict) :
  exists r, SeedData.load_from_dict rec = Returned r.
Proof.
  unfold SeedData.load_from_dict, SeedData.Restaurant_init.
  rewrite find_filter_none. eexists. reflexivity.
Qed.

Lemma load_from_dict_getattr (rec : SeedData.Dict) (r : Restaurant) (f : Field) :
  (forall v, CsvExporter.lookup rec (field_name f) = Some v ->
             kind_ok f v = true) ->
  SeedData.load_from_dict rec = Returned r ->
  getattr r f
  = get_default (CsvExporter.lookup rec (field_name f))
      (getattr empty_restaurant f).
Proof.
  intros Hkind. unfold SeedData.load_from_dict, SeedData.Restaurant_init.
  rewrite find_filter_none. intros Hload. apply Returned_inj in Hload.
  rewrite <- Hload. rewrite getattr_init_loop.
  - destruct (in_dec Field_eq_dec f dataclass_fields) as [_ | Hout];
      [| exfalso; apply Hout, dataclass_fields_complete].
    rewrite lookup_filter_known by apply field_name_known. reflexivity.
  - apply dataclass_fields_NoDup.
  - intros v Hv. rewrite lookup_filter_known in Hv by apply field_name_known.
    exact (Hkind v Hv).
Qed.

(** X2.  [load_from_dicts] never raises on a record, whatever keys it
    holds: every field of the loaded record is the value the dict holds
    under the field's name, and the field's default when the dict has no
    such key; keys that are not fields are ignored.  The values are of the
    kind the dataclass annotates the field with. *)
Theorem load_from_dict_reads_fields (rec : SeedData.Dict) :
  (forall f v, CsvExporter.lookup rec (field_name f) = Some v ->
               kind_ok f v = true) ->
  exists r,
    SeedData.load_from_dict rec = Returned r /\
    forall f,
      getattr r f
      = get_default (CsvExporter.lookup rec (field_name f))
          (getattr empty_restaurant f).
Proof.
  intros Hkind. destruct (load_from_dict_returns rec) as [r Hload].
  exists r. split; [exact Hload |].
  intros f. apply load_from_dict_getattr; [apply Hkind | exact Hload].
Qed.

Lemma load_from_dict_reads_fields_witness :
  exists r,
    SeedData.load_from_dict
      [("venue_name", VStr "Luigi's"); ("menu", VStr "pasta"); ("rating", VFloat 4.5%float)]
    = Returned r /\
    forall f,
      getattr r f
      = get_default
          (CsvExporter.lookup
             [("venue_name", VStr "Luigi's"); ("menu", VStr "pasta");
              ("rating", VFloat 4.5%float)] (field_name f))
          (getattr empty_restaurant f).
Proof.
  apply (load_from_dict_reads_fields
           [("venue_name", VStr "Luigi's"); ("menu", VStr "pasta");
            ("rating", VFloat 4.5%float)]).
  intros f v. destruct f; cbn; intros H; inversion H; reflexivity.
Defined.

Lemma load_from_dict_to_dict (r : Restaurant) :
  SeedData.load_from_dict (to_dict r) = Returned r.
Proof.
  destruct r as [a1 a2 a3 a4 a5 a6 a7 a8 a9 a10 a11 o a13 a14 a15 a16 a17 a18
                 a19 a20 a21 a22].
  destruct o; reflexivity.
Qed.

(** X3.  Round trip through a seed file: the records [save_to_json]
    writes for a list of restaurants are loaded back by [load_from_dicts]
    as the same list, in the same order, without an exception. *)
Theorem seed_round_trip (restaurants : list Restaurant) :
  SeedData.load_from_dicts (SeedData.saved_records restaurants)
  = Returned restaurants.
Proof.
  unfold SeedData.load_from_dicts, SeedData.saved_records.
  induction restaurants as [| r rest IH]; [reflexivity |].
  cbn [map CsvExporter.comprehension].
  rewrite load_from_dict_to_dict. cbn [bind]. rewrite IH. reflexivity.
Qed.

Lemma lookup_to_dict (r : Restaurant) (f : Field) :
  CsvExporter.lookup (to_dict r) (field_name f) = Some (getattr r f).
Proof. destruct f; reflexivity. Qed.

(** X24.  From a seed record to its CSV row: the row [export_to_csv]
    writes for a record that [load_from_dicts] has loaded is the row read
    straight off the dict, the value under each column name and the empty
    text where the dict has no such key or holds [None].  The values are of
    the kind the dataclass annotates the field with. *)
Theorem seed_record_csv_row (rec : SeedData.Dict) (r : Restaurant) :
  (forall f v, CsvExporter.lookup rec (field_name f) = Some v ->
               kind_ok f v = true) ->
  SeedData.load_from_dict rec = Returned r ->
  CsvExporter.row_of r = CsvExporter.row_of_dict rec.
Proof.
  intros Hkind Hload.
  assert (Hfields : forall f,
            getattr r f
            = get_default (CsvExporter.lookup rec (field_name f))
                (getattr empty_restaurant f)).
  { intros f. apply load_from_dict_getattr; [apply Hkind | exact Hload]. }
  unfold CsvExporter.row_of, CsvExporter.row_of_dict.
  change CsvExporter.CSV_COLUMNS
    with (map field_name
            [ F_venue_name; F_website; F_phone_number; F_email_address;
              F_venue_address; F_city; F_state; F_zip_code; F_country;
              F_venue_owner; F_cuisine_type; F_rating; F_price_level;
              F_facebook; F_instagram; F_twitter; F_linkedin; F_tiktok;
              F_yelp_url; F_hours_of_operation ]).
  rewrite !map_map. apply map_ext. intros f.
  rewrite lookup_to_dict, Hfields. cbn [get_default].
  destruct (CsvExporter.lookup rec (field_name f)) as [v |]; [reflexivity |].
  destruct f; reflexivity.
Qed.

Lemma seed_record_csv_row_witness :
  CsvExporter.row_of
    (set_rating (set_city (named "Luigi's") "Austin") (Some 4.5%float))
  = CsvExporter.row_of_dict
      [ ("venue_name", VStr "Luigi's"); ("menu", VStr "pasta");
        ("city", VStr "Austin"); ("rating", VFloat 4.5%float);
        ("cuisine_type", VStr "") ].
Proof.
  apply (seed_record_csv_row
           [ ("venue_name", VStr "Luigi's"); ("menu", VStr "pasta");
             ("city", VStr "Austin"); ("rating", VFloat 4.5%float);
             ("cuisine_type", VStr "") ]).
  - intros f v. destruct f; cbn; intros H; inversion H; reflexivity.
  - reflexivity.
Defined.

(** ** Aggregation, once more *)

Lemma dict_contains_keyed (key : string) (rs : list Restaurant) :
  dict_contains key (map (fun r => (identity_key r, r)) rs) = true <->
  In key (map identity_key rs).
Proof.
  induction rs as [| r rs IH]; cbn [map dict_contains In].
  - split; [discriminate | tauto].
  - rewrite orb_true_iff, IH, String.eqb_eq. tauto.
Qed.

Lemma dedup_loop_distinct (rs : list Restaurant) :
  NoDup (map identity_key rs) ->
  dedup_loop rs = map (fun r => (identity_key r, r)) rs.
Proof.
  unfold dedup_loop. induction rs as [| r rs IH] using rev_ind; intros Hnodup.
  - reflexivity.
  - rewrite map_app in Hnodup. cbn [map] in Hnodup.
    apply NoDup_remove in Hnodup as [Hnodup Hout]. rewrite app_nil_r in Hnodup, Hout.
    rewrite fold_left_app. cbn [fold_left]. rewrite (IH Hnodup).
    unfold dedup_step.
    destruct (dict_contains (identity_key r) _) eqn:Hc.
    + apply dict_contains_keyed in Hc. contradiction.
    + rewrite map_app. reflexivity.
Qed.

Lemma deduplicate_distinct (rs : list Restaurant) :
  NoDup (map identity_key rs) -> _deduplicate rs = rs.
Proof.
  intros Hnodup. unfold _deduplicate. rewrite (dedup_loop_distinct rs Hnodup).
  rewrite map_map. apply map_id.
Qed.

Lemma deduplicate_keys (rs : list Restaurant) :
  map identity_key (_deduplicate rs) = first_seen (map identity_key rs).
Proof.
  unfold _deduplicate. rewrite dedup_loop_grouped. unfold grouped.
  rewrite !map_map. cbn [snd].
  rewrite <- (map_id (first_seen (map identity_key rs))) at 2.
  apply map_ext_in. intros k Hk. apply identity_key_merged_group.
  rewrite first_seen_In in Hk.
  intros E. apply same_key_nil_iff in E. exact (E Hk).
Qed.

Lemma first_seen_length (keys : list string) :
  List.length (first_seen keys) <= List.length keys.
Proof.
  induction keys as [| k keys IH]; cbn [first_seen List.length]; [lia |].
  pose proof (filter_length_le (fun k' => negb (String.eqb k' k)) (first_seen keys)).
  lia.
Qed.

(** X25.  [_deduplicate] is idempotent and never lengthens the list: a
    list that has been deduplicated is returned as it is, record for
    record and in the same order, when it is deduplicated again. *)
Theorem deduplicate_idempotent (restaurants : list Restaurant) :
  _deduplicate (_deduplicate restaurants) = _deduplicate restaurants /\
  List.length (_deduplicate restaurants) <= List.length restaurants.
Proof.
  split.
  - apply deduplicate_distinct. rewrite deduplicate_keys. apply first_seen_NoDup.
  - rewrite <- (length_map identity_key (_deduplicate restaurants)),
      deduplicate_keys.
    rewrite <- (length_map identity_key restaurants). apply first_seen_length.
Qed.

(** ** Google Places: the entry points of the search *)

(** X4.  The query [_text_search] sends always mentions restaurants: a
    location that says "restaurant" in any case is sent as it is, and any
    other location is sent after "restaurants in ". *)
Theorem google_text_query_mentions_restaurant (query : string) :
  contains "restaurant" (lower (GoogleSearch.search_query query)) = true /\
  (contains "restaurant" (lower query) = true ->
   GoogleSearch.search_query query = query) /\
  (contains "restaurant" (lower query) = false ->
   GoogleSearch.search_query query = ("restaurants in " ++ query)%string) /\
  (forall fuel api api_key max_results,
     GoogleSearch._text_search fuel api api_key query max_results
     = GooglePlaces._paginate_search fuel
         (api GoogleSearch.TEXT_SEARCH_URL
            [ ("query", GoogleSearch.search_query query);
              ("type", "restaurant"); ("key", api_key) ])
         max_results).
Proof.
  assert (Hsent : forall fuel api api_key max_results,
             GoogleSearch._text_search fuel api api_key query max_results
             = GooglePlaces._paginate_search fuel
                 (api GoogleSearch.TEXT_SEARCH_URL
                    [ ("query", GoogleSearch.search_query query);
                      ("type", "restaurant"); ("key", api_key) ])
                 max_results) by reflexivity.
  revert Hsent. generalize (GoogleSearch._text_search).
  unfold GoogleSearch.search_query.
  destruct (contains "restaurant" (lower query)) eqn:E; cbn [negb];
    intros sent Hsent.
  - split; [exact E |]. split; [reflexivity |]. split; [discriminate |].
    exact Hsent.
  - split; [rewrite lower_app; reflexivity |]. split; [discriminate |].
    split; [reflexivity |]. exact Hsent.
Qed.

Example google_text_query_samples :
  GoogleSearch.search_query "Austin, TX" = "restaurants in Austin, TX" /\
  GoogleSearch.search_query "Best RESTAURANTS Austin" = "Best RESTAURANTS Austin".
Proof. vm_compute. split; reflexivity. Qed.

Lemma split_not_nil (s : string) (sep : ascii) : GoogleSearch.split s sep <> [].
Proof.
  destruct s as [| c s]; cbn; [discriminate |].
  destruct (Ascii.eqb c sep); [discriminate |].
  destruct (GoogleSearch.split s sep); discriminate.
Qed.

Lemma split_no_sep (s : string) (sep : ascii) :
  count_char sep s = 0 -> GoogleSearch.split s sep = [s].
Proof.
  induction s as [| c s IH]; cbn; [reflexivity |].
  destruct (Ascii.eqb c sep); [discriminate |].
  intros H. rewrite (IH H). reflexivity.
Qed.

Lemma split_single (s : string) (sep : ascii) (b : string) :
  GoogleSearch.split s sep = [b] -> s = b /\ count_char sep b = 0.
Proof.
  revert b. induction s as [| c s IH]; intros b; cbn.
  - intros H. injection H as <-. split; reflexivity.
  - destruct (Ascii.eqb c sep) eqn:Ec.
    + intros H. injection H as _ H. now apply split_not_nil in H.
    + destruct (GoogleSearch.split s sep) as [| p ps] eqn:Es.
      * now apply split_not_nil in Es.
      * intros H. injection H as <- ->.
        destruct (IH p eq_refl) as [-> Hp].
        split; [reflexivity |]. cbn. rewrite Ec. exact Hp.
Qed.

Lemma split_pair (s : string) (sep : ascii) (a b : string) :
  GoogleSearch.split s sep = [a; b] ->
  s = (a ++ String sep b)%string /\ count_char sep a = 0 /\ count_char sep b = 0.
Proof.
  revert a. induction s as [| c s IH]; intros a; cbn.
  - discriminate.
  - destruct (Ascii.eqb_spec c sep) as [-> | Hc].
    + intros H. injection H as <- H. apply split_single in H as [-> Hb].
      repeat split; try reflexivity; exact Hb.
    + destruct (GoogleSearch.split s sep) as [| p ps] eqn:Es.
      * now apply split_not_nil in Es.
      * intros H. injection H as <- ->.
        destruct (IH p eq_refl) as (-> & Hp & Hb).
        repeat split; try exact Hb. cbn.
        destruct (Ascii.eqb_spec c sep); [contradiction | exact Hp].
Qed.

Lemma split_app_sep (a b : string) (sep : ascii) :
  count_char sep a = 0 -> count_char sep b = 0 ->
  GoogleSearch.split (a ++ String sep b) sep = [a; b].
Proof.
  intros Ha Hb. induction a as [| c a IH]; cbn.
  - rewrite Ascii.eqb_refl, (split_no_sep b sep Hb). reflexivity.
  - cbn in Ha. destruct (Ascii.eqb c sep); [discriminate |].
    rewrite (IH Ha). reflexivity.
Qed.

(** X5.  [_is_coordinates] accepts a location exactly when it is two
    texts around one comma, with no other comma, each of which [float]
    reads once the surrounding whitespace is stripped.  So a place name, or
    an address with two commas or more, is never taken for coordinates and
    goes to the text search. *)
Theorem google_is_coordinates_iff (float_of : string -> option float)
    (location : string) :
  GoogleSearch._is_coordinates float_of location = true <->
  exists lat lng,
    location = (lat ++ "," ++ lng)%string /\
    count_char "," lat = 0 /\ count_char "," lng = 0 /\
    (exists x, float_of (strip lat) = Some x) /\
    (exists y, float_of (strip lng) = Some y).
Proof.
  unfold GoogleSearch._is_coordinates. split.
  - destruct (GoogleSearch.split location ",") as [| a [| b [| c rest]]] eqn:Es;
      cbn [List.length Nat.eqb negb nth]; try discriminate.
    apply split_pair in Es as (-> & Ha & Hb).
    destruct (float_of (strip a)) as [x |] eqn:Ex; [| discriminate].
    destruct (float_of (strip b)) as [y |] eqn:Ey; [| discriminate].
    intros _. exists a, b. repeat split; eauto.
  - intros (lat & lng & -> & Hlat & Hlng & [x Hx] & [y Hy]).
    change ("," ++ lng)%string with (String "," lng).
    rewrite (split_app_sep lat lng "," Hlat Hlng).
    cbn [List.length Nat.eqb negb nth]. rewrite Hx, Hy. reflexivity.
Qed.

Example google_search_coordinates :
  GoogleSearch._is_coordinates sample_float_of "40.5, -74.25" = true /\
  GoogleSearch._is_coordinates sample_float_of "Austin, TX" = false /\
  GoogleSearch._is_coordinates sample_float_of "12 Main St, Austin, TX" = false /\
  GoogleSearch._is_coordinates sample_float_of "Austin" = false.
Proof. vm_compute. repeat split. Qed.

(** X6.  The Google Places search returns at most [max_results] records,
    by either entry point, and for a [max_results] of zero or less it
    returns no record without a single request. *)
Theorem google_search_at_most_max (fuel : nat) (float_of : string -> option float)
    (api : GoogleSearch.places_api) (api_key location : string)
    (radius_meters max_results : Z) :
  (forall l,
     GoogleSearch.search_restaurants fuel float_of api api_key location
       radius_meters max_results = Some (Returned l) ->
     (Z.of_nat (List.length l) <= Z.max 0 max_results)%Z) /\
  ((max_results <= 0)%Z ->
   GoogleSearch.search_restaurants fuel float_of api api_key location
     radius_meters max_results = Some (Returned [])).
Proof.
  unfold GoogleSearch.search_restaurants, GoogleSearch._nearby_search,
    GoogleSearch._text_search.
  split.
  - intros l. destruct (GoogleSearch._is_coordinates float_of location);
      apply google_paginate_at_most_max.
  - intros Hmax. unfold GooglePlaces._paginate_search.
    destruct (GoogleSearch._is_coordinates float_of location);
      destruct fuel; cbn [GooglePlaces.paginate_loop List.length Z.of_nat];
      destruct (Z.ltb_spec 0 max_results); try lia; reflexivity.
Qed.

Lemma google_search_at_most_max_witness :
  GoogleSearch.search_restaurants 0 sample_float_of sample_places_api
    "key" "Austin, TX" 5000 0 = Some (Returned []).
Proof.
  apply (proj2 (google_search_at_most_max 0 sample_float_of sample_places_api
                  "key" "Austin, TX" 5000 0)).
  lia.
Defined.

(** X7.  When every page of the Places API that carries a continuation
    token lists at least one place, the search returns or raises within
    [max_results] requests: that much fuel is enough for either entry
    point. *)
Theorem google_search_terminates (fuel : nat) (float_of : string -> option float)
    (api : GoogleSearch.places_api) (api_key location : string)
    (radius_meters max_results : Z) :
  (forall url params, continuing_pages_nonempty (api url params)) ->
  Z.to_nat max_results <= fuel ->
  exists result,
    GoogleSearch.search_restaurants fuel float_of api api_key location
      radius_meters max_results = Some result.
Proof.
  intros Hpages Hfuel.
  unfold GoogleSearch.search_restaurants, GoogleSearch._nearby_search,
    GoogleSearch._text_search.
  destruct (GoogleSearch._is_coordinates float_of location);
    match goal with
    | |- context [GooglePlaces._paginate_search _ ?provider _] =>
        destruct (google_paginate_terminates provider max_results fuel
                    (Hpages _ _) Hfuel) as (result & E & _)
    end;
    exists result; exact E.
Qed.

Lemma google_search_terminates_witness :
  exists result,
    GoogleSearch.search_restaurants 3 sample_float_of sample_places_api
      "key" "Austin, TX" 5000 3 = Some result.
Proof.
  apply (google_search_terminates 3 sample_float_of sample_places_api
           "key" "Austin, TX" 5000 3).
  - intros url params n pagetoken data. unfold sample_places_api.
    destruct n as [| n]; cbn; [| discriminate].
    intros H. injection H as <-. cbn. discriminate.
  - vm_compute. lia.
Defined.

(** X8.  What [enrich_restaurant] of the Google Places adapter does
    without details.  A record with no place id is returned as it is and no
    request is made; a failure of the details request, in transport, by
    HTTP status or by a body that is not JSON, is raised to the caller; a
    response whose status is not OK leaves the record as it is; and a
    response with status OK and no [result] raises [KeyError]. *)
Theorem google_enrich_without_details
    (details : string -> http_reply (option GooglePlaces.DetailsData))
    (r : Restaurant) :
  (google_place_id r = "" ->
   GooglePlaces.enrich_restaurant details r = Returned r) /\
  (google_place_id r <> "" ->
   (forall e,
      GooglePlaces.fetch_json (details (google_place_id r)) = Raised e ->
      GooglePlaces.enrich_restaurant details r = Raised e) /\
   (forall data,
      GooglePlaces.fetch_json (details (google_place_id r)) = Returned data ->
      GooglePlaces.dd_status data <> Some "OK" ->
      GooglePlaces.enrich_restaurant details r = Returned r) /\
   (forall data,
      GooglePlaces.fetch_json (details (google_place_id r)) = Returned data ->
      GooglePlaces.dd_status data = Some "OK" ->
      GooglePlaces.dd_result data = None ->
      GooglePlaces.enrich_restaurant details r = Raised (KeyError "result"))).
Proof.
  unfold GooglePlaces.enrich_restaurant. split.
  - intros ->. reflexivity.
  - intros Hid. destruct (google_place_id r) as [| c id] eqn:Eid; [congruence |].
    cbn [truthy Truthy_str negb].
    split; [| split].
    + intros e ->. reflexivity.
    + intros data -> Hstatus. cbn [bind].
      destruct (GooglePlaces.dd_status data) as [s |]; [| reflexivity].
      destruct (String.eqb_spec s "OK") as [-> | _]; [congruence | reflexivity].
    + intros data -> Hstatus Hresult. cbn [bind].
      rewrite Hstatus, Hresult. reflexivity.
Qed.

Lemma google_enrich_without_details_witness :
  GooglePlaces.enrich_restaurant (fun place_id => ConnectionFailed "timed out")
    (named "Cafe A") = Returned (named "Cafe A") /\
  GooglePlaces.enrich_restaurant (fun place_id => ConnectionFailed "timed out")
    sample_record = Raised (RequestException "timed out").
Proof.
  split.
  - apply (proj1 (google_enrich_without_details
                    (fun place_id => ConnectionFailed "timed out")
                    (named "Cafe A"))).
    reflexivity.
  - apply (proj2 (google_enrich_without_details
                    (fun place_id => ConnectionFailed "timed out")
                    sample_record)).
    + discriminate.
    + reflexivity.
Defined.

(** ** Yelp: the pages *)

Lemma biz_href_inv (href : string) (n : nat) :
  Re.match_at YelpPages.biz_href href = Some n ->
  exists c rest,
    href = ("/biz/" ++ String c rest)%string /\ c <> "?"%char.
Proof.
  unfold Re.match_at, YelpPages.biz_href.
  destruct href as [| a1 [| a2 [| a3 [| a4 [| a5 [| c rest]]]]]];
    cbn [Re.run Re.lit Re.rep]; try discriminate;
    repeat match goal with
           | |- context [Ascii.eqb ?a ?b] =>
               destruct (Ascii.eqb_spec a b); subst; cbn [negb]; try discriminate
           end.
  intros _. exists c, rest. split; [reflexivity | assumption].
Qed.

Lemma split_head_biz (c : ascii) (rest : string) :
  c <> "?"%char ->
  split_head ("/biz/" ++ String c rest) "?"
  = ("/biz/" ++ String c (split_head rest "?"))%string.
Proof.
  intros Hc. cbn [append]. rewrite !split_head_char.
  destruct (Ascii.eqb_spec "?" c) as [E | _]; [congruence | reflexivity].
Qed.

Lemma parse_links_invariant (anchors links : list WebSearch.Anchor) :
  forall seen_urls restaurants,
    Forall (fun link => In link anchors /\ YelpPages.is_biz_link link = true) links ->
    (forall r, In r restaurants ->
       exists p, In p seen_urls /\
                 yelp_url r = ("https://www.yelp.com" ++ p)%string) ->
    NoDup (map yelp_url restaurants) ->
    Forall (yelp_listing anchors) restaurants ->
    let result := YelpPages.parse_links links seen_urls restaurants in
    NoDup (map yelp_url result) /\
    Forall (yelp_listing anchors) result /\
    List.length result <= List.length restaurants + List.length links.
Proof.
  induction links as [| link links IH];
    intros seen_urls restaurants Hlinks Hseen Hnodup Hall;
    cbn [YelpPages.parse_links].
  - cbn. repeat split; [exact Hnodup | exact Hall | lia].
  - apply Forall_cons_iff in Hlinks as [[Hin Hbiz] Hlinks].
    cbv zeta.
    destruct (str_in _ seen_urls) eqn:Hknown.
    { destruct (IH seen_urls restaurants Hlinks Hseen Hnodup Hall)
        as (H1 & H2 & H3).
      repeat split; [exact H1 | exact H2 | cbn [List.length]; lia]. }
    destruct (negb (truthy (WebSearch.a_text link))
              || (String.length (WebSearch.a_text link) <? 2)
              || (100 <? String.length (WebSearch.a_text link))) eqn:Hname.
    { destruct (IH seen_urls restaurants Hlinks Hseen Hnodup Hall)
        as (H1 & H2 & H3).
      repeat split; [exact H1 | exact H2 | cbn [List.length]; lia]. }
    apply orb_false_iff in Hname as [Hname Hlong].
    apply orb_false_iff in Hname as [_ Hshort].
    apply Nat.ltb_ge in Hlong, Hshort.
    match goal with
    | |- context [YelpPages.parse_links links ?seen ?rs] =>
        destruct (IH seen rs Hlinks) as (H1 & H2 & H3)
    end.
    + intros r Hr. apply in_app_or in Hr as [Hr | [<- | []]].
      * destruct (Hseen r Hr) as (p & Hp & E). exists p. split; [now right | exact E].
      * eexists. split; [left; reflexivity | reflexivity].
    + rewrite map_app. cbn [map]. apply NoDup_snoc; [exact Hnodup |].
      intros Hdup. apply in_map_iff in Hdup as (r & E & Hr).
      destruct (Hseen r Hr) as (p & Hp & E').
      cbn [yelp_url set_source set_yelp_url] in E. rewrite E' in E.
      apply string_app_inv_head in E. subst p.
      apply str_in_In in Hp. congruence.
    + apply Forall_app. split; [exact Hall |]. constructor; [| constructor].
      unfold YelpPages.is_biz_link in Hbiz.
      destruct (Re.match_at YelpPages.biz_href (WebSearch.a_href link))
        as [n |] eqn:Hmatch; [| discriminate].
      destruct (biz_href_inv _ _ Hmatch) as (c & rest & Ehref & Hc).
      repeat split.
      * cbn [yelp_url set_source set_yelp_url]. rewrite Ehref, split_head_biz by exact Hc.
        apply (prefix_app "https://www.yelp.com/biz/").
      * cbn [yelp_url set_source set_yelp_url]. rewrite contains_char_app.
        rewrite contains_split_head by discriminate. reflexivity.
      * exact Hshort.
      * exact Hlong.
      * exists link. repeat split. exact Hin.
    + rewrite length_app in H3. cbn [List.length] in H3 |- *.
      repeat split; [exact H1 | exact H2 | lia].
Qed.

(** X9.  The records [_parse_search_results] reads off a Yelp results
    page have pairwise distinct Yelp URLs; each is marked with the source
    [yelp], has a name of 2 to 100 characters that is the text of a link of
    the page, and a URL under [https://www.yelp.com/biz/] that is the
    target of that link without its query string.  There are at most as
    many records as links. *)
Theorem yelp_parse_search_results_listings (anchors : list WebSearch.Anchor) :
  let restaurants := YelpPages._parse_search_results anchors in
  NoDup (map yelp_url restaurants) /\
  Forall (yelp_listing anchors) restaurants /\
  List.length restaurants <= List.length anchors.
Proof.
  unfold YelpPages._parse_search_results.
  destruct (parse_links_invariant anchors
              (filter YelpPages.is_biz_link anchors) [] [])
    as (H1 & H2 & H3).
  - apply Forall_forall. intros link Hlink. apply filter_In in Hlink. exact Hlink.
  - intros r [].
  - constructor.
  - constructor.
  - cbv zeta. repeat split; [exact H1 | exact H2 |].
    cbn [List.length] in H3.
    pose proof (filter_length_le YelpPages.is_biz_link anchors). lia.
Qed.

Example yelp_parse_search_results_sample :
  map (fun r => (venue_name r, yelp_url r))
    (YelpPages._parse_search_results
       [ WebSearch.mkAnchor "/biz/cafe-a?osq=Restaurants" "Cafe A";
         WebSearch.mkAnchor "/biz/cafe-a" "more";
         WebSearch.mkAnchor "/search?find_desc=Restaurants" "Next";
         WebSearch.mkAnchor "/biz/cafe-b?hrid=1" "B";
         WebSearch.mkAnchor "/biz/cafe-c" "Cafe C" ])
  = [ ("Cafe A", "https://www.yelp.com/biz/cafe-a");
      ("Cafe C", "https://www.yelp.com/biz/cafe-c") ].
Proof. vm_compute. reflexivity. Qed.

Lemma only_fills_refl (allowed : Field -> bool) (r : Restaurant) :
  only_fills allowed r r.
Proof. intros f. left. reflexivity. Qed.

Lemma only_fills_trans (allowed : Field -> bool) (r1 r2 r3 : Restaurant) :
  only_fills allowed r1 r2 -> only_fills allowed r2 r3 ->
  only_fills allowed r1 r3.
Proof.
  intros H12 H23 f. destruct (H12 f) as [E | H]; [| right; exact H].
  rewrite <- E. exact (H23 f).
Qed.

Lemma only_fills_setattr (allowed : Field -> bool) (r : Restaurant)
    (f : Field) (v : Value) :
  allowed f = true -> has_no_value (getattr r f) = true ->
  only_fills allowed r (setattr r f v).
Proof.
  intros Hf Hempty g. destruct (Field_eq_dec f g) as [<- | Hne].
  - right. split; assumption.
  - left. apply getattr_setattr_other. exact Hne.
Qed.

Lemma falsy_has_no_value (s : string) :
  truthy s = false -> has_no_value (VStr s) = true.
Proof. destruct s; [reflexivity | discriminate]. Qed.

Lemma only_fills_let (allowed : Field -> bool) (r s : Restaurant)
    (body : Restaurant -> Restaurant) :
  only_fills allowed r s ->
  (forall x, only_fills allowed r x -> only_fills allowed r (body x)) ->
  only_fills allowed r (let x := s in body x).
Proof. intros Hs Hbody. exact (Hbody s Hs). Qed.

Ltac fills_let :=
  lazymatch goal with
  | |- only_fills ?allowed ?r (let x := ?s in @?body x) =>
      refine (only_fills_let allowed r s body _ _);
      [| let x := fresh "x" in let Hx := fresh "Hx" in
         intros x Hx; cbv beta;
         try (apply (only_fills_trans allowed r x _ Hx); clear Hx r) ]
  end.

Ltac fills_set f v :=
  apply (only_fills_setattr _ _ f v);
  [ reflexivity
  | first [ apply falsy_has_no_value; assumption
          | cbn [getattr];
            match goal with E : rating _ = None |- _ => rewrite E end;
            reflexivity ] ].

Ltac fills_leaf :=
  cbv zeta;
  repeat match goal with
         | |- only_fills _ ?r ?r => apply only_fills_refl
         | |- only_fills _ _ (set_phone_number _ ?v) =>
             fills_set F_phone_number (VStr v)
         | |- only_fills _ _ (set_venue_address _ ?v) =>
             fills_set F_venue_address (VStr v)
         | |- only_fills _ _ (set_website _ ?v) =>
             fills_set F_website (VStr v)
         | |- only_fills _ _ (set_price_level _ ?v) =>
             fills_set F_price_level (VStr v)
         | |- only_fills _ _ (set_email_address _ ?v) =>
             fills_set F_email_address (VStr v)
         | |- only_fills _ _ (set_venue_owner _ ?v) =>
             fills_set F_venue_owner (VStr v)
         | |- only_fills _ _ (set_rating _ (Some ?x)) =>
             fills_set F_rating (VFloat x)
         | |- only_fills _ _ (if negb (truthy ?s) then _ else _) =>
             let E := fresh "E" in destruct (truthy s) eqn:E; cbn [negb]
         | |- only_fills _ _ (match ?o with _ => _ end) =>
             let E := fresh "E" in destruct o eqn:E
         end.

Lemma yelp_extract_details_fills (unquote : string -> string)
    (float_of : string -> option float) (soup : YelpPages.BusinessPage)
    (r : Restaurant) :
  only_fills yelp_page_field r
    (YelpPages._extract_details unquote float_of soup r).
Proof.
  cbv delta [YelpPages._extract_details]. cbv beta.
  repeat (fills_let; [fills_leaf |]). fills_leaf.
Qed.

(** X10.  [_extract_details] of the Yelp adapter only fills gaps: the
    record it leaves differs from the one it was given at most in the
    phone number, the street address, the website, the rating and the
    price level, and in each of these only when the record had no value
    for it.  A rating of zero counts as a value here. *)
Theorem yelp_extract_details_only_fills (unquote : string -> string)
    (float_of : string -> option float) (soup : YelpPages.BusinessPage)
    (r : Restaurant) (f : Field) :
  let r' := YelpPages._extract_details unquote float_of soup r in
  (has_no_value (getattr r f) = false -> getattr r' f = getattr r f) /\
  (yelp_page_field f = false -> getattr r' f = getattr r f).
Proof.
  cbv zeta.
  destruct (yelp_extract_details_fills unquote float_of soup r f) as [E | [Hf He]].
  - split; intros _; exact E.
  - split; intros H; congruence.
Qed.

Lemma yelp_extract_details_only_fills_witness :
  phone_number
    (YelpPages._extract_details (fun url => url) sample_float_of
       sample_business_page sample_yelp_record)
  = "555-0000" /\
  venue_address
    (YelpPages._extract_details (fun url => url) sample_float_of
       sample_business_page sample_yelp_record)
  = "12 Main St".
Proof.
  split.
  - apply VStr_inj.
    apply (proj1 (yelp_extract_details_only_fills (fun url => url)
                    sample_float_of sample_business_page sample_yelp_record
                    F_phone_number)).
    reflexivity.
  - reflexivity.
Defined.

(** X11.  [enrich_restaurant] of the Yelp adapter never raises.  Without
    a Yelp URL it makes no request and returns the record as it is; when
    the request for the business page fails in transport or comes back
    with a 4xx or 5xx status, it returns the record as it is; otherwise the
    record it returns is the one [_extract_details] leaves. *)
Theorem yelp_enrich_never_raises (unquote : string -> string)
    (float_of : string -> option float)
    (fetch : string -> http_reply YelpPages.BusinessPage) (r : Restaurant) :
  exists r',
    YelpPages.enrich_restaurant unquote float_of fetch r = Returned r' /\
    only_fills yelp_page_field r r' /\
    (yelp_url r = "" -> r' = r) /\
    (forall msg, fetch (yelp_url r) = ConnectionFailed msg -> r' = r) /\
    (forall status_code soup,
       fetch (yelp_url r) = Responded status_code soup ->
       (400 <= status_code < 600)%Z -> r' = r) /\
    (forall status_code soup,
       yelp_url r <> "" ->
       fetch (yelp_url r) = Responded status_code soup ->
       (status_code < 400 \/ 600 <= status_code)%Z ->
       r' = YelpPages._extract_details unquote float_of soup r).
Proof.
  unfold YelpPages.enrich_restaurant.
  destruct (yelp_url r) as [| c url] eqn:Eurl; cbn [truthy Truthy_str negb].
  { exists r. repeat split; try reflexivity; try congruence.
    apply only_fills_refl. }
  destruct (fetch (String c url)) as [msg | status_code soup] eqn:Efetch;
    cbn [session_get bind try_except is_RequestException fst snd].
  { exists r. repeat split; try reflexivity; try discriminate.
    apply only_fills_refl. }
  unfold raise_for_status.
  destruct (Z.leb_spec 400 status_code); destruct (Z.ltb_spec status_code 600);
    cbn [andb bind try_except is_RequestException].
  2-4: eexists; split; [reflexivity |]; split;
         [apply yelp_extract_details_fills |];
         repeat split; try discriminate;
         intros; repeat match goal with
                        | H : Responded _ _ = Responded _ _ |- _ =>
                            injection H as <- <-
                        end; try lia; reflexivity.
  exists r. repeat split; try reflexivity; try discriminate.
  - apply only_fills_refl.
  - intros sc sp _ Hreply Hrange. injection Hreply as <- <-. lia.
Qed.

Lemma yelp_enrich_never_raises_witness :
  YelpPages.enrich_restaurant (fun url => url) sample_float_of
    (fun url => Responded 503 sample_business_page) sample_yelp_record
  = Returned sample_yelp_record.
Proof.
  destruct (yelp_enrich_never_raises (fun url => url) sample_float_of
              (fun url => Responded 503 sample_business_page)
              sample_yelp_record)
    as (r' & E & _ & _ & _ & Hstatus & _).
  rewrite E. f_equal.
  apply (Hstatus 503%Z sample_business_page); [reflexivity | lia].
Defined.

(** ** Web search *)

Lemma rstrip_prefix (t : string) : String.prefix (rstrip t) t = true.
Proof.
  induction t as [| c t IH]; [reflexivity |]. cbn [rstrip].
  destruct (rstrip t) as [| d u] eqn:E.
  - destruct (isspace c); [apply prefix_nil |].
    apply prefix_cons. split; [reflexivity | apply prefix_nil].
  - apply prefix_cons. split; [reflexivity | exact IH].
Qed.

Lemma contains_lstrip (sub t : string) :
  contains sub (lstrip t) = true -> contains sub t = true.
Proof.
  induction t as [| c t IH]; [tauto |]. cbn [lstrip].
  destruct (isspace c); [| tauto].
  intros H. apply contains_cons, IH, H.
Qed.

Lemma contains_strip (sub t : string) :
  contains sub t = false -> contains sub (strip t) = false.
Proof.
  intros H. destruct (contains sub (strip t)) eqn:E; [| reflexivity].
  rewrite <- H. symmetry. apply contains_lstrip.
  exact (contains_prefix sub _ _ (rstrip_prefix (lstrip t)) E).
Qed.

Lemma rstrip_idempotent (t : string) : rstrip (rstrip t) = rstrip t.
Proof.
  induction t as [| c t IH]; [reflexivity |]. cbn [rstrip].
  destruct (rstrip t) as [| d u] eqn:E.
  - destruct (isspace c) eqn:Ec; [reflexivity |]. cbn [rstrip]. now rewrite Ec.
  - cbn [rstrip] in IH |- *. rewrite IH. reflexivity.
Qed.

Lemma lstrip_rstrip_lstrip (t : string) :
  lstrip (rstrip (lstrip t)) = rstrip (lstrip t).
Proof.
  induction t as [| c t IH]; [reflexivity |]. cbn [lstrip].
  destruct (isspace c) eqn:Ec; [exact IH |].
  cbn [rstrip]. destruct (rstrip t); rewrite ?Ec; cbn [lstrip]; rewrite ?Ec;
    reflexivity.
Qed.

Lemma strip_idempotent (t : string) : strip (strip t) = strip t.
Proof.
  unfold strip. rewrite lstrip_rstrip_lstrip. apply rstrip_idempotent.
Qed.

Lemma cut_prefix (text sep : string) :
  String.prefix (if contains sep text then split_head text sep else text) text
  = true.
Proof.
  destruct (contains sep text); [apply split_head_prefix | apply prefix_refl].
Qed.

Lemma cut_absent (text sep : string) :
  sep <> "" ->
  contains sep (if contains sep text then split_head text sep else text) = false.
Proof.
  intros Hsep. destruct (contains sep text) eqn:E;
    [apply contains_split_head; exact Hsep | exact E].
Qed.

Lemma fold_cut (seps : list string) :
  Forall (fun sep => sep <> "") seps ->
  forall text,
    let cut := fold_left
                 (fun text sep =>
                    if contains sep text then split_head text sep else text)
                 seps text in
    String.prefix cut text = true /\
    Forall (fun sep => contains sep cut = false) seps.
Proof.
  induction seps as [| sep seps IH]; intros Hseps text; cbn [fold_left].
  - split; [apply prefix_refl | constructor].
  - apply Forall_cons_iff in Hseps as [Hsep Hseps].
    destruct (IH Hseps (if contains sep text then split_head text sep else text))
      as [Hp Hall].
    cbv zeta in Hp, Hall |- *.
    split; [exact (prefix_trans _ _ _ Hp (cut_prefix text sep)) |].
    constructor; [| exact Hall].
    pose proof (cut_absent text sep Hsep) as Habsent.
    destruct (contains sep (fold_left _ seps _)) eqn:E; [| reflexivity].
    rewrite <- Habsent. symmetry. exact (contains_prefix sep _ _ Hp E).
Qed.

Lemma fold_cut_absent (seps : list string) (text : string) :
  Forall (fun sep => contains sep text = false) seps ->
  fold_left
    (fun text sep => if contains sep text then split_head text sep else text)
    seps text
  = text.
Proof.
  induction seps as [| sep seps IH]; intros H; [reflexivity |].
  apply Forall_cons_iff in H as [Hsep H]. cbn [fold_left].
  rewrite Hsep. exact (IH H).
Qed.

Lemma clean_name_absent (text : string) :
  Forall (fun sep => contains sep (WebSearch._clean_name text) = false)
    WebSearch.separators.
Proof.
  assert (Hseps : Forall (fun sep => sep <> "") WebSearch.separators).
  { repeat constructor; discriminate. }
  unfold WebSearch._clean_name.
  destruct (fold_cut WebSearch.separators Hseps text) as [_ Hall].
  cbv zeta in Hall. revert Hall. apply Forall_impl.
  intros sep. apply contains_strip.
Qed.

Lemma clean_name_idempotent (text : string) :
  WebSearch._clean_name (WebSearch._clean_name text) = WebSearch._clean_name text.
Proof.
  unfold WebSearch._clean_name at 1.
  rewrite (fold_cut_absent _ _ (clean_name_absent text)).
  apply strip_idempotent.
Qed.

(** X12.  A name [_clean_name] returns holds none of the title
    separators it cuts at, has no whitespace left at either end, and is
    left as it is when it is cleaned again. *)
Theorem clean_name_is_clean (text : string) :
  let name := WebSearch._clean_name text in
  Forall (fun sep => contains sep name = false) WebSearch.separators /\
  strip name = name /\
  WebSearch._clean_name name = name.
Proof.
  cbv zeta. split; [apply clean_name_absent |].
  split; [apply strip_idempotent | apply clean_name_idempotent].
Qed.

Example clean_name_samples :
  WebSearch._clean_name "  Chez Panisse - TripAdvisor | Reviews " = "Chez Panisse" /\
  WebSearch._clean_name "Noma - a MICHELIN Guide Restaurant" = "Noma" /\
  WebSearch._clean_name "Luigi's" = "Luigi's".
Proof. vm_compute. repeat split. Qed.

Lemma add_source_invariant (max_results : Z) (source_results : list Restaurant) :
  forall restaurants,
    NoDup (map identity_key restaurants) ->
    let result := WebSearch.add_source max_results restaurants source_results in
    NoDup (map identity_key result) /\
    (Z.of_nat (List.length result)
     <= Z.max max_results (Z.of_nat (List.length restaurants)))%Z /\
    incl result (restaurants ++ source_results).
Proof.
  induction source_results as [| r rest IH]; intros restaurants Hnodup;
    cbn [WebSearch.add_source]; cbv zeta.
  - repeat split; [exact Hnodup | lia |]. rewrite app_nil_r. apply incl_refl.
  - destruct (Z.leb_spec max_results (Z.of_nat (List.length restaurants)))
      as [Hfull | Hroom].
    { repeat split; [exact Hnodup | lia | apply incl_appl, incl_refl]. }
    destruct (existsb _ restaurants) eqn:Hdup; cbn [negb].
    + destruct (IH restaurants Hnodup) as (H1 & H2 & H3).
      repeat split; [exact H1 | exact H2 |].
      intros x Hx. apply H3 in Hx. apply in_app_or in Hx as [Hx | Hx];
        apply in_or_app; [left | right; right]; exact Hx.
    + destruct (IH (restaurants ++ [r])) as (H1 & H2 & H3).
      * rewrite map_app. cbn [map]. apply NoDup_snoc; [exact Hnodup |].
        intros Hin. apply in_map_iff in Hin as (existing & E & Hin).
        assert (Hex : existsb
                        (fun existing =>
                           String.eqb (strip (lower (venue_name r)))
                             (strip (lower (venue_name existing))))
                        restaurants = true).
        { apply existsb_exists. exists existing. split; [exact Hin |].
          apply String.eqb_eq. symmetry. exact E. }
        congruence.
      * rewrite length_app in H2. cbn [List.length] in H2.
        repeat split; [exact H1 | lia |].
        intros x Hx. apply H3 in Hx. rewrite <- app_assoc in Hx. exact Hx.
Qed.

Lemma NoDup_firstn {A} (n : nat) (l : list A) : NoDup l -> NoDup (firstn n l).
Proof.
  intros H. rewrite <- (firstn_skipn n l) in H.
  exact (NoDup_app_remove_r _ _ H).
Qed.

Lemma incl_firstn {A} (n : nat) (l : list A) : incl (firstn n l) l.
Proof.
  intros x Hx. rewrite <- (firstn_skipn n l). apply in_or_app. now left.
Qed.

(** X13.  The web search never raises and returns at most [max_results]
    records, no two of which have the same name up to case and surrounding
    whitespace; each of them is a record of one of the three sources. *)
Theorem web_search_distinct_names (netloc_of : string -> outcome string)
    (tripadvisor michelin directories : http_reply WebSearch.Page)
    (max_results : Z) :
  exists from_tripadvisor from_michelin from_directories l,
    WebSearch._search_tripadvisor tripadvisor max_results
      = Returned from_tripadvisor /\
    WebSearch._search_michelin michelin max_results = Returned from_michelin /\
    WebSearch._search_directories netloc_of directories max_results
      = Returned from_directories /\
    WebSearch.search_restaurants netloc_of tripadvisor michelin directories
      max_results = Returned l /\
    List.length l <= Z.to_nat max_results /\
    NoDup (map identity_key l) /\
    incl l (from_tripadvisor ++ from_michelin ++ from_directories).
Proof.
  unfold WebSearch.search_restaurants.
  destruct (web_search_tripadvisor_returns tripadvisor max_results) as [l1 E1].
  destruct (web_search_michelin_returns michelin max_results) as [l2 E2].
  destruct (web_search_directories_returns netloc_of directories max_results)
    as [l3 E3].
  rewrite E1, E2, E3. cbn [bind fold_left].
  exists l1, l2, l3. eexists. repeat split.
  all: destruct (add_source_invariant max_results l1 [] (NoDup_nil _))
         as (N1 & B1 & I1);
       destruct (add_source_invariant max_results l2 _ N1) as (N2 & B2 & I2);
       destruct (add_source_invariant max_results l3 _ N2) as (N3 & B3 & I3);
       cbv zeta in *; cbn [List.length app] in *.
  - unfold list_slice_to. destruct (Z.leb_spec 0 max_results).
    + rewrite length_firstn. lia.
    + rewrite length_firstn. lia.
  - unfold list_slice_to.
    destruct (0 <=? max_results)%Z; rewrite <- firstn_map; apply NoDup_firstn, N3.
  - intros x Hx.
    assert (Hx' : In x (WebSearch.add_source max_results
                          (WebSearch.add_source max_results
                             (WebSearch.add_source max_results [] l1) l2) l3)).
    { unfold list_slice_to in Hx.
      destruct (0 <=? max_results)%Z; exact (incl_firstn _ _ _ Hx). }
    apply I3 in Hx'. apply in_app_or in Hx' as [Hx' | Hx'].
    + apply I2 in Hx'. apply in_app_or in Hx' as [Hx' | Hx'].
      * apply I1 in Hx'. apply in_or_app. now left.
      * apply in_or_app. right. apply in_or_app. now left.
    + apply in_or_app. right. apply in_or_app. now right.
Qed.

Lemma from_source_listing (text source_tag : string) :
  web_listing source_tag
    (WebSearch.from_source (WebSearch._clean_name text) source_tag).
Proof. split; [reflexivity | apply clean_name_idempotent]. Qed.

Lemma tripadvisor_links_invariant (max_results : Z) (links : list WebSearch.Anchor) :
  forall restaurants,
    Forall (web_listing "tripadvisor") restaurants ->
    (Z.of_nat (List.length restaurants) < Z.max 1 max_results)%Z ->
    let result := WebSearch.tripadvisor_links max_results restaurants links in
    Forall (web_listing "tripadvisor") result /\
    (Z.of_nat (List.length result) <= Z.max 1 max_results)%Z.
Proof.
  induction links as [| link links IH]; intros restaurants Hall Hlen;
    cbn [WebSearch.tripadvisor_links]; cbv zeta.
  - split; [exact Hall | lia].
  - match goal with
    | |- context [Z.of_nat (List.length ?rs)] =>
        assert (Hall' : Forall (web_listing "tripadvisor") rs);
        [| assert (Hlen' : (Z.of_nat (List.length rs)
                            <= Z.of_nat (List.length restaurants) + 1)%Z);
           [| destruct (Z.leb_spec max_results (Z.of_nat (List.length rs)));
              [split; [exact Hall' | lia] | apply IH; [exact Hall' | lia]]]]
    end.
    + destruct (_ && _); [| exact Hall].
      apply Forall_app. split; [exact Hall |].
      constructor; [apply from_source_listing | constructor].
    + destruct (_ && _); rewrite ?length_app; cbn [List.length]; lia.
Qed.

Lemma michelin_links_invariant (max_results : Z) (links : list WebSearch.Anchor) :
  forall restaurants,
    Forall (web_listing "michelin") restaurants ->
    (Z.of_nat (List.length restaurants) < Z.max 1 max_results)%Z ->
    let result := WebSearch.michelin_links max_results restaurants links in
    Forall (web_listing "michelin") result /\
    (Z.of_nat (List.length result) <= Z.max 1 max_results)%Z.
Proof.
  induction links as [| link links IH]; intros restaurants Hall Hlen;
    cbn [WebSearch.michelin_links]; cbv zeta.
  - split; [exact Hall | lia].
  - match goal with
    | |- context [Z.of_nat (List.length ?rs)] =>
        assert (Hall' : Forall (web_listing "michelin") rs);
        [| assert (Hlen' : (Z.of_nat (List.length rs)
                            <= Z.of_nat (List.length restaurants) + 1)%Z);
           [| destruct (Z.leb_spec max_results (Z.of_nat (List.length rs)));
              [split; [exact Hall' | lia] | apply IH; [exact Hall' | lia]]]]
    end.
    + destruct (_ && _); [| exact Hall].
      destruct (negb _); [| exact Hall].
      apply Forall_app. split; [exact Hall |].
      constructor; [apply from_source_listing | constructor].
    + destruct (_ && _); [destruct (negb _) |];
        rewrite ?length_app; cbn [List.length]; lia.
Qed.

Lemma directory_results_invariant (netloc_of : string -> outcome string)
    (max_results : Z) (results : list (option WebSearch.Anchor)) :
  forall restaurants,
    Forall (web_listing "web_search") restaurants ->
    (Z.of_nat (List.length restaurants) < Z.max 1 max_results)%Z ->
    let result :=
      fst (WebSearch.directory_results netloc_of max_results restaurants results) in
    Forall (web_listing "web_search") result /\
    (Z.of_nat (List.length result) <= Z.max 1 max_results)%Z.
Proof.
  induction results as [| [title_el |] results IH]; intros restaurants Hall Hlen;
    cbn [WebSearch.directory_results]; cbv zeta.
  - split; [exact Hall | cbn [fst]; lia].
  - destruct (if startswith _ "http" then _ else _) as [domain | e];
      [| split; [exact Hall | cbn [fst]; lia]].
    destruct (existsb _ WebSearch.skip_domains); [apply IH; assumption |].
    match goal with
    | |- context [Z.of_nat (List.length ?rs)] =>
        assert (Hall' : Forall (web_listing "web_search") rs);
        [| assert (Hlen' : (Z.of_nat (List.length rs)
                            <= Z.of_nat (List.length restaurants) + 1)%Z);
           [| destruct (Z.leb_spec max_results (Z.of_nat (List.length rs)));
              [split; [exact Hall' | cbn [fst]; lia]
              | apply IH; [exact Hall' | lia]]]]
    end.
    + destruct (_ && _); [| exact Hall].
      apply Forall_app. split; [exact Hall |].
      constructor; [| constructor].
      split; [reflexivity | apply clean_name_idempotent].
    + destruct (_ && _); rewrite ?length_app; cbn [List.length]; lia.
  - apply IH; assumption.
Qed.

(** X23.  Each of the three sources of the web search returns records
    tagged with the source and named by [_clean_name], and returns at most
    [max_results] of them, or one when [max_results] is below one: the
    bound is tested after a record is appended. *)
Theorem web_sources_listings (netloc_of : string -> outcome string)
    (tripadvisor michelin directories : http_reply WebSearch.Page)
    (max_results : Z) :
  exists from_tripadvisor from_michelin from_directories,
    WebSearch._search_tripadvisor tripadvisor max_results
      = Returned from_tripadvisor /\
    WebSearch._search_michelin michelin max_results = Returned from_michelin /\
    WebSearch._search_directories netloc_of directories max_results
      = Returned from_directories /\
    Forall (web_listing "tripadvisor") from_tripadvisor /\
    Forall (web_listing "michelin") from_michelin /\
    Forall (web_listing "web_search") from_directories /\
    (Z.of_nat (List.length from_tripadvisor) <= Z.max 1 max_results)%Z /\
    (Z.of_nat (List.length from_michelin) <= Z.max 1 max_results)%Z /\
    (Z.of_nat (List.length from_directories) <= Z.max 1 max_results)%Z.
Proof.
  assert (Hnil : forall tag, Forall (web_listing tag) []) by constructor.
  assert (H0 : (Z.of_nat (@List.length Restaurant []) < Z.max 1 max_results)%Z)
    by (cbn; lia).
  assert (Hle : (Z.of_nat (@List.length Restaurant []) <= Z.max 1 max_results)%Z)
    by (cbn; lia).
  unfold WebSearch._search_tripadvisor, WebSearch._search_michelin,
    WebSearch._search_directories.
  destruct (web_fetch_url_returns tripadvisor) as [resp1 ->].
  destruct (web_fetch_url_returns michelin) as [resp2 ->].
  destruct (web_fetch_url_returns directories) as [resp3 ->].
  cbn [bind try_except].
  pose proof (tripadvisor_links_invariant max_results
                (match resp1 with Some page => WebSearch.page_links page | None => [] end)
                [] (Hnil _) H0) as [T1 T2].
  pose proof (michelin_links_invariant max_results
                (match resp2 with Some page => WebSearch.page_links page | None => [] end)
                [] (Hnil _) H0) as [M1 M2].
  pose proof (directory_results_invariant netloc_of max_results
                (match resp3 with Some page => WebSearch.page_results page | None => [] end)
                [] (Hnil _) H0) as [D1 D2].
  cbv zeta in *.
  destruct (WebSearch.directory_results netloc_of max_results [] _)
    as [restaurants raised].
  cbn [fst] in D1, D2.
  destruct (WebSearch.page_missing resp1), (WebSearch.page_missing resp2),
    (WebSearch.page_missing resp3);
    cbn [bind try_except];
    try destruct raised as [e |]; cbn [WebSearch.any_exception];
    do 3 eexists; (split; [reflexivity |]); (split; [reflexivity |]);
    (split; [reflexivity |]);
    repeat split; auto.
Qed.

Example web_source_returns_one_for_zero :
  exists r,
    WebSearch._search_tripadvisor
      (Responded 200
         (WebSearch.mkPage "<html>...</html>"
            [ WebSearch.mkAnchor "/Restaurant_Review-g1-d1" "Cafe A - TripAdvisor";
              WebSearch.mkAnchor "/Restaurant_Review-g1-d2" "Cafe B - TripAdvisor" ]
            []))
      0
    = Returned [r] /\ venue_name r = "Cafe A".
Proof. eexists. vm_compute. split; reflexivity. Qed.

(** X26.  What the web search returns needs no deduplication: the
    [_deduplicate] that [scrape] runs on the records of the web source
    returns them as they are. *)
Theorem web_search_already_deduplicated (netloc_of : string -> outcome string)
    (tripadvisor michelin directories : http_reply WebSearch.Page)
    (max_results : Z) :
  exists l,
    WebSearch.search_restaurants netloc_of tripadvisor michelin directories
      max_results = Returned l /\
    _deduplicate l = l.
Proof.
  unfold WebSearch.search_restaurants.
  destruct (web_search_tripadvisor_returns tripadvisor max_results) as [l1 ->].
  destruct (web_search_michelin_returns michelin max_results) as [l2 ->].
  destruct (web_search_directories_returns netloc_of directories max_results)
    as [l3 ->].
  cbn [bind fold_left]. eexists. split; [reflexivity |].
  apply deduplicate_distinct.
  destruct (add_source_invariant max_results l1 [] (NoDup_nil _)) as (N1 & _ & _).
  destruct (add_source_invariant max_results l2 _ N1) as (N2 & _ & _).
  destruct (add_source_invariant max_results l3 _ N2) as (N3 & _ & _).
  cbv zeta in *. unfold list_slice_to.
  destruct (0 <=? max_results)%Z; rewrite <- firstn_map; apply NoDup_firstn, N3.
Qed.

(** ** The website crawler *)

Lemma get_retrievable (reply : http_reply WebsiteCrawler.HtmlBody) :
  exists html,
    WebsiteCrawler._get reply = Returned html /\
    (if truthy html then [get_default html ""] else []) = retrievable reply.
Proof.
  unfold WebsiteCrawler._get, retrievable.
  destruct reply as [msg | status_code [content_type text]];
    cbn [session_get bind try_except is_RequestException fst snd].
  - eexists. split; reflexivity.
  - destruct ((status_code =? 200)%Z
              && contains "text/html" (get_default content_type ""));
      cbn [bind try_except andb]; eexists; (split; [reflexivity |]).
    + destruct text; reflexivity.
    + reflexivity.
Qed.

Lemma fetch_subpages_spec (urljoin : string -> string -> outcome string)
    (web : string -> http_reply WebsiteCrawler.HtmlBody) (base_url : string)
    (slugs : list string) :
  forall pages,
    WebsiteCrawler.fetch_subpages urljoin web base_url pages slugs
    = bind (subpage_urls urljoin base_url slugs) (fun urls =>
      Returned (pages ++ flat_map (fun url => retrievable (web url)) urls)).
Proof.
  induction slugs as [| slug slugs IH]; intros pages;
    cbn [WebsiteCrawler.fetch_subpages subpage_urls bind flat_map].
  - now rewrite app_nil_r.
  - destruct (urljoin _ slug) as [url | e]; cbn [bind]; [| reflexivity].
    destruct (get_retrievable (web url)) as (html & -> & E).
    cbn [bind]. rewrite IH.
    destruct (subpage_urls urljoin base_url slugs) as [urls | e];
      cbn [bind flat_map]; [| reflexivity].
    rewrite <- E.
    destruct (truthy html); [now rewrite <- app_assoc | reflexivity].
Qed.

Lemma fetch_pages_spec (urljoin : string -> string -> outcome string)
    (web : string -> http_reply WebsiteCrawler.HtmlBody) (base_url : string) :
  WebsiteCrawler._fetch_pages urljoin web base_url
  = bind (crawl_urls urljoin base_url) (fun urls =>
    Returned (flat_map (fun url => retrievable (web url)) urls)).
Proof.
  unfold WebsiteCrawler._fetch_pages, crawl_urls.
  destruct (get_retrievable (web base_url)) as (html & -> & E).
  cbn [bind]. rewrite fetch_subpages_spec.
  destruct (subpage_urls urljoin base_url WebsiteCrawler.SUBPAGES)
    as [urls | e]; cbn [bind flat_map]; [| reflexivity].
  now rewrite E.
Qed.

Lemma subpage_urls_length (urljoin : string -> string -> outcome string)
    (base_url : string) (slugs : list string) :
  forall urls,
    subpage_urls urljoin base_url slugs = Returned urls ->
    List.length urls = List.length slugs.
Proof.
  induction slugs as [| slug slugs IH]; intros urls; cbn [subpage_urls].
  - intros H. apply Returned_inj in H. now subst.
  - destruct (urljoin _ slug) as [url | e]; cbn [bind]; [| discriminate].
    destruct (subpage_urls urljoin base_url slugs) as [rest | e];
      cbn [bind]; [| discriminate].
    intros H. apply Returned_inj in H. subst. cbn [List.length].
    now rewrite (IH rest eq_refl).
Qed.

Lemma subpage_urls_raises (urljoin : string -> string -> outcome string)
    (base_url : string) (slugs : list string) (e : exn) :
  subpage_urls urljoin base_url slugs = Raised e ->
  exists slug,
    In slug slugs /\
    urljoin (Re.rstrip_chars base_url "/" ++ "/")%string slug = Raised e.
Proof.
  induction slugs as [| slug slugs IH]; cbn [subpage_urls]; [discriminate |].
  destruct (urljoin _ slug) as [url | e'] eqn:E; cbn [bind].
  - destruct (subpage_urls urljoin base_url slugs) as [rest | e''];
      cbn [bind]; [discriminate |].
    intros H. destruct (IH H) as (slug' & Hin & Hraised).
    exists slug'. split; [now right | exact Hraised].
  - intros H. exists slug. split; [now left |]. rewrite E. congruence.
Qed.

Lemma retrievable_length (reply : http_reply WebsiteCrawler.HtmlBody) :
  List.length (retrievable reply) <= 1.
Proof.
  destruct reply as [msg | status_code [content_type text]]; cbn; [lia |].
  destruct (_ && _); cbn; lia.
Qed.

Lemma flat_map_length_le {A B} (f : A -> list B) (l : list A) :
  (forall a, List.length (f a) <= 1) ->
  List.length (flat_map f l) <= List.length l.
Proof.
  intros Hf. induction l as [| a l IH]; cbn [flat_map List.length]; [lia |].
  rewrite length_app. specialize (Hf a). lia.
Qed.

(** X14.  [_fetch_pages] asks for seven URLs, the homepage and the six
    subpages.  It raises only when [urljoin] raises on a subpage URL, a
    [ValueError] on a malformed base URL, and then with that exception.
    Otherwise a reply that fails in transport, has a status other than
    200, is not HTML or is empty is passed over without effect on the other
    pages: the pages returned are the non-empty HTML bodies of the 200
    replies, in the order of the requests, so there are at most seven and
    none is empty. *)
Theorem fetch_pages_retrievable (urljoin : string -> string -> outcome string)
    (web : string -> http_reply WebsiteCrawler.HtmlBody) (base_url : string) :
  match crawl_urls urljoin base_url with
  | Raised e =>
      WebsiteCrawler._fetch_pages urljoin web base_url = Raised e /\
      exists slug,
        In slug WebsiteCrawler.SUBPAGES /\
        urljoin (Re.rstrip_chars base_url "/" ++ "/")%string slug = Raised e
  | Returned urls =>
      exists pages,
        WebsiteCrawler._fetch_pages urljoin web base_url = Returned pages /\
        pages = flat_map (fun url => retrievable (web url)) urls /\
        List.length urls = 7 /\
        hd "" urls = base_url /\
        List.length pages <= 7 /\
        Forall (fun html => truthy html = true) pages
  end.
Proof.
  rewrite fetch_pages_spec. unfold crawl_urls.
  destruct (subpage_urls urljoin base_url WebsiteCrawler.SUBPAGES)
    as [urls | e] eqn:Eurls; cbn [bind].
  - pose proof (subpage_urls_length _ _ _ _ Eurls) as Hlen.
    cbn [WebsiteCrawler.SUBPAGES List.length] in Hlen.
    eexists. split; [reflexivity |]. split; [reflexivity |].
    split; [cbn [List.length]; now rewrite Hlen |].
    split; [reflexivity |]. split.
    + etransitivity;
        [apply flat_map_length_le; intros url; apply retrievable_length |].
      cbn [List.length]. lia.
    + apply Forall_forall. intros html Hin.
      apply in_flat_map in Hin as (url & _ & Hin).
      unfold retrievable in Hin.
      destruct (web url) as [msg | status_code [content_type text]];
        [destruct Hin |].
      destruct (truthy text) eqn:Htext; rewrite ?andb_false_r in Hin;
        [| destruct Hin].
      destruct (_ && _); [| destruct Hin].
      destruct Hin as [<- | []]. exact Htext.
  - split; [reflexivity |]. exact (subpage_urls_raises _ _ _ _ Eurls).
Qed.

Lemma fetch_pages_retrievable_witness :
  WebsiteCrawler._fetch_pages (WebsiteCrawler.urljoin sample_parsers)
    unreachable_site "http://[cafe-b/menu]"
  = Raised (ValueError "Invalid IPv6 URL") /\
  WebsiteCrawler._fetch_pages (WebsiteCrawler.urljoin sample_parsers)
    unreachable_site "https://cafe-a.example"
  = Returned [].
Proof.
  split.
  - exact (proj1 (fetch_pages_retrievable (WebsiteCrawler.urljoin sample_parsers)
                    unreachable_site "http://[cafe-b/menu]")).
  - destruct (fetch_pages_retrievable (WebsiteCrawler.urljoin sample_parsers)
                unreachable_site "https://cafe-a.example")
      as (pages & E & -> & _).
    exact E.
Defined.

Lemma falsy_field_has_no_value (r : Restaurant) (f : Field) :
  f <> F_rating -> truthy (getattr r f) = false ->
  has_no_value (getattr r f) = true.
Proof.
  intros Hf. destruct f; try congruence; cbn [getattr];
    apply falsy_has_no_value.
Qed.

Lemma extract_social_fills (html : string) (r : Restaurant)
    (entry : Field * Re.regex) :
  In entry WebsiteCrawler.SOCIAL_PATTERNS ->
  only_fills crawler_field r (WebsiteCrawler.extract_social html r entry).
Proof.
  intros Hentry. destruct entry as [f pattern]. unfold WebsiteCrawler.extract_social.
  assert (Hf : crawler_field f = true /\ f <> F_rating).
  { cbn in Hentry.
    repeat (destruct Hentry as [E | Hentry];
            [injection E as <- _; split; [reflexivity | discriminate] |]).
    destruct Hentry. }
  destruct Hf as [Hallowed Hkind].
  destruct (truthy (getattr r f)) eqn:E; [apply only_fills_refl |].
  destruct (Re.search_group0 pattern html); [| apply only_fills_refl].
  apply only_fills_setattr; [exact Hallowed |].
  apply falsy_field_has_no_value; assumption.
Qed.

Lemma extract_socials_fills (html : string) (r : Restaurant) :
  only_fills crawler_field r (WebsiteCrawler._extract_socials html r).
Proof.
  unfold WebsiteCrawler._extract_socials.
  apply (fold_left_invariant (WebsiteCrawler.extract_social html)
           (only_fills crawler_field r)
           (fun entry => In entry WebsiteCrawler.SOCIAL_PATTERNS)).
  - intros x entry Hx Hentry.
    exact (only_fills_trans _ _ _ _ Hx (extract_social_fills html x entry Hentry)).
  - apply only_fills_refl.
  - apply Forall_forall. tauto.
Qed.

Lemma extract_owner_fills (text : string) (r : Restaurant) :
  only_fills crawler_field r (WebsiteCrawler._extract_owner text r).
Proof. unfold WebsiteCrawler._extract_owner. fills_leaf. Qed.

Lemma enrich_email_fills (r : Restaurant) (text html netloc : string)
    (hrefs : list string) :
  only_fills crawler_field r
    (WebsiteScraper.enrich_email r text html netloc hrefs).
Proof. unfold WebsiteScraper.enrich_email. fills_leaf. Qed.

Lemma phone_step_fills (r : Restaurant) (phone : string) :
  only_fills crawler_field r
    (if negb (truthy (phone_number r)) then set_phone_number r phone else r).
Proof. fills_leaf. Qed.

Lemma crawler_steps_fills (text html : string) (r0 r1 : Restaurant) :
  only_fills crawler_field r0 r1 ->
  only_fills crawler_field r0
    (WebsiteCrawler._extract_owner text
       (WebsiteCrawler._extract_socials html
          (if negb (truthy (phone_number r1))
           then set_phone_number r1 (WebsiteCrawler._extract_phone text)
           else r1))).
Proof.
  intros H01.
  eapply only_fills_trans; [| apply extract_owner_fills].
  eapply only_fills_trans; [| apply extract_socials_fills].
  eapply only_fills_trans; [exact H01 | apply phone_step_fills].
Qed.

(** X15.  [enrich_restaurant] of the website crawler only fills gaps, and
    raises only the [ValueError] of [urljoin] or of [urlparse] on a
    malformed website.  A record without a website is returned as it is
    after no request.  For a record with a website: when [urljoin] raises
    on a subpage URL the call raises with that exception; when no page
    could be retrieved the record is returned as it is; when a page was
    retrieved, the call returns, unless the record has no email address
    and [urlparse] raises on the base URL, in which case it raises with
    that exception.  A record that is returned differs from the one given
    at most in the email address, the phone number, the owner and the six
    social links, and in each of these only when the record had no value
    for it. *)
Theorem website_enrich_only_fills (parsers : WebsiteCrawler.Parsers)
    (web : string -> http_reply WebsiteCrawler.HtmlBody) (r : Restaurant) :
  let base_url :=
    if negb (startswith (website r) "http")
    then ("https://" ++ website r)%string else website r in
  let enriched := WebsiteCrawler.enrich_restaurant parsers web r in
  (website r = "" -> enriched = Returned r) /\
  (website r <> "" ->
   match crawl_urls (WebsiteCrawler.urljoin parsers) base_url with
   | Raised e => enriched = Raised e
   | Returned urls =>
       let pages := flat_map (fun url => retrievable (web url)) urls in
       (pages = [] -> enriched = Returned r) /\
       (pages <> [] -> email_address r <> "" ->
        exists r', enriched = Returned r') /\
       (pages <> [] -> email_address r = "" ->
        match WebsiteCrawler.netloc_of parsers base_url with
        | Raised e => enriched = Raised e
        | Returned _ => exists r', enriched = Returned r'
        end)
   end) /\
  (forall r', enriched = Returned r' -> only_fills crawler_field r r').
Proof.
  cbv zeta. unfold WebsiteCrawler.enrich_restaurant.
  destruct (website r) as [| c site] eqn:Esite; cbn [truthy Truthy_str negb].
  { split; [reflexivity |]. split; [congruence |].
    intros r' H. apply Returned_inj in H. subst. apply only_fills_refl. }
  cbv zeta. rewrite fetch_pages_spec.
  split; [discriminate |].
  destruct (crawl_urls _ _) as [urls | e]; cbn [bind];
    [| split; [reflexivity | discriminate]].
  destruct (flat_map _ urls) as [| page pages]; cbn [truthy Truthy_list negb].
  { split.
    - intros _. repeat split; congruence.
    - intros r' H. apply Returned_inj in H. subst. apply only_fills_refl. }
  destruct (WebsiteCrawler.accumulate parsers (page :: pages))
    as [all_text all_html].
  destruct (email_address r) as [| a email] eqn:Eemail;
    cbn [truthy Truthy_str negb bind].
  - destruct (WebsiteCrawler.netloc_of parsers _) as [netloc | e];
      cbn [bind].
    + split.
      * intros _; repeat split; try congruence; intros; eexists; reflexivity.
      * intros r' H. apply Returned_inj in H. subst.
        apply crawler_steps_fills, enrich_email_fills.
    + split; [| discriminate].
      intros _; repeat split; congruence.
  - split.
    + intros _; repeat split; try congruence; intros; eexists; reflexivity.
    + intros r' H. apply Returned_inj in H. subst.
      apply crawler_steps_fills, only_fills_refl.
Qed.

Lemma website_enrich_only_fills_witness :
  WebsiteCrawler.enrich_restaurant sample_parsers unreachable_site
    (set_website (named "Cafe A") "cafe-a.example")
  = Returned (set_website (named "Cafe A") "cafe-a.example") /\
  WebsiteCrawler.enrich_restaurant sample_parsers unreachable_site
    malformed_website
  = Raised (ValueError "Invalid IPv6 URL").
Proof.
  split.
  - destruct (website_enrich_only_fills sample_parsers unreachable_site
                (set_website (named "Cafe A") "cafe-a.example"))
      as (_ & Hsite & _).
    apply Hsite; [discriminate | reflexivity].
  - destruct (website_enrich_only_fills sample_parsers unreachable_site
                malformed_website)
      as (_ & Hsite & _).
    apply Hsite. discriminate.
Defined.

Lemma rstrip_chars_idempotent (s chars : string) :
  Re.rstrip_chars (Re.rstrip_chars s chars) chars = Re.rstrip_chars s chars.
Proof.
  induction s as [| c s IH]; [reflexivity |]. cbn [Re.rstrip_chars].
  destruct (Re.rstrip_chars s chars) as [| d u] eqn:E.
  - destruct (WebsiteScraper.char_in c chars) eqn:Ec; [reflexivity |].
    cbn [Re.rstrip_chars]. now rewrite Ec.
  - cbn [Re.rstrip_chars] in IH |- *. rewrite IH. reflexivity.
Qed.

Lemma extract_social_trimmed (html : string) (r : Restaurant)
    (entry : Field * Re.regex) (f : Field) :
  getattr (WebsiteCrawler.extract_social html r entry) f = getattr r f \/
  exists url,
    getattr (WebsiteCrawler.extract_social html r entry) f = VStr url /\
    trimmed url.
Proof.
  destruct entry as [g pattern]. unfold WebsiteCrawler.extract_social.
  destruct (truthy (getattr r g)); [now left |].
  destruct (Re.search_group0 pattern html) as [url |]; [| now left].
  destruct (Field_eq_dec g f) as [<- | Hne].
  - destruct (Field_eq_dec g F_rating) as [-> | Hkind]; [now left |].
    right. exists (Re.rstrip_chars url WebsiteCrawler.trailing_noise).
    split; [| apply rstrip_chars_idempotent].
    apply getattr_setattr_kind. destruct g; try congruence; reflexivity.
  - left. apply getattr_setattr_other. exact Hne.
Qed.

(** X16.  A social link [_extract_socials] writes never ends with a
    quote, a closing angle bracket, a slash, a closing parenthesis, a comma
    or a period: every field either keeps the value it had or holds a URL
    from which [rstrip] has nothing left to take. *)
Theorem extract_socials_trimmed (html : string) (r : Restaurant) (f : Field) :
  getattr (WebsiteCrawler._extract_socials html r) f = getattr r f \/
  exists url,
    getattr (WebsiteCrawler._extract_socials html r) f = VStr url /\
    trimmed url.
Proof.
  unfold WebsiteCrawler._extract_socials.
  apply (fold_left_invariant (WebsiteCrawler.extract_social html)
           (fun x => getattr x f = getattr r f \/
                     exists url, getattr x f = VStr url /\ trimmed url)
           (fun _ => True)).
  - intros x entry Hx _.
    destruct (extract_social_trimmed html x entry f) as [E | H];
      [rewrite E; exact Hx | right; exact H].
  - now left.
  - apply Forall_forall. tauto.
Qed.

Example extract_socials_sample :
  facebook
    (WebsiteCrawler._extract_socials
       (String WebsiteCrawler.dquote "https://www.facebook.com/luigis/"
        ++ String WebsiteCrawler.dquote ">")
       empty_restaurant)
  = "https://www.facebook.com/luigis".
Proof. vm_compute. reflexivity. Qed.

(** ** The bulk export, as a whole *)

(** X17.  The properties [_create_batch] builds for a record.  Only the
    domain can fail: when [urlparse] raises on the website the exception
    leaves [properties].  Otherwise the properties never hold an empty
    value: an attribute with no value is left out of the request, the
    industry is always sent as RESTAURANT, and the cuisine is sent as a
    description only when the record has one. *)
Theorem hubspot_properties_nonempty (netloc_of : string -> outcome string)
    (r : Restaurant) :
  match HubSpot._extract_domain netloc_of (website r) with
  | Raised e => HubSpot.properties netloc_of r = Raised e
  | Returned domain =>
      exists sent,
        HubSpot.properties netloc_of r = Returned sent /\
        Forall (fun kv => snd kv <> "") sent /\
        In ("industry", "RESTAURANT") sent /\
        (forall v, In ("name", v) sent <-> v = venue_name r /\ v <> "") /\
        (forall v, In ("domain", v) sent <-> v = domain /\ v <> "") /\
        (forall v, In ("description", v) sent <->
                   v = ("Cuisine: " ++ cuisine_type r)%string /\
                   cuisine_type r <> "")
  end.
Proof.
  unfold HubSpot.properties.
  destruct (HubSpot._extract_domain netloc_of (website r)) as [domain | e];
    cbn [bind]; [| reflexivity].
  eexists. split; [reflexivity |]. split; [| split; [| split; [| split]]].
  - apply Forall_forall. intros [k v] Hin. apply filter_In in Hin as [_ Hv].
    cbn [snd] in *. destruct v; [discriminate | discriminate].
  - apply filter_In. split; [| reflexivity]. do 10 right. now left.
  - intros v. rewrite filter_In. cbn [In snd]. split.
    + intros [Hin Hv].
      repeat (destruct Hin as [E | Hin]; [inversion E; subst |]);
        try destruct Hin.
      split; [reflexivity |]. destruct (venue_name r); [discriminate | discriminate].
    + intros [-> Hv]. split; [now left |].
      destruct (venue_name r); [congruence | reflexivity].
  - intros v. rewrite filter_In. cbn [In snd]. split.
    + intros [Hin Hv].
      repeat (destruct Hin as [E | Hin]; [inversion E; subst |]);
        try destruct Hin.
      split; [reflexivity |]. intros Hempty. rewrite Hempty in Hv.
      discriminate.
    + intros [-> Hv]. split; [right; now left |].
      destruct domain; [congruence | reflexivity].
  - intros v. rewrite filter_In. cbn [In snd]. split.
    + intros [Hin Hv].
      repeat (destruct Hin as [E | Hin]; [inversion E; subst |]);
        try destruct Hin.
      destruct (cuisine_type r); [discriminate |].
      split; [reflexivity | discriminate].
    + intros [-> Hc]. destruct (cuisine_type r) as [| c s] eqn:E; [congruence |].
      cbn [truthy Truthy_str]. split; [| reflexivity].
      do 9 right. now left.
Qed.

Example hubspot_properties_sample :
  HubSpot.properties sample_urlparse
    (set_website (named "Cafe A") "https://www.cafe-a.example/menu")
  = Returned [ ("name", "Cafe A"); ("domain", "cafe-a.example");
               ("website", "https://www.cafe-a.example/menu");
               ("industry", "RESTAURANT") ] /\
  HubSpot.properties sample_urlparse malformed_website
  = Raised (ValueError "Invalid IPv6 URL").
Proof. vm_compute. split; reflexivity. Qed.

Lemma inputs_of_Forall2 (netloc_of : string -> outcome string)
    (restaurants : list Restaurant) :
  forall all_inputs,
    HubSpot.inputs_of netloc_of restaurants = Returned all_inputs <->
    Forall2 (fun r sent => HubSpot.properties netloc_of r = Returned sent)
      restaurants all_inputs.
Proof.
  induction restaurants as [| r rest IH]; intros all_inputs;
    cbn [HubSpot.inputs_of].
  - split.
    + intros H. apply Returned_inj in H. subst. constructor.
    + intros H. inversion H. reflexivity.
  - split.
    + destruct (HubSpot.properties netloc_of r) as [props | e] eqn:Eprops;
        cbn [bind]; [| discriminate].
      destruct (HubSpot.inputs_of netloc_of rest) as [inputs | e] eqn:Erest;
        cbn [bind]; [| discriminate].
      intros H. apply Returned_inj in H. subst.
      constructor; [exact Eprops | now apply IH].
    + intros H. inversion H as [| r' sent rest' inputs Hprops Hrest]; subst.
      rewrite Hprops. cbn [bind]. apply IH in Hrest. rewrite Hrest.
      reflexivity.
Qed.

Lemma Forall2_firstn_skipn {A B} (R : A -> B -> Prop) (n : nat) :
  forall l l',
    Forall2 R l l' ->
    Forall2 R (firstn n l) (firstn n l') /\ Forall2 R (skipn n l) (skipn n l').
Proof.
  induction n as [| n IH]; intros l l' H.
  - split; [constructor | exact H].
  - destruct H as [| a b l l' Hab H]; [split; constructor |].
    cbn [firstn skipn]. destruct (IH l l' H) as [Hfirst Hskip].
    split; [constructor; assumption | exact Hskip].
Qed.

Lemma inputs_of_slice (netloc_of : string -> outcome string)
    (restaurants : list Restaurant) (all_inputs : HubSpot.Payload) (i j : Z) :
  HubSpot.inputs_of netloc_of restaurants = Returned all_inputs ->
  HubSpot.inputs_of netloc_of (HubSpot.slice restaurants i j)
  = Returned (HubSpot.slice all_inputs i j).
Proof.
  intros H. apply inputs_of_Forall2 in H. apply inputs_of_Forall2.
  unfold HubSpot.slice.
  apply Forall2_firstn_skipn, Forall2_firstn_skipn. exact H.
Qed.

Lemma inputs_of_length (netloc_of : string -> outcome string)
    (restaurants : list Restaurant) (all_inputs : HubSpot.Payload) :
  HubSpot.inputs_of netloc_of restaurants = Returned all_inputs ->
  HubSpot.len all_inputs = HubSpot.len restaurants.
Proof.
  intros H. apply inputs_of_Forall2, Forall2_length in H.
  unfold HubSpot.len. now rewrite H.
Qed.

Lemma inputs_of_app (netloc_of : string -> outcome string)
    (first rest : list Restaurant) :
  HubSpot.inputs_of netloc_of (first ++ rest)
  = bind (HubSpot.inputs_of netloc_of first) (fun inputs =>
    bind (HubSpot.inputs_of netloc_of rest) (fun inputs' =>
    Returned (inputs ++ inputs'))).
Proof.
  induction first as [| r first IH]; cbn [app HubSpot.inputs_of bind].
  - destruct (HubSpot.inputs_of netloc_of rest); reflexivity.
  - destruct (HubSpot.properties netloc_of r) as [props | e]; cbn [bind];
      [| reflexivity].
    rewrite IH.
    destruct (HubSpot.inputs_of netloc_of first) as [inputs | e]; cbn [bind];
      [| reflexivity].
    destruct (HubSpot.inputs_of netloc_of rest); reflexivity.
Qed.

Lemma push_loop_events (netloc_of : string -> outcome string)
    (provider : HubSpot.crm_provider) (restaurants : list Restaurant)
    (all_inputs : HubSpot.Payload) (batch_size : Z) (indices : list Z) :
  HubSpot.inputs_of netloc_of restaurants = Returned all_inputs ->
  forall st,
    exists st',
      HubSpot.push_loop netloc_of provider restaurants batch_size st indices
        = Returned st' /\
      HubSpot.trace st'
        = HubSpot.trace st ++
          flat_map (batch_events all_inputs batch_size) indices /\
      HubSpot.requests st' = HubSpot.requests st + List.length indices.
Proof.
  intros Hall. pose proof (inputs_of_length _ _ _ Hall) as Hlen.
  induction indices as [| i indices IH]; intros st; cbn [HubSpot.push_loop].
  - exists st. cbn. rewrite app_nil_r. repeat split. lia.
  - unfold HubSpot.push_batch.
    pose proof (inputs_of_slice netloc_of restaurants all_inputs i
                  (i + batch_size) Hall) as Hslice.
    destruct (create_batch_returns netloc_of (provider (HubSpot.requests st))
                (HubSpot.slice restaurants i (i + batch_size)) _ Hslice)
      as [batch_result ->].
    rewrite Hslice. cbn [bind].
    match goal with
    | |- context [HubSpot.push_loop _ _ _ _ ?st1 _] =>
        destruct (IH st1) as (st' & E & Htrace & Hrequests)
    end.
    exists st'. split; [exact E |]. split.
    + rewrite Htrace. cbn [HubSpot.trace flat_map].
      unfold batch_events, batch_payload. rewrite Hlen.
      destruct (i + batch_size <? HubSpot.len restaurants)%Z;
        now rewrite <- ?app_assoc.
    + rewrite Hrequests. cbn [HubSpot.requests List.length]. lia.
Qed.

Lemma posted_batch_events (all_inputs : HubSpot.Payload) (batch_size : Z)
    (indices : list Z) :
  posted (flat_map (batch_events all_inputs batch_size) indices)
  = map (batch_payload all_inputs batch_size) indices.
Proof.
  induction indices as [| i indices IH]; [reflexivity |].
  cbn [flat_map map]. unfold posted in *. rewrite flat_map_app, IH.
  unfold batch_events.
  destruct (i + batch_size <? HubSpot.len all_inputs)%Z; reflexivity.
Qed.

Section Range.

Variable A : Type.
Variable l : list A.
Variable step : Z.
Hypothesis step_positive : (0 < step)%Z.

Lemma skipn_slice (i : Z) :
  (0 <= i)%Z ->
  skipn (Z.to_nat i) l
  = HubSpot.slice l i (i + step) ++ skipn (Z.to_nat (i + step)) l.
Proof.
  intros Hi. unfold HubSpot.slice.
  replace (Z.to_nat (i + step)) with (Z.to_nat (i + step - i) + Z.to_nat i)
    by lia.
  rewrite <- skipn_skipn. symmetry. apply firstn_skipn.
Qed.

Lemma range_up_slices (fuel : nat) :
  forall i,
    (0 <= i)%Z -> Z.to_nat (HubSpot.len l - i) <= fuel ->
    List.concat
      (map (fun i => HubSpot.slice l i (i + step))
           (HubSpot.range_up fuel i (HubSpot.len l) step))
    = skipn (Z.to_nat i) l.
Proof.
  unfold HubSpot.len.
  induction fuel as [| fuel IH]; intros i Hi Hfuel; cbn [HubSpot.range_up].
  - cbn. symmetry. apply skipn_all2. lia.
  - destruct (Z.ltb_spec i (Z.of_nat (List.length l))) as [Hlt | Hge].
    + cbn [map List.concat]. rewrite IH by lia.
      symmetry. apply skipn_slice. exact Hi.
    + cbn. symmetry. apply skipn_all2. lia.
Qed.

Lemma range_up_In (fuel : nat) :
  forall i j,
    In j (HubSpot.range_up fuel i (HubSpot.len l) step) ->
    (i <= j < HubSpot.len l)%Z.
Proof.
  induction fuel as [| fuel IH]; intros i j; cbn [HubSpot.range_up];
    [intros [] |].
  destruct (Z.ltb_spec i (HubSpot.len l)); [| intros []].
  intros [<- | Hin]; [lia |]. apply IH in Hin. lia.
Qed.

Lemma slice_length (i : Z) :
  (0 <= i < HubSpot.len l)%Z ->
  1 <= List.length (HubSpot.slice l i (i + step)) <= Z.to_nat step.
Proof.
  unfold HubSpot.len, HubSpot.slice. intros Hi.
  rewrite length_firstn, length_skipn. lia.
Qed.

Lemma range_up_length (fuel : nat) :
  forall i,
    Z.to_nat (HubSpot.len l - i) <= fuel ->
    List.length (HubSpot.range_up fuel i (HubSpot.len l) step)
    = Z.to_nat ((HubSpot.len l - i + step - 1) / step).
Proof.
  assert (Hnone : forall i, (HubSpot.len l <= i)%Z ->
                    Z.to_nat ((HubSpot.len l - i + step - 1) / step) = 0).
  { intros i Hge.
    assert ((HubSpot.len l - i + step - 1) / step < 1)%Z
      by (apply Z.div_lt_upper_bound; lia).
    lia. }
  induction fuel as [| fuel IH]; intros i Hfuel; cbn [HubSpot.range_up].
  - rewrite Hnone by lia. reflexivity.
  - destruct (Z.ltb_spec i (HubSpot.len l)) as [Hlt | Hge];
      [| rewrite Hnone by lia; reflexivity].
    cbn [List.length]. rewrite IH by lia.
    replace (HubSpot.len l - i + step - 1)%Z
      with ((HubSpot.len l - (i + step) + step - 1) + 1 * step)%Z by lia.
    rewrite Z.div_add by lia.
    assert (0 <= (HubSpot.len l - (i + step) + step - 1) / step)%Z
      by (apply Z.div_pos; lia).
    lia.
Qed.

End Range.

Lemma range_up_alternating (all_inputs : HubSpot.Payload) (batch_size : Z)
    (fuel : nat) :
  (0 < batch_size)%Z ->
  forall i,
    Z.to_nat (HubSpot.len all_inputs - i) <= fuel ->
    flat_map (batch_events all_inputs batch_size)
      (HubSpot.range_up fuel i (HubSpot.len all_inputs) batch_size)
    = alternating
        (map (batch_payload all_inputs batch_size)
           (HubSpot.range_up fuel i (HubSpot.len all_inputs) batch_size)).
Proof.
  intros Hstep. induction fuel as [| fuel IH]; intros i Hfuel;
    cbn [HubSpot.range_up]; [reflexivity |].
  destruct (Z.ltb_spec i (HubSpot.len all_inputs)) as [Hlt | Hge];
    [| reflexivity].
  cbn [flat_map map]. rewrite IH by lia. unfold batch_events at 1.
  destruct (Z.ltb_spec (i + batch_size) (HubSpot.len all_inputs)) as [Hnext | Hlast].
  - destruct fuel as [| fuel']; [lia |]. cbn [HubSpot.range_up].
    destruct (Z.ltb_spec (i + batch_size) (HubSpot.len all_inputs)); [| lia].
    reflexivity.
  - destruct fuel as [| fuel']; cbn [HubSpot.range_up]; [reflexivity |].
    destruct (Z.ltb_spec (i + batch_size) (HubSpot.len all_inputs)); [lia |].
    reflexivity.
Qed.

Lemma push_restaurants_events (netloc_of : string -> outcome string)
    (provider : HubSpot.crm_provider) (restaurants : list Restaurant)
    (all_inputs : HubSpot.Payload) (batch_size : Z) :
  (0 < batch_size)%Z ->
  HubSpot.inputs_of netloc_of restaurants = Returned all_inputs ->
  let indices :=
    HubSpot.range_up (Z.to_nat (HubSpot.len all_inputs)) 0
      (HubSpot.len all_inputs) batch_size in
  exists summary,
    HubSpot.push_restaurants netloc_of provider restaurants batch_size
    = Returned (summary,
                flat_map (batch_events all_inputs batch_size) indices).
Proof.
  intros Hstep Hall indices. unfold HubSpot.push_restaurants, HubSpot.range.
  destruct (Z.eqb_spec batch_size 0); [lia |].
  destruct (Z.ltb_spec batch_size 0); [lia |].
  cbn [bind]. rewrite <- (inputs_of_length _ _ _ Hall). fold indices.
  destruct (push_loop_events netloc_of provider restaurants all_inputs
              batch_size indices Hall
              (HubSpot.mkPushState (HubSpot.mkSummary 0 0 []) [] 0))
    as (st' & -> & Htrace & _).
  cbn [bind]. rewrite Htrace. cbn [HubSpot.trace app]. eexists. reflexivity.
Qed.

Lemma push_loop_raises (netloc_of : string -> outcome string)
    (provider : HubSpot.crm_provider) (restaurants : list Restaurant)
    (batch_size : Z) (e : exn) :
  (0 < batch_size)%Z ->
  forall fuel i st,
    (0 <= i)%Z ->
    Z.to_nat (HubSpot.len restaurants - i) <= fuel ->
    HubSpot.inputs_of netloc_of (skipn (Z.to_nat i) restaurants) = Raised e ->
    HubSpot.push_loop netloc_of provider restaurants batch_size st
      (HubSpot.range_up fuel i (HubSpot.len restaurants) batch_size)
    = Raised e.
Proof.
  intros Hstep.
  induction fuel as [| fuel IH]; intros i st Hi Hfuel Hraised.
  - rewrite skipn_all2 in Hraised by (unfold HubSpot.len in Hfuel; lia).
    discriminate.
  - cbn [HubSpot.range_up].
    destruct (Z.ltb_spec i (HubSpot.len restaurants)) as [Hlt | Hge].
    + cbn [HubSpot.push_loop].
      rewrite (skipn_slice _ restaurants batch_size Hstep i Hi),
        inputs_of_app in Hraised.
      unfold HubSpot.push_batch.
      destruct (HubSpot.inputs_of netloc_of
                  (HubSpot.slice restaurants i (i + batch_size)))
        as [inputs | e'] eqn:Hbatch.
      * destruct (create_batch_returns netloc_of
                    (provider (HubSpot.requests st))
                    (HubSpot.slice restaurants i (i + batch_size)) inputs
                    Hbatch)
          as [batch_result ->].
        cbn [bind] in Hraised |- *. apply IH; [lia | lia |].
        destruct (HubSpot.inputs_of netloc_of
                    (skipn (Z.to_nat (i + batch_size)) restaurants));
          cbn [bind] in Hraised; [discriminate | congruence].
      * cbn [bind] in Hraised. unfold HubSpot._create_batch.
        rewrite Hbatch. cbn [bind]. congruence.
    + rewrite skipn_all2 in Hraised by (unfold HubSpot.len in Hge; lia).
      discriminate.
Qed.

(** X18.  With a positive batch size, [push_restaurants] sends every
    record exactly once and in order, when the properties of every record
    can be built: the payloads of its requests, put end to end, are the
    properties of the records of the list, and each request carries at
    least one record and at most [batch_size].  When [urlparse] raises on
    the website of a record, [push_restaurants] raises with the exception
    of the first such record. *)
Theorem push_sends_each_record_once (netloc_of : string -> outcome string)
    (provider : HubSpot.crm_provider) (restaurants : list Restaurant)
    (batch_size : Z) :
  (0 < batch_size)%Z ->
  match HubSpot.inputs_of netloc_of restaurants with
  | Raised e =>
      HubSpot.push_restaurants netloc_of provider restaurants batch_size
      = Raised e
  | Returned all_inputs =>
      exists summary events,
        HubSpot.push_restaurants netloc_of provider restaurants batch_size
          = Returned (summary, events) /\
        List.concat (posted events) = all_inputs /\
        Forall2 (fun r sent => HubSpot.properties netloc_of r = Returned sent)
          restaurants all_inputs /\
        Forall (fun payload =>
                  1 <= List.length payload <= Z.to_nat batch_size)
               (posted events)
  end.
Proof.
  intros Hstep.
  destruct (HubSpot.inputs_of netloc_of restaurants) as [all_inputs | e]
    eqn:Hall.
  - destruct (push_restaurants_events netloc_of provider restaurants
                all_inputs batch_size Hstep Hall)
      as [summary E].
    cbv zeta in E. eexists. eexists. split; [exact E |].
    rewrite posted_batch_events. unfold batch_payload. split; [| split].
    + rewrite (range_up_slices _ all_inputs batch_size Hstep) by lia.
      reflexivity.
    + apply inputs_of_Forall2. exact Hall.
    + apply Forall_forall. intros payload Hin.
      apply in_map_iff in Hin as (i & <- & Hin).
      apply (range_up_In _ all_inputs batch_size Hstep) in Hin.
      apply (slice_length _ all_inputs batch_size Hstep). lia.
  - unfold HubSpot.push_restaurants, HubSpot.range.
    destruct (Z.eqb_spec batch_size 0); [lia |].
    destruct (Z.ltb_spec batch_size 0); [lia |].
    cbn [bind].
    rewrite (push_loop_raises netloc_of provider restaurants batch_size e
               Hstep);
      [reflexivity | lia | lia | exact Hall].
Qed.

Lemma push_sends_each_record_once_witness :
  (exists summary events,
     HubSpot.push_restaurants sample_urlparse partial_success
       twenty_five_records 10 = Returned (summary, events) /\
     map (@List.length _) (posted events) = [10; 10; 5]) /\
  HubSpot.push_restaurants sample_urlparse partial_success
    (twenty_five_records ++ [malformed_website]) 10
  = Raised (ValueError "Invalid IPv6 URL").
Proof.
  split.
  - pose proof (push_sends_each_record_once sample_urlparse partial_success
                  twenty_five_records 10 eq_refl) as H.
    destruct (HubSpot.inputs_of sample_urlparse twenty_five_records)
      as [all_inputs | e] eqn:Hall; [| vm_compute in Hall; discriminate].
    destruct H as (summary & events & E & _).
    exists summary, events. split; [exact E |].
    vm_compute in E. injection E as _ <-. reflexivity.
  - exact (push_sends_each_record_once sample_urlparse partial_success
             (twenty_five_records ++ [malformed_website]) 10 eq_refl).
Defined.

(** X19.  With a positive batch size and a list of which the properties
    can be built, [push_restaurants] makes one request per started batch
    of [batch_size] records, that is the length of the list divided by
    [batch_size] and rounded up, and sleeps half a second between two
    requests: after every request but the last, and never before the
    first. *)
Theorem push_pauses_between_requests (netloc_of : string -> outcome string)
    (provider : HubSpot.crm_provider) (restaurants : list Restaurant)
    (all_inputs : HubSpot.Payload) (batch_size : Z) :
  (0 < batch_size)%Z ->
  HubSpot.inputs_of netloc_of restaurants = Returned all_inputs ->
  exists summary events,
    HubSpot.push_restaurants netloc_of provider restaurants batch_size
      = Returned (summary, events) /\
    events = alternating (posted events) /\
    Z.of_nat (List.length (posted events))
    = ((HubSpot.len restaurants + batch_size - 1) / batch_size)%Z.
Proof.
  intros Hstep Hall.
  destruct (push_restaurants_events netloc_of provider restaurants all_inputs
              batch_size Hstep Hall)
    as [summary E].
  cbv zeta in E. eexists. eexists. split; [exact E |].
  rewrite posted_batch_events. split.
  - apply range_up_alternating; [exact Hstep | lia].
  - rewrite length_map, (range_up_length _ all_inputs batch_size Hstep) by lia.
    rewrite Z.sub_0_r, (inputs_of_length _ _ _ Hall).
    assert (0 <= (HubSpot.len restaurants + batch_size - 1) / batch_size)%Z.
    { apply Z.div_pos; unfold HubSpot.len; lia. }
    lia.
Qed.

Lemma push_pauses_between_requests_witness :
  exists summary events,
    HubSpot.push_restaurants sample_urlparse partial_success
      twenty_five_records 10 = Returned (summary, events) /\
    events = alternating (posted events) /\
    Z.of_nat (List.length (posted events))
    = ((HubSpot.len twenty_five_records + 10 - 1) / 10)%Z.
Proof.
  destruct (HubSpot.inputs_of sample_urlparse twenty_five_records)
    as [all_inputs | e] eqn:Hall; [| vm_compute in Hall; discriminate].
  exact (push_pauses_between_requests sample_urlparse partial_success
           twenty_five_records all_inputs 10 eq_refl Hall).
Defined.

Lemma create_batch_rejected (netloc_of : string -> outcome string)
    (reply_to : HubSpot.Payload -> http_reply HubSpot.Body)
    (batch : list Restaurant) (inputs : HubSpot.Payload) :
  HubSpot.inputs_of netloc_of batch = Returned inputs ->
  rejected (reply_to inputs) ->
  exists message,
    HubSpot._create_batch netloc_of reply_to batch
    = Returned (HubSpot.mkSummary 0 (HubSpot.len batch) [message]).
Proof.
  intros Hinputs. unfold HubSpot._create_batch, rejected.
  rewrite Hinputs. cbn [bind].
  destruct (reply_to _) as [msg | status_code body];
    cbn [session_post session_get bind try_except is_RequestException fst snd].
  - intros _. eexists. reflexivity.
  - intros [H201 H207].
    destruct (Z.eqb_spec status_code 201); [contradiction |].
    destruct (Z.eqb_spec status_code 207); [contradiction |].
    eexists. reflexivity.
Qed.

Lemma push_loop_rejected (netloc_of : string -> outcome string)
    (provider : HubSpot.crm_provider) (restaurants : list Restaurant)
    (all_inputs : HubSpot.Payload) (batch_size : Z) (indices : list Z) :
  HubSpot.inputs_of netloc_of restaurants = Returned all_inputs ->
  (forall n payload, rejected (provider n payload)) ->
  forall st,
    exists st',
      HubSpot.push_loop netloc_of provider restaurants batch_size st indices
        = Returned st' /\
      HubSpot.created (HubSpot.results st')
        = HubSpot.created (HubSpot.results st) /\
      HubSpot.failed (HubSpot.results st')
        = (HubSpot.failed (HubSpot.results st) +
           HubSpot.len
             (List.concat
                (map (fun i => HubSpot.slice restaurants i (i + batch_size))
                   indices)))%Z /\
      List.length (HubSpot.errors (HubSpot.results st'))
        = List.length (HubSpot.errors (HubSpot.results st)) + List.length indices.
Proof.
  intros Hall Hrejected.
  induction indices as [| i indices IH]; intros st; cbn [HubSpot.push_loop].
  - exists st. cbn. unfold HubSpot.len. cbn. repeat split; lia.
  - unfold HubSpot.push_batch.
    pose proof (inputs_of_slice netloc_of restaurants all_inputs i
                  (i + batch_size) Hall) as Hslice.
    destruct (create_batch_rejected netloc_of (provider (HubSpot.requests st))
                (HubSpot.slice restaurants i (i + batch_size)) _ Hslice
                (Hrejected _ _))
      as [message ->].
    rewrite Hslice. cbn [bind].
    match goal with
    | |- context [HubSpot.push_loop _ _ _ _ ?st1 _] =>
        destruct (IH st1) as (st' & E & Hcreated & Hfailed & Herrors)
    end.
    exists st'. split; [exact E |].
    cbn [HubSpot.results HubSpot.created HubSpot.failed HubSpot.errors]
      in Hcreated, Hfailed, Herrors.
    rewrite Hcreated, Hfailed, Herrors.
    cbn [map List.concat List.length]. unfold HubSpot.len.
    rewrite !length_app. cbn [List.length]. repeat split; lia.
Qed.

(** X20.  When the CRM rejects every request, by a transport failure or
    by a status that is neither 201 nor 207, [push_restaurants] with a
    positive batch size and a list of which the properties can be built
    still goes through the whole list: it returns created 0, every record
    of the list as failed, and one error message per request. *)
Theorem push_all_rejected (netloc_of : string -> outcome string)
    (provider : HubSpot.crm_provider) (restaurants : list Restaurant)
    (all_inputs : HubSpot.Payload) (batch_size : Z) :
  (0 < batch_size)%Z ->
  HubSpot.inputs_of netloc_of restaurants = Returned all_inputs ->
  (forall n payload, rejected (provider n payload)) ->
  exists summary events,
    HubSpot.push_restaurants netloc_of provider restaurants batch_size
      = Returned (summary, events) /\
    HubSpot.created summary = 0%Z /\
    HubSpot.failed summary = HubSpot.len restaurants /\
    List.length (HubSpot.errors summary) = List.length (posted events) /\
    Z.of_nat (List.length (posted events))
    = ((HubSpot.len restaurants + batch_size - 1) / batch_size)%Z.
Proof.
  intros Hstep Hall Hrejected.
  pose proof (inputs_of_length _ _ _ Hall) as Hlen.
  destruct (push_restaurants_events netloc_of provider restaurants all_inputs
              batch_size Hstep Hall)
    as [summary E].
  cbv zeta in E. exists summary. eexists. split; [exact E |].
  rewrite posted_batch_events, length_map.
  revert E. unfold HubSpot.push_restaurants, HubSpot.range.
  destruct (Z.eqb_spec batch_size 0); [lia |].
  destruct (Z.ltb_spec batch_size 0); [lia |].
  cbn [bind]. rewrite Hlen.
  destruct (push_loop_rejected netloc_of provider restaurants all_inputs
              batch_size
              (HubSpot.range_up (Z.to_nat (HubSpot.len restaurants)) 0
                 (HubSpot.len restaurants) batch_size)
              Hall Hrejected
              (HubSpot.mkPushState (HubSpot.mkSummary 0 0 []) [] 0))
    as (st' & -> & Hcreated & Hfailed & Herrors).
  cbn [bind]. intros E. injection E as <- _.
  rewrite Hcreated, Hfailed, Herrors.
  rewrite (range_up_slices _ restaurants batch_size Hstep) by lia.
  rewrite (range_up_length _ restaurants batch_size Hstep) by lia.
  rewrite Z.sub_0_r.
  assert (0 <= (HubSpot.len restaurants + batch_size - 1) / batch_size)%Z.
  { apply Z.div_pos; unfold HubSpot.len; lia. }
  cbn. repeat split. lia.
Qed.

Lemma push_all_rejected_witness :
  exists summary events,
    HubSpot.push_restaurants sample_urlparse refusing_provider
      twenty_five_records 10 = Returned (summary, events) /\
    HubSpot.created summary = 0%Z /\
    HubSpot.failed summary = HubSpot.len twenty_five_records /\
    List.length (HubSpot.errors summary) = List.length (posted events) /\
    Z.of_nat (List.length (posted events))
    = ((HubSpot.len twenty_five_records + 10 - 1) / 10)%Z.
Proof.
  destruct (HubSpot.inputs_of sample_urlparse twenty_five_records)
    as [all_inputs | e] eqn:Hall; [| vm_compute in Hall; discriminate].
  apply (push_all_rejected sample_urlparse refusing_provider
           twenty_five_records all_inputs 10 eq_refl Hall).
  intros n payload. cbn. split; discriminate.
Defined.

(** X21.  The batch sizes that are not positive.  With a batch size of
    zero [push_restaurants] raises [ValueError] before any request, on any
    list; with a negative batch size it makes no request and returns
    created 0 and failed 0, however many records the list holds. *)
Theorem push_batch_size_not_positive (netloc_of : string -> outcome string)
    (provider : HubSpot.crm_provider) (restaurants : list Restaurant) :
  (exists msg,
     HubSpot.push_restaurants netloc_of provider restaurants 0
     = Raised (ValueError msg)) /\
  (forall batch_size, (batch_size < 0)%Z ->
     HubSpot.push_restaurants netloc_of provider restaurants batch_size
     = Returned (HubSpot.mkSummary 0 0 [], [])).
Proof.
  split.
  - eexists. reflexivity.
  - intros batch_size Hneg. unfold HubSpot.push_restaurants, HubSpot.range.
    destruct (Z.eqb_spec batch_size 0); [lia |].
    destruct (Z.ltb_spec batch_size 0); [| lia]. reflexivity.
Qed.

Lemma push_batch_size_not_positive_witness :
  HubSpot.push_restaurants sample_urlparse partial_success
    twenty_five_records (-5)
  = Returned (HubSpot.mkSummary 0 0 [], []).
Proof.
  apply (proj2 (push_batch_size_not_positive sample_urlparse partial_success
                  twenty_five_records)).
  lia.
Defined.

(** ** The results table *)

Lemma string_length_app (a b : string) :
  String.length (a ++ b) = String.length a + String.length b.
Proof. induction a as [| c a IH]; cbn; [reflexivity | now rewrite IH]. Qed.

Lemma slice_to_length (s : string) (n : nat) :
  n <= String.length s -> String.length (slice_to s n) = n.
Proof.
  unfold slice_to. revert n. induction s as [| c s IH]; intros n Hn.
  - cbn in Hn. destruct n; [reflexivity | lia].
  - destruct n as [| n]; [reflexivity |]. cbn in Hn |- *.
    rewrite IH by lia. reflexivity.
Qed.

Lemma or_dash_spec (x : string) :
  (x = "" -> Console.or_dash x = "-") /\
  (x <> "" -> Console.or_dash x = x).
Proof. destruct x; split; intros H; try reflexivity; congruence. Qed.

(** X22.  A row of the results table has seven cells: the index, the
    name, then phone, email, website, owner and rating.  The phone, email
    and owner cells show the field, and a dash when the field is empty.
    The website cell shows a dash for a record without website, a website
    of up to 25 characters whole, and a longer one as its first 22
    characters and three dots, so that it never exceeds the 25 characters
    of its column.  The rating cell shows a dash for a record without
    rating or with a rating of zero, and the text of any other rating. *)
Theorem display_row_cells (str_of_float : float -> string) (i : Z)
    (r : Restaurant) :
  exists phone_cell email_cell website_cell owner_cell rating_cell,
    Console.display_row str_of_float i r
    = [ str_of_int i; venue_name r; phone_cell; email_cell; website_cell;
        owner_cell; rating_cell ] /\
    ((phone_number r = "" -> phone_cell = "-") /\
     (phone_number r <> "" -> phone_cell = phone_number r)) /\
    ((email_address r = "" -> email_cell = "-") /\
     (email_address r <> "" -> email_cell = email_address r)) /\
    ((venue_owner r = "" -> owner_cell = "-") /\
     (venue_owner r <> "" -> owner_cell = venue_owner r)) /\
    (website r = "" -> website_cell = "-") /\
    (website r <> "" -> String.length (website r) <= 25 ->
     website_cell = website r) /\
    (25 < String.length (website r) ->
     website_cell = (slice_to (website r) 22 ++ "...")%string) /\
    String.length website_cell <= 25 /\
    (rating r = None -> rating_cell = "-") /\
    (forall x, rating r = Some x -> PrimFloat.eqb x 0%float = true ->
     rating_cell = "-") /\
    (forall x, rating r = Some x -> PrimFloat.eqb x 0%float = false ->
     rating_cell = str_of_float x).
Proof.
  unfold Console.display_row. cbv zeta.
  do 5 eexists. split; [reflexivity |].
  split; [apply or_dash_spec |]. split; [apply or_dash_spec |].
  split; [apply or_dash_spec |].
  split; [| split; [| split; [| split; [| split; [| split]]]]].
  - intros ->. reflexivity.
  - intros Hsite Hshort. destruct (website r) as [| c s]; [congruence |].
    cbn [truthy Truthy_str andb].
    destruct (Nat.ltb_spec 25 (String.length (String c s))); [lia |].
    reflexivity.
  - intros Hlong. destruct (website r) as [| c s]; [cbn in Hlong; lia |].
    cbn [truthy Truthy_str andb].
    destruct (Nat.ltb_spec 25 (String.length (String c s))); [| lia].
    destruct s; reflexivity.
  - destruct (website r) as [| c s] eqn:E; [cbn; lia |].
    cbn [truthy Truthy_str andb].
    destruct (Nat.ltb_spec 25 (String.length (String c s))) as [Hlong | Hshort].
    + cbn [Console.or_dash].
      replace (Console.or_dash (slice_to (String c s) 22 ++ "..."))
        with (slice_to (String c s) 22 ++ "...")%string
        by (destruct s; reflexivity).
      rewrite string_length_app, slice_to_length by lia. cbn. lia.
    + cbn [Console.or_dash truthy Truthy_str]. exact Hshort.
  - intros ->. reflexivity.
  - intros x -> Hzero. unfold truthy, Truthy_float. rewrite Hzero. reflexivity.
  - intros x -> Hother. unfold truthy, Truthy_float. rewrite Hother.
    reflexivity.
Qed.

Lemma display_row_cells_witness :
  nth 4 (Console.display_row (fun x => "4.5") 1
           (set_website (named "Luigi's") "https://www.luigis-trattoria.example/"))
        ""
  = "https://www.luigis-tra..." /\
  nth 2 (Console.display_row (fun x => "4.5") 1
           (set_website (named "Luigi's") "https://www.luigis-trattoria.example/"))
        ""
  = "-".
Proof.
  destruct (display_row_cells (fun x => "4.5") 1
              (set_website (named "Luigi's")
                 "https://www.luigis-trattoria.example/"))
    as (phone_cell & email_cell & website_cell & owner_cell & rating_cell
        & E & (Hphone & _) & _ & _ & _ & _ & Hlong & _).
  rewrite E. cbn [nth]. split.
  - apply Hlong. cbn. lia.
  - apply Hphone. reflexivity.
Defined.

Example display_row_sample :
  Console.display_row (fun _ => "4.5") 1
    (set_rating
       (set_website (named "Luigi's") "https://www.luigis-trattoria.example/")
       (Some 4.5%float))
  = ["1"; "Luigi's"; "-"; "-"; "https://www.luigis-tra..."; "-"; "4.5"].
Proof. vm_compute. reflexivity. Qed.

